(** * The fabcar token chaincode: a shallow embedding and its properties

    The chaincode of [chaincode/fabcar/go/fabcar.go] keeps every record as a
    JSON document in the key-value state of its stub.  This development
    embeds
    - the Go values the contract computes with (64-bit [int], [float64],
      byte strings, SHA-256, [%d] and [%f] formatting),
    - the JSON documents [json.Marshal] writes and [json.Unmarshal] reads,
    - the stub ([GetState] and [PutState] as the repository's [mockStub]
      implements them) with an error monad on top of it,
    - every transaction of the contract, translated statement by statement,
    and then states and proves the properties of the specification. *)

From Stdlib Require Import ZArith String Ascii List Floats DecimalString Lia.
From stdpp Require Import gmap strings list fin_maps sorting.

Local Open Scope string_scope.
Local Open Scope Z_scope.

(** ** Go's [int] on a 64-bit platform *)

Definition min_int : Z := - 2 ^ 63.
Definition max_int : Z := 2 ^ 63 - 1.

Definition is_int (z : Z) : Prop := min_int <= z <= max_int.
Definition is_intb (z : Z) : bool := (min_int <=? z) && (z <=? max_int).

(** Two's complement wrap-around of [+=] and [-=]. *)
Definition wrap_int (z : Z) : Z := (z + 2 ^ 63) mod 2 ^ 64 - 2 ^ 63.
Definition add_int (x y : Z) : Z := wrap_int (x + y).
Definition sub_int (x y : Z) : Z := wrap_int (x - y).

(** [fmt.Sprintf("%d", z)] *)
Definition Sprintf_d (z : Z) : string := NilZero.string_of_int (Z.to_int z).

(** ** Go's [float64]: the kernel's binary64 numbers *)

(** [int(f)] as the amd64 back end compiles it: truncation toward zero, and
    the "integer indefinite" value [min_int] when [f] is a NaN, an infinity or
    out of range. *)
Definition int_of_float64 (f : float) : Z :=
  match Prim2SF f with
  | S754_zero _ => 0
  | S754_finite s m e =>
      let mag := if 0 <=? e then Z.shiftl (Zpos m) e else Z.shiftr (Zpos m) (- e) in
      let v := if s then - mag else mag in
      if is_intb v then v else min_int
  | S754_infinity _ | S754_nan => min_int
  end.

(** The integer a float is, when it is one. *)
Definition exact_Z (f : float) : option Z :=
  match Prim2SF f with
  | S754_zero _ => Some 0
  | S754_finite s m e =>
      if 0 <=? e then Some ((if s then -1 else 1) * Z.shiftl (Zpos m) e)
      else if Zpos m mod 2 ^ (- e) =? 0
           then Some ((if s then -1 else 1) * Z.shiftr (Zpos m) (- e))
           else None
  | S754_infinity _ | S754_nan => None
  end.

(** The nearest [float64] of an integer, ties to even. *)
Definition float64_of_Z (z : Z) : float :=
  SF2Prim (binary_normalize prec emax z 0 false).

Definition is_finite (f : float) : bool :=
  negb (PrimFloat.is_nan f) && negb (PrimFloat.is_infinity f).

(** Rounding [a / b] to the nearest integer, ties to even ([0 < b]). *)
Definition div_half_even (a b : Z) : Z :=
  let q := a / b in
  let r := a mod b in
  match 2 * r ?= b with
  | Lt => q
  | Gt => q + 1
  | Eq => if Z.even q then q else q + 1
  end.

Definition pad6 (n : Z) : string :=
  let s := Sprintf_d n in
  string_of_list_ascii (repeat "0"%char (6 - String.length s)) +:+ s.

(** [fmt.Sprintf("%f", x)]: the exact value of [x] rounded to six decimals. *)
Definition Sprintf_f (x : float) : string :=
  match Prim2SF x with
  | S754_nan => "NaN"
  | S754_infinity false => "+Inf"
  | S754_infinity true => "-Inf"
  | S754_zero s => (if s then "-" else "") +:+ "0.000000"
  | S754_finite s m e =>
      let n := if 0 <=? e then Zpos m * 2 ^ e * 10 ^ 6
               else div_half_even (Zpos m * 10 ^ 6) (2 ^ (- e)) in
      (if s then "-" else "") +:+ Sprintf_d (n / 10 ^ 6) +:+ "." +:+ pad6 (n mod 10 ^ 6)
  end.

(** ** [crypto/sha256] and [encoding/hex] *)

Module SHA256.

Definition mask32 : Z := 2 ^ 32 - 1.
Definition add32 (x y : Z) : Z := (x + y) mod 2 ^ 32.
Definition rotr (n x : Z) : Z :=
  Z.lor (Z.shiftr x n) (Z.land (Z.shiftl x (32 - n)) mask32).
Definition xor3 (x y z : Z) : Z := Z.lxor (Z.lxor x y) z.

Definition Ch (x y z : Z) : Z := Z.lxor (Z.land x y) (Z.land (Z.lxor x mask32) z).
Definition Maj (x y z : Z) : Z := xor3 (Z.land x y) (Z.land x z) (Z.land y z).
Definition bsig0 (x : Z) : Z := xor3 (rotr 2 x) (rotr 13 x) (rotr 22 x).
Definition bsig1 (x : Z) : Z := xor3 (rotr 6 x) (rotr 11 x) (rotr 25 x).
Definition ssig0 (x : Z) : Z := xor3 (rotr 7 x) (rotr 18 x) (Z.shiftr x 3).
Definition ssig1 (x : Z) : Z := xor3 (rotr 17 x) (rotr 19 x) (Z.shiftr x 10).

Definition K : list Z :=
  [ 1116352408; 1899447441; 3049323471; 3921009573; 961987163; 1508970993;
    2453635748; 2870763221; 3624381080; 310598401; 607225278; 1426881987;
    1925078388; 2162078206; 2614888103; 3248222580; 3835390401; 4022224774;
    264347078; 604807628; 770255983; 1249150122; 1555081692; 1996064986;
    2554220882; 2821834349; 2952996808; 3210313671; 3336571891; 3584528711;
    113926993; 338241895; 666307205; 773529912; 1294757372; 1396182291;
    1695183700; 1986661051; 2177026350; 2456956037; 2730485921; 2820302411;
    3259730800; 3345764771; 3516065817; 3600352804; 4094571909; 275423344;
    430227734; 506948616; 659060556; 883997877; 958139571; 1322822218;
    1537002063; 1747873779; 1955562222; 2024104815; 2227730452; 2361852424;
    2428436474; 2756734187; 3204031479; 3329325298 ].

Definition digest : Type := Z * Z * Z * Z * Z * Z * Z * Z.

Definition init : digest :=
  (1779033703, 3144134277, 1013904242, 2773480762,
   1359893119, 2600822924, 528734635, 1541459225).

(** The message with its padding: a [1] bit, zeros, the bit length on 64 bits. *)
Definition be_bytes (n : nat) (z : Z) : list Z :=
  map (fun i => Z.shiftr z (8 * Z.of_nat i) mod 256) (rev (seq 0 n)).

Definition pad (msg : list Z) : list Z :=
  let len := Z.of_nat (length msg) in
  msg ++ [128] ++ repeat 0 (Z.to_nat ((55 - len) mod 64)) ++ be_bytes 8 (8 * len).

Fixpoint words (bs : list Z) : list Z :=
  match bs with
  | b0 :: b1 :: b2 :: b3 :: rest =>
      (Z.shiftl b0 24 + Z.shiftl b1 16 + Z.shiftl b2 8 + b3) :: words rest
  | _ => []
  end.

(** The message schedule, newest word first. *)
Fixpoint schedule (n : nat) (rw : list Z) : list Z :=
  match n with
  | O => rw
  | S n' =>
      let w := add32 (add32 (ssig1 (nth 1 rw 0)) (nth 6 rw 0))
                     (add32 (ssig0 (nth 14 rw 0)) (nth 15 rw 0)) in
      schedule n' (w :: rw)
  end.

Definition round (st : digest) (kw : Z * Z) : digest :=
  let '(a, b, c, d, e, f, g, h) := st in
  let t1 := add32 (add32 (add32 h (bsig1 e)) (add32 (Ch e f g) (fst kw))) (snd kw) in
  let t2 := add32 (bsig0 a) (Maj a b c) in
  (add32 t1 t2, a, b, c, add32 d t1, e, f, g).

Definition block (st : digest) (ws : list Z) : digest :=
  let w := rev (schedule 48 (rev ws)) in
  let '(a, b, c, d, e, f, g, h) := fold_left round (combine K w) st in
  let '(a0, b0, c0, d0, e0, f0, g0, h0) := st in
  (add32 a0 a, add32 b0 b, add32 c0 c, add32 d0 d,
   add32 e0 e, add32 f0 f, add32 g0 g, add32 h0 h).

Fixpoint blocks (n : nat) (st : digest) (ws : list Z) : digest :=
  match n with
  | O => st
  | S n' => blocks n' (block st (firstn 16 ws)) (skipn 16 ws)
  end.

Definition bytes_of_string (s : string) : list Z :=
  map (fun c => Z.of_N (N_of_ascii c)) (list_ascii_of_string s).

(** [sha256.Sum256([]byte(s))] *)
Definition Sum256 (s : string) : digest :=
  let ws := words (pad (bytes_of_string s)) in
  blocks (length ws / 16) init ws.

Definition hexdigit (z : Z) : ascii :=
  nth (Z.to_nat (z mod 16))
      (list_ascii_of_string "0123456789abcdef") "0"%char.

Definition hex_word (w : Z) (rest : string) : string :=
  String (hexdigit (Z.shiftr w 28)) (String (hexdigit (Z.shiftr w 24))
 (String (hexdigit (Z.shiftr w 20)) (String (hexdigit (Z.shiftr w 16))
 (String (hexdigit (Z.shiftr w 12)) (String (hexdigit (Z.shiftr w 8))
 (String (hexdigit (Z.shiftr w 4)) (String (hexdigit w) rest))))))).

(** [hex.EncodeToString(hash[:])] *)
Definition EncodeToString (dg : digest) : string :=
  let '(a, b, c, d, e, f, g, h) := dg in
  hex_word a (hex_word b (hex_word c (hex_word d
 (hex_word e (hex_word f (hex_word g (hex_word h EmptyString))))))).

End SHA256.

(** The network address [SubmitRegistration] derives from a name. *)
Definition address_of_name (name : string) : string :=
  SHA256.EncodeToString (SHA256.Sum256 name).


(** These are computed on concrete inputs only. *)
Global Arguments is_intb : simpl never.
Global Arguments wrap_int : simpl never.
Global Arguments add_int : simpl never.
Global Arguments sub_int : simpl never.
Global Arguments Sprintf_d : simpl never.
Global Arguments Sprintf_f : simpl never.
Global Arguments int_of_float64 : simpl never.
Global Arguments exact_Z : simpl never.
Global Arguments float64_of_Z : simpl never.
Global Arguments is_finite : simpl never.
Global Arguments address_of_name : simpl never.

(** ** Errors *)

(** A Go [error]: the message of a [fmt.Errorf], or the error of
    [json.Unmarshal], whose text the contract never inspects. *)
Inductive error : Type :=
| Errorf (msg : string)
| JSONError.

(** ** JSON documents

    What [json.Marshal] writes for the structs of the contract and what
    [json.Unmarshal] reads back: an object is the list of its members, in the
    order of the struct's fields.  A number is kept as the integer literal
    [json.Marshal] writes for an [int] or as the [float64] it writes for a
    float.  Strings are byte strings (valid UTF-8 is assumed, so that
    marshalling keeps them), member names are matched as written, and an
    object holds each name once, as every object written by [json.Marshal]
    does. *)

Inductive jval : Type :=
| JString (s : string)
| JInt (z : Z)
| JFloat (f : float)
| JBool (b : bool)
| JStrings (l : list string)
| JNull.

Definition object : Type := list (string * jval).

(** The value stored under a key: a JSON object, or any other byte string
    (the contract itself writes only the [%f] text of a balance). *)
Inductive bytes : Type :=
| Json (o : object)
| Text (s : string).

Fixpoint field (name : string) (o : object) : option jval :=
  match o with
  | [] => None
  | (k, v) :: o' => if String.eqb k name then Some v else field name o'
  end.

(** Decoding one member into a struct field: the value the field takes and
    whether the member had a type the field accepts.  An absent member and
    [null] leave the zero value. *)
Definition dec_string (v : option jval) : string * bool :=
  match v with
  | Some (JString s) => (s, true)
  | None | Some JNull => ("", true)
  | Some _ => ("", false)
  end.

Definition dec_bool (v : option jval) : bool * bool :=
  match v with
  | Some (JBool b) => (b, true)
  | None | Some JNull => (false, true)
  | Some _ => (false, false)
  end.

(** An [int] field takes an integer literal in range; a float literal is
    taken when it denotes an integer that [json] would have written without
    fraction or exponent (then it is the same literal). *)
Definition dec_int (v : option jval) : Z * bool :=
  match v with
  | Some (JInt z) => if is_intb z then (z, true) else (0, false)
  | Some (JFloat f) =>
      match exact_Z f with
      | Some z => if is_intb z then (z, true) else (0, false)
      | None => (0, false)
      end
  | None | Some JNull => (0, true)
  | Some _ => (0, false)
  end.

Definition dec_float (v : option jval) : float * bool :=
  match v with
  | Some (JFloat f) => if is_finite f then (f, true) else (0%float, false)
  | Some (JInt z) =>
      let f := float64_of_Z z in
      if is_finite f then (f, true) else (0%float, false)
  | None | Some JNull => (0%float, true)
  | Some _ => (0%float, false)
  end.

Definition dec_strings (v : option jval) : option (list string) * bool :=
  match v with
  | Some (JStrings l) => (Some l, true)
  | None | Some JNull => (None, true)
  | Some _ => (None, false)
  end.

Definition enc_strings (l : option (list string)) : jval :=
  match l with
  | Some l => JStrings l
  | None => JNull
  end.

Definition json_error (oks : list bool) : option error :=
  if forallb id oks then None else Some JSONError.

(** ** The records of the contract *)

Module Participant.
Record t : Type := mk {
  Name : string;
  NetworkAddress : string;
  ClientID : string;
  Approved : bool;
  PasswordHash : string;
  Country : string;
  TokenID : string;
  TransferIDs : option (list string);
}.
Definition zero : t := mk "" "" "" false "" "" "" None.
End Participant.

Module Token.
Record t : Type := mk {
  TokenID : string;
  Owner : string;
  Available : bool;
  Minted : Z;
  TransferIDs : option (list string);
}.
Definition zero : t := mk "" "" false 0 None.
End Token.

Module TokenRequest.
Record t : Type := mk {
  RequestID : string;
  NetworkAddr : string;
  Status : string;
  TokenID : string;
}.
Definition zero : t := mk "" "" "" "".
End TokenRequest.

Module MintRequest.
Record t : Type := mk {
  RequestID : string;
  TokenID : string;
  RequestedBy : string;
  Amount : Z;
  Approved : bool;
}.
Definition zero : t := mk "" "" "" 0 false.
End MintRequest.

Module Customer.
Record t : Type := mk {
  NetworkAddress : string;
  Name : string;
  PasswordHash : string;
  TokenID : string;
  Approved : bool;
  Balance : Z;
  TransferIDs : option (list string);
  TokenTransferIDs : option (list string);
}.
Definition zero : t := mk "" "" "" "" false 0 None None.
End Customer.

Module RegisterCustomerRequest.
Record t : Type := mk {
  RequestID : string;
  NetworkAddress : string;
  Name : string;
  PasswordHash : string;
  TokenID : string;
  Approved : bool;
}.
Definition zero : t := mk "" "" "" "" "" false.
End RegisterCustomerRequest.

Module TransferRequest.
Record t : Type := mk {
  TransferRequestID : string;
  TokenID : string;
  Amount : float;
  SenderTransferID : string;
  ReceiverTransferID : string;
  SenderTokenTransferID : string;
  ReceiverTokenTransferID : string;
  Status : string;
}.
Definition zero : t := mk "" "" 0%float "" "" "" "" "".
End TransferRequest.

Definition maxTokens : Z := 25.

(** ** [json.Marshal] and [json.Unmarshal], struct by struct

    [Unmarshal_X b] is the struct after [json.Unmarshal(b, &x)] on a zero
    [x], with the error it returns: a member of the wrong type is skipped and
    reported, the other members are still decoded. *)

Definition Marshal_Participant (p : Participant.t) : bytes :=
  Json [ ("name", JString (Participant.Name p));
         ("network_address", JString (Participant.NetworkAddress p));
         ("client_id", JString (Participant.ClientID p));
         ("approved", JBool (Participant.Approved p));
         ("password_hash", JString (Participant.PasswordHash p));
         ("country", JString (Participant.Country p));
         ("token_id", JString (Participant.TokenID p));
         ("transfer_ids", enc_strings (Participant.TransferIDs p)) ].

Definition Unmarshal_Participant (b : bytes) : Participant.t * option error :=
  match b with
  | Text _ => (Participant.zero, Some JSONError)
  | Json o =>
      let name := dec_string (field "name" o) in
      let addr := dec_string (field "network_address" o) in
      let cid := dec_string (field "client_id" o) in
      let appr := dec_bool (field "approved" o) in
      let pw := dec_string (field "password_hash" o) in
      let country := dec_string (field "country" o) in
      let tid := dec_string (field "token_id" o) in
      let ids := dec_strings (field "transfer_ids" o) in
      (Participant.mk (fst name) (fst addr) (fst cid) (fst appr) (fst pw)
                      (fst country) (fst tid) (fst ids),
       json_error [snd name; snd addr; snd cid; snd appr; snd pw;
                   snd country; snd tid; snd ids])
  end.

Definition Marshal_Token (t : Token.t) : bytes :=
  Json [ ("token_id", JString (Token.TokenID t));
         ("owner", JString (Token.Owner t));
         ("available", JBool (Token.Available t));
         ("minted", JInt (Token.Minted t));
         ("transfer_ids", enc_strings (Token.TransferIDs t)) ].

Definition Unmarshal_Token (b : bytes) : Token.t * option error :=
  match b with
  | Text _ => (Token.zero, Some JSONError)
  | Json o =>
      let tid := dec_string (field "token_id" o) in
      let owner := dec_string (field "owner" o) in
      let avail := dec_bool (field "available" o) in
      let minted := dec_int (field "minted" o) in
      let ids := dec_strings (field "transfer_ids" o) in
      (Token.mk (fst tid) (fst owner) (fst avail) (fst minted) (fst ids),
       json_error [snd tid; snd owner; snd avail; snd minted; snd ids])
  end.

Definition Marshal_TokenRequest (r : TokenRequest.t) : bytes :=
  Json [ ("request_id", JString (TokenRequest.RequestID r));
         ("network_addr", JString (TokenRequest.NetworkAddr r));
         ("status", JString (TokenRequest.Status r));
         ("token_id", JString (TokenRequest.TokenID r)) ].

Definition Unmarshal_TokenRequest (b : bytes) : TokenRequest.t * option error :=
  match b with
  | Text _ => (TokenRequest.zero, Some JSONError)
  | Json o =>
      let rid := dec_string (field "request_id" o) in
      let addr := dec_string (field "network_addr" o) in
      let status := dec_string (field "status" o) in
      let tid := dec_string (field "token_id" o) in
      (TokenRequest.mk (fst rid) (fst addr) (fst status) (fst tid),
       json_error [snd rid; snd addr; snd status; snd tid])
  end.

Definition Marshal_MintRequest (m : MintRequest.t) : bytes :=
  Json [ ("request_id", JString (MintRequest.RequestID m));
         ("token_id", JString (MintRequest.TokenID m));
         ("requested_by", JString (MintRequest.RequestedBy m));
         ("amount", JInt (MintRequest.Amount m));
         ("approved", JBool (MintRequest.Approved m)) ].

Definition Unmarshal_MintRequest (b : bytes) : MintRequest.t * option error :=
  match b with
  | Text _ => (MintRequest.zero, Some JSONError)
  | Json o =>
      let rid := dec_string (field "request_id" o) in
      let tid := dec_string (field "token_id" o) in
      let by_ := dec_string (field "requested_by" o) in
      let amount := dec_int (field "amount" o) in
      let appr := dec_bool (field "approved" o) in
      (MintRequest.mk (fst rid) (fst tid) (fst by_) (fst amount) (fst appr),
       json_error [snd rid; snd tid; snd by_; snd amount; snd appr])
  end.

Definition Marshal_Customer (c : Customer.t) : bytes :=
  Json [ ("network_address", JString (Customer.NetworkAddress c));
         ("name", JString (Customer.Name c));
         ("password_hash", JString (Customer.PasswordHash c));
         ("token_id", JString (Customer.TokenID c));
         ("approved", JBool (Customer.Approved c));
         ("balance", JInt (Customer.Balance c));
         ("transfer_ids", enc_strings (Customer.TransferIDs c));
         ("token_transfer_ids", enc_strings (Customer.TokenTransferIDs c)) ].

Definition Unmarshal_Customer (b : bytes) : Customer.t * option error :=
  match b with
  | Text _ => (Customer.zero, Some JSONError)
  | Json o =>
      let addr := dec_string (field "network_address" o) in
      let name := dec_string (field "name" o) in
      let pw := dec_string (field "password_hash" o) in
      let tid := dec_string (field "token_id" o) in
      let appr := dec_bool (field "approved" o) in
      let bal := dec_int (field "balance" o) in
      let ids := dec_strings (field "transfer_ids" o) in
      let tids := dec_strings (field "token_transfer_ids" o) in
      (Customer.mk (fst addr) (fst name) (fst pw) (fst tid) (fst appr)
                   (fst bal) (fst ids) (fst tids),
       json_error [snd addr; snd name; snd pw; snd tid; snd appr; snd bal;
                   snd ids; snd tids])
  end.

Definition Marshal_RegisterCustomerRequest (q : RegisterCustomerRequest.t) : bytes :=
  Json [ ("request_id", JString (RegisterCustomerRequest.RequestID q));
         ("network_address", JString (RegisterCustomerRequest.NetworkAddress q));
         ("name", JString (RegisterCustomerRequest.Name q));
         ("password_hash", JString (RegisterCustomerRequest.PasswordHash q));
         ("token_id", JString (RegisterCustomerRequest.TokenID q));
         ("approved", JBool (RegisterCustomerRequest.Approved q)) ].

Definition Unmarshal_RegisterCustomerRequest (b : bytes)
  : RegisterCustomerRequest.t * option error :=
  match b with
  | Text _ => (RegisterCustomerRequest.zero, Some JSONError)
  | Json o =>
      let rid := dec_string (field "request_id" o) in
      let addr := dec_string (field "network_address" o) in
      let name := dec_string (field "name" o) in
      let pw := dec_string (field "password_hash" o) in
      let tid := dec_string (field "token_id" o) in
      let appr := dec_bool (field "approved" o) in
      (RegisterCustomerRequest.mk (fst rid) (fst addr) (fst name) (fst pw)
                                  (fst tid) (fst appr),
       json_error [snd rid; snd addr; snd name; snd pw; snd tid; snd appr])
  end.

(** [json.Marshal] refuses a NaN or an infinity: the only marshalling of the
    contract that can fail. *)
Definition Marshal_TransferRequest (x : TransferRequest.t) : option bytes :=
  if is_finite (TransferRequest.Amount x) then
    Some (Json [ ("transfer_request_id", JString (TransferRequest.TransferRequestID x));
                 ("token_id", JString (TransferRequest.TokenID x));
                 ("amount", JFloat (TransferRequest.Amount x));
                 ("sender_transfer_id", JString (TransferRequest.SenderTransferID x));
                 ("receiver_transfer_id", JString (TransferRequest.ReceiverTransferID x));
                 ("sender_token_transfer_id",
                  JString (TransferRequest.SenderTokenTransferID x));
                 ("receiver_token_transfer_id",
                  JString (TransferRequest.ReceiverTokenTransferID x));
                 ("status", JString (TransferRequest.Status x)) ])
  else None.

Definition Unmarshal_TransferRequest (b : bytes) : TransferRequest.t * option error :=
  match b with
  | Text _ => (TransferRequest.zero, Some JSONError)
  | Json o =>
      let rid := dec_string (field "transfer_request_id" o) in
      let tid := dec_string (field "token_id" o) in
      let amount := dec_float (field "amount" o) in
      let sender := dec_string (field "sender_transfer_id" o) in
      let receiver := dec_string (field "receiver_transfer_id" o) in
      let stok := dec_string (field "sender_token_transfer_id" o) in
      let rtok := dec_string (field "receiver_token_transfer_id" o) in
      let status := dec_string (field "status" o) in
      (TransferRequest.mk (fst rid) (fst tid) (fst amount) (fst sender)
                          (fst receiver) (fst stok) (fst rtok) (fst status),
       json_error [snd rid; snd tid; snd amount; snd sender; snd receiver;
                   snd stok; snd rtok; snd status])
  end.

(** ** The stub and the transaction monad

    The world state is the map of the repository's [mockStub]: [GetState]
    reads it (an absent key reads as [nil]) and [PutState] writes through at
    once, so a transaction sees its own writes and a write made before a
    failure stays in the map.  A transaction is a function of that state
    which returns a value or a Go [error]. *)

Inductive result (A : Type) : Type :=
| Ok (a : A)
| Err (e : error).
Arguments Ok {A} a.
Arguments Err {A} e.

Definition Tx (A : Type) : Type :=
  gmap string bytes -> result A * gmap string bytes.

Global Instance Tx_ret : MRet Tx := fun A a st => (Ok a, st).
Global Instance Tx_bind : MBind Tx := fun A B f m st =>
  match m st with
  | (Ok a, st') => f a st'
  | (Err e, st') => (Err e, st')
  end.

Definition fail {A : Type} (e : error) : Tx A := fun st => (Err e, st).

Definition GetState (key : string) : Tx (option bytes) :=
  fun st => (Ok (st !! key), st).

Definition PutState (key : string) (value : bytes) : Tx unit :=
  fun st => (Ok tt, <[key := value]> st).

(** [PutState] with the bytes of a [json.Marshal] whose error was dropped:
    on a failed marshalling they are [nil], which the map then holds and
    [GetState] hands back as an absent value. *)
Definition PutState_nilable (key : string) (value : option bytes) : Tx unit :=
  match value with
  | Some b => PutState key b
  | None => fun st => (Ok tt, delete key st)
  end.

(** [if err := json.Unmarshal(b, &x); err != nil { return err }] *)
Definition unmarshal {A : Type} (r : A * option error) : Tx A :=
  match snd r with
  | None => mret (fst r)
  | Some e => fail e
  end.

(** The state a transaction leaves and the value it returns. *)
Definition run {A : Type} (tx : Tx A) (st : gmap string bytes) : gmap string bytes :=
  snd (tx st).
Definition returns {A : Type} (tx : Tx A) (st : gmap string bytes) : result A :=
  fst (tx st).

(** The caller of a transaction: [ctx.GetClientIdentity()]. *)
Record Caller : Type := { GetID : string; GetMSPID : string }.

(** [fmt.Sprintf("token_%d", i)] *)
Definition token_key (i : Z) : string := "token_" +:+ Sprintf_d i.

(** ** The transactions *)

Fixpoint InitLedger_loop (n : nat) (i : Z) : Tx unit :=
  match n with
  | O => mret tt
  | S n' =>
      let tid := token_key i in
      let token := Token.mk tid "" true 0 None in
      PutState tid (Marshal_Token token) ;;
      InitLedger_loop n' (i + 1)
  end.

Definition InitLedger : Tx unit := InitLedger_loop (Z.to_nat maxTokens) 1.

Definition ParticipantExists (networkAddress : string) : Tx bool :=
  b ← GetState networkAddress;
  mret (match b with Some _ => true | None => false end).

Definition SubmitRegistration (ctx : Caller) (name passwordHash country : string)
  : Tx string :=
  let netAddr := address_of_name name in
  exists_ ← ParticipantExists netAddr;
  if exists_ : bool then fail (Errorf "participant already exists") else
  let clientID := GetID ctx in
  let p := Participant.mk name netAddr clientID false passwordHash country "" None in
  PutState netAddr (Marshal_Participant p) ;;
  mret netAddr.

Definition VerifyAdmin (ctx : Caller) : Tx unit :=
  if negb (String.eqb (GetMSPID ctx) "Org1MSP")
  then fail (Errorf "access denied: admin only")
  else mret tt.

Definition RequestTokenRequest (name networkAddress passwordHash country : string)
  : Tx unit :=
  b ← GetState networkAddress;
  match b with
  | None => fail (Errorf "participant not found")
  | Some b =>
      p ← unmarshal (Unmarshal_Participant b);
      if negb (String.eqb (Participant.Name p) name)
         || negb (String.eqb (Participant.PasswordHash p) passwordHash)
         || negb (String.eqb (Participant.Country p) country)
      then fail (Errorf "participant details do not match") else
      let reqID := "tokenrequest_" +:+ networkAddress in
      let req := TokenRequest.mk reqID networkAddress "PENDING" "" in
      PutState reqID (Marshal_TokenRequest req)
  end.

Fixpoint findAvailableToken_loop (n : nat) (i : Z) : Tx string :=
  match n with
  | O => mret ""
  | S n' =>
      let tid := token_key i in
      b ← GetState tid;
      match b with
      | None => findAvailableToken_loop n' (i + 1)
      | Some b =>
          t ← unmarshal (Unmarshal_Token b);
          if Token.Available t then mret tid
          else findAvailableToken_loop n' (i + 1)
      end
  end.

Definition findAvailableToken : Tx string :=
  findAvailableToken_loop (Z.to_nat maxTokens) 1.

Definition ApproveTokenRequest (ctx : Caller) (networkAddress : string) : Tx unit :=
  VerifyAdmin ctx ;;
  let reqID := "tokenrequest_" +:+ networkAddress in
  rb ← GetState reqID;
  match rb with
  | None => fail (Errorf "token request not found")
  | Some rb =>
      let r := fst (Unmarshal_TokenRequest rb) in
      if negb (String.eqb (TokenRequest.Status r) "PENDING")
      then fail (Errorf "request already processed") else
      tokenID ← findAvailableToken;
      if String.eqb tokenID "" then fail (Errorf "no tokens available") else
      let r := TokenRequest.mk (TokenRequest.RequestID r) (TokenRequest.NetworkAddr r)
                               "APPROVED" tokenID in
      PutState reqID (Marshal_TokenRequest r) ;;
      pb ← GetState networkAddress;
      match pb with
      | None => fail (Errorf "participant not found")
      | Some pb =>
          let p := fst (Unmarshal_Participant pb) in
          let p := Participant.mk (Participant.Name p) (Participant.NetworkAddress p)
                     (Participant.ClientID p) true (Participant.PasswordHash p)
                     (Participant.Country p) tokenID (Participant.TransferIDs p) in
          PutState networkAddress (Marshal_Participant p) ;;
          tb ← GetState tokenID;
          match tb with
          | None => fail (Errorf "token not found")
          | Some tb =>
              let t := fst (Unmarshal_Token tb) in
              let t := Token.mk (Token.TokenID t) networkAddress false
                                (Token.Minted t) (Token.TransferIDs t) in
              PutState tokenID (Marshal_Token t)
          end
      end
  end.

Definition RequestMintCoins (ctx : Caller) (networkAddress passwordHash : string)
  (amount : Z) : Tx unit :=
  partBytes ← GetState networkAddress;
  match partBytes with
  | None => fail (Errorf "participant not found")
  | Some partBytes =>
      participant ← unmarshal (Unmarshal_Participant partBytes);
      if negb (String.eqb (Participant.PasswordHash participant) passwordHash)
      then fail (Errorf "invalid password") else
      let callerID := GetID ctx in
      if negb (String.eqb (Participant.ClientID participant) callerID)
      then fail (Errorf "unauthorized caller") else
      tokenBytes ← GetState (Participant.TokenID participant);
      match tokenBytes with
      | None => fail (Errorf "token not found")
      | Some tokenBytes =>
          token ← unmarshal (Unmarshal_Token tokenBytes);
          if negb (String.eqb (Token.Owner token) networkAddress)
          then fail (Errorf "caller is not token owner") else
          let reqKey := "mintrequest_" +:+ Participant.TokenID participant
                        +:+ "_" +:+ networkAddress in
          let mintReq := MintRequest.mk reqKey (Participant.TokenID participant)
                                        networkAddress amount false in
          PutState reqKey (Marshal_MintRequest mintReq)
      end
  end.

Definition ApproveMintRequest (ctx : Caller) (requestID : string) : Tx unit :=
  VerifyAdmin ctx ;;
  reqBytes ← GetState requestID;
  match reqBytes with
  | None => fail (Errorf "mint request not found")
  | Some reqBytes =>
      mr ← unmarshal (Unmarshal_MintRequest reqBytes);
      if MintRequest.Approved mr
      then fail (Errorf "mint request already approved") else
      let mr := MintRequest.mk (MintRequest.RequestID mr) (MintRequest.TokenID mr)
                  (MintRequest.RequestedBy mr) (MintRequest.Amount mr) true in
      PutState requestID (Marshal_MintRequest mr) ;;
      tokenBytes ← GetState (MintRequest.TokenID mr);
      match tokenBytes with
      | None => fail (Errorf "token not found")
      | Some tokenBytes =>
          token ← unmarshal (Unmarshal_Token tokenBytes);
          let token := Token.mk (Token.TokenID token) (Token.Owner token)
                         (Token.Available token)
                         (add_int (Token.Minted token) (MintRequest.Amount mr))
                         (Token.TransferIDs token) in
          PutState (MintRequest.TokenID mr) (Marshal_Token token)
      end
  end.

Definition RegisterCustomer (networkAddress name passwordHash tokenID : string)
  : Tx unit :=
  tokenBytes ← GetState tokenID;
  match tokenBytes with
  | None => fail (Errorf "token not found")
  | Some tokenBytes =>
      let '(token, err) := Unmarshal_Token tokenBytes in
      if match err with Some _ => true | None => false end
         || String.eqb (Token.Owner token) ""
      then fail (Errorf "invalid or unowned token") else
      let reqID := "custreq_" +:+ networkAddress +:+ "_" +:+ tokenID in
      existsBytes ← GetState reqID;
      match existsBytes with
      | Some _ => fail (Errorf "customer registration request already exists")
      | None =>
          let req := RegisterCustomerRequest.mk reqID networkAddress name
                       passwordHash tokenID false in
          PutState reqID (Marshal_RegisterCustomerRequest req)
      end
  end.

Definition ApproveCustomerRegistration (requestID ownerNetworkAddress : string)
  : Tx unit :=
  reqBytes ← GetState requestID;
  match reqBytes with
  | None => fail (Errorf "customer registration request not found")
  | Some reqBytes =>
      req ← unmarshal (Unmarshal_RegisterCustomerRequest reqBytes);
      tokenBytes ← GetState (RegisterCustomerRequest.TokenID req);
      match tokenBytes with
      | None => fail (Errorf "token not found")
      | Some tokenBytes =>
          token ← unmarshal (Unmarshal_Token tokenBytes);
          if negb (String.eqb (Token.Owner token) ownerNetworkAddress)
          then fail (Errorf "caller is not token owner") else
          if RegisterCustomerRequest.Approved req
          then fail (Errorf "already approved") else
          let req := RegisterCustomerRequest.mk
                       (RegisterCustomerRequest.RequestID req)
                       (RegisterCustomerRequest.NetworkAddress req)
                       (RegisterCustomerRequest.Name req)
                       (RegisterCustomerRequest.PasswordHash req)
                       (RegisterCustomerRequest.TokenID req) true in
          PutState requestID (Marshal_RegisterCustomerRequest req) ;;
          let customer := Customer.mk
                            (RegisterCustomerRequest.NetworkAddress req)
                            (RegisterCustomerRequest.Name req)
                            (RegisterCustomerRequest.PasswordHash req)
                            (RegisterCustomerRequest.TokenID req)
                            true 0 None None in
          let customerKey := "customer_" +:+ RegisterCustomerRequest.NetworkAddress req
                             +:+ "_" +:+ RegisterCustomerRequest.TokenID req in
          PutState customerKey (Marshal_Customer customer)
      end
  end.

Definition CustomerRequestMint (networkAddress tokenID : string) (amount : Z)
  : Tx unit :=
  let customerKey := "customer_" +:+ networkAddress +:+ "_" +:+ tokenID in
  customerBytes ← GetState customerKey;
  match customerBytes with
  | None => fail (Errorf "customer not registered or approved for token")
  | Some customerBytes =>
      customer ← unmarshal (Unmarshal_Customer customerBytes);
      let requestID := "custmintreq_" +:+ Customer.NetworkAddress customer
                       +:+ "_" +:+ tokenID in
      let mintReq := MintRequest.mk requestID tokenID
                       (Customer.NetworkAddress customer) amount false in
      PutState requestID (Marshal_MintRequest mintReq)
  end.

Definition ApproveCustomerMint (requestID ownerNetworkAddress : string) : Tx unit :=
  reqBytes ← GetState requestID;
  match reqBytes with
  | None => fail (Errorf "mint request not found")
  | Some reqBytes =>
      mintReq ← unmarshal (Unmarshal_MintRequest reqBytes);
      tokenBytes ← GetState (MintRequest.TokenID mintReq);
      match tokenBytes with
      | None => fail (Errorf "token not found")
      | Some tokenBytes =>
          token ← unmarshal (Unmarshal_Token tokenBytes);
          if negb (String.eqb (Token.Owner token) ownerNetworkAddress)
          then fail (Errorf "caller is not token owner") else
          if MintRequest.Approved mintReq
          then fail (Errorf "mint request already approved") else
          if Token.Minted token <? MintRequest.Amount mintReq
          then fail (Errorf ("insufficient minted coin balance on token: available "
                             +:+ Sprintf_d (Token.Minted token) +:+ ", requested "
                             +:+ Sprintf_d (MintRequest.Amount mintReq))) else
          let mintReq := MintRequest.mk (MintRequest.RequestID mintReq)
                           (MintRequest.TokenID mintReq)
                           (MintRequest.RequestedBy mintReq)
                           (MintRequest.Amount mintReq) true in
          PutState requestID (Marshal_MintRequest mintReq) ;;
          let token := Token.mk (Token.TokenID token) (Token.Owner token)
                         (Token.Available token)
                         (sub_int (Token.Minted token) (MintRequest.Amount mintReq))
                         (Token.TransferIDs token) in
          PutState (MintRequest.TokenID mintReq) (Marshal_Token token) ;;
          let customerKey := "customer_" +:+ MintRequest.RequestedBy mintReq
                             +:+ "_" +:+ MintRequest.TokenID mintReq in
          custBytes ← GetState customerKey;
          match custBytes with
          | None => fail (Errorf "customer not found")
          | Some custBytes =>
              cust ← unmarshal (Unmarshal_Customer custBytes);
              let cust := Customer.mk (Customer.NetworkAddress cust)
                            (Customer.Name cust) (Customer.PasswordHash cust)
                            (Customer.TokenID cust) (Customer.Approved cust)
                            (add_int (Customer.Balance cust) (MintRequest.Amount mintReq))
                            (Customer.TransferIDs cust)
                            (Customer.TokenTransferIDs cust) in
              PutState customerKey (Marshal_Customer cust)
          end
      end
  end.

(** *** The transfer protocol

    [strconv.ParseFloat(s, 64)] is taken as a parameter: [inr f] is the
    parsed number, [inl msg] the text of the error it returns.  The outcome of
    [uuid.NewRandom()] is an argument of [CreateTransferRequest], in the same
    form. *)

Section Transfers.

Variable ParseFloat : string -> string + float.

Definition CreateTransferRequest
  (senderParticipantID receiverParticipantID senderTokenTransferID
     receiverTokenTransferID tokenID amountStr : string)
  (NewRandom : string + string) : Tx string :=
  match ParseFloat amountStr with
  | inl err => fail (Errorf ("invalid amount: " +:+ err))
  | inr amount =>
      match NewRandom with
      | inl err => fail (Errorf ("failed to generate transfer request id: " +:+ err))
      | inr uuid =>
          let transferRequestID := "transfer_" +:+ uuid in
          let request := TransferRequest.mk transferRequestID tokenID amount
                           senderParticipantID receiverParticipantID
                           senderTokenTransferID receiverTokenTransferID
                           "PendingOwnerApproval" in
          match Marshal_TransferRequest request with
          | None => fail JSONError
          | Some requestBytes =>
              PutState transferRequestID requestBytes ;;
              mret transferRequestID
          end
      end
  end.

Definition ApproveTransferByOwner (transferRequestID approver : string) : Tx unit :=
  reqBytes ← GetState transferRequestID;
  match reqBytes with
  | None => fail (Errorf "transfer request not found")
  | Some reqBytes =>
      request ← unmarshal (Unmarshal_TransferRequest reqBytes);
      if negb (String.eqb (TransferRequest.Status request) "PendingOwnerApproval")
      then fail (Errorf "transfer request not pending owner approval") else
      if negb (String.eqb (TransferRequest.SenderTransferID request) approver)
      then fail (Errorf "approver is not the sender participant") else
      let request := TransferRequest.mk
                       (TransferRequest.TransferRequestID request)
                       (TransferRequest.TokenID request)
                       (TransferRequest.Amount request)
                       (TransferRequest.SenderTransferID request)
                       (TransferRequest.ReceiverTransferID request)
                       (TransferRequest.SenderTokenTransferID request)
                       (TransferRequest.ReceiverTokenTransferID request)
                       "PendingReceiverApproval" in
      PutState_nilable transferRequestID (Marshal_TransferRequest request)
  end.

(** [strconv.ParseFloat(string(b), 64)]: the text of a JSON object is no
    number. *)
Definition ParseFloat_bytes (b : bytes) : option float :=
  match b with
  | Text s => match ParseFloat s with inr f => Some f | inl _ => None end
  | Json _ => None
  end.

Definition with_Status (request : TransferRequest.t) (status : string)
  : TransferRequest.t :=
  TransferRequest.mk
    (TransferRequest.TransferRequestID request)
    (TransferRequest.TokenID request)
    (TransferRequest.Amount request)
    (TransferRequest.SenderTransferID request)
    (TransferRequest.ReceiverTransferID request)
    (TransferRequest.SenderTokenTransferID request)
    (TransferRequest.ReceiverTokenTransferID request)
    status.

Definition ApproveTransferByReceiver (transferRequestID approver : string)
  : Tx unit :=
  reqBytes ← GetState transferRequestID;
  match reqBytes with
  | None => fail (Errorf "transfer request not found")
  | Some reqBytes =>
      request ← unmarshal (Unmarshal_TransferRequest reqBytes);
      if negb (String.eqb (TransferRequest.Status request) "PendingReceiverApproval")
      then fail (Errorf "transfer request not pending receiver approval") else
      tokenBytes ← GetState (TransferRequest.TokenID request);
      match tokenBytes with
      | None => fail (Errorf "token not found")
      | Some tokenBytes =>
          token ← unmarshal (Unmarshal_Token tokenBytes);
          if negb (String.eqb (Token.Owner token) approver)
          then fail (Errorf "approver is not the token owner (receiver)") else
          senderBalBytes ← GetState (TransferRequest.SenderTransferID request);
          match senderBalBytes with
          | None => fail (Errorf "sender balance not found")
          | Some senderBalBytes =>
              match ParseFloat_bytes senderBalBytes with
              | None => fail (Errorf "invalid sender balance")
              | Some senderBalance =>
                  if PrimFloat.ltb senderBalance (TransferRequest.Amount request)
                  then
                    let request := with_Status request "Rejected" in
                    PutState_nilable transferRequestID
                                     (Marshal_TransferRequest request) ;;
                    fail (Errorf "insufficient funds for transfer")
                  else
                    let senderBalance :=
                      PrimFloat.sub senderBalance (TransferRequest.Amount request) in
                    PutState (TransferRequest.SenderTransferID request)
                             (Text (Sprintf_f senderBalance)) ;;
                    let token :=
                      Token.mk (Token.TokenID token) (Token.Owner token)
                        (Token.Available token)
                        (add_int (Token.Minted token)
                                 (int_of_float64 (TransferRequest.Amount request)))
                        (Token.TransferIDs token) in
                    PutState (TransferRequest.TokenID request) (Marshal_Token token) ;;
                    let request := with_Status request "Completed" in
                    PutState_nilable transferRequestID
                                     (Marshal_TransferRequest request)
              end
          end
      end
  end.

End Transfers.

(** *** Rich queries

    [GetQueryResult] is served by the state database, outside the contract:
    it hands back, in an order of its own, the JSON documents that satisfy the
    selector.  The selectors of the contract compare members with strings;
    [selector] is what its format strings denote when the argument holds no
    quote or backslash. *)

Inductive selector : Type :=
| SelEq (member value : string)
| SelAnd (s1 s2 : selector)
| SelOr (s1 s2 : selector).

Fixpoint selects (sel : selector) (o : object) : bool :=
  match sel with
  | SelEq member value =>
      match field member o with
      | Some (JString s) => String.eqb s value
      | _ => false
      end
  | SelAnd s1 s2 => selects s1 o && selects s2 o
  | SelOr s1 s2 => selects s1 o || selects s2 o
  end.

Definition selected (sel : selector) (b : bytes) : bool :=
  match b with
  | Json o => selects sel o
  | Text _ => false
  end.

Definition GetQueryResult (sel : selector) : Tx (list bytes) :=
  fun st => (Ok (List.filter (selected sel) (map snd (map_to_list st))), st).

(** [for it.HasNext() { ...; if json.Unmarshal(resp.Value, &x) == nil { append } }] *)
Definition decoded {A : Type} (Unmarshal : bytes -> A * option error)
  (values : list bytes) : list A :=
  flat_map (fun b => match Unmarshal b with
                     | (x, None) => [x]
                     | (_, Some _) => []
                     end) values.

Definition GetParticipantTransferHistory (participantTransferID : string)
  : Tx (list TransferRequest.t) :=
  values ← GetQueryResult (SelOr (SelEq "sender_transfer_id" participantTransferID)
                                 (SelEq "receiver_transfer_id" participantTransferID));
  mret (decoded Unmarshal_TransferRequest values).




(** ** Field updates used in the statements *)

Definition with_Minted (token : Token.t) (minted : Z) : Token.t :=
  Token.mk (Token.TokenID token) (Token.Owner token) (Token.Available token)
           minted (Token.TransferIDs token).

Definition with_Balance (cust : Customer.t) (balance : Z) : Customer.t :=
  Customer.mk (Customer.NetworkAddress cust) (Customer.Name cust)
              (Customer.PasswordHash cust) (Customer.TokenID cust)
              (Customer.Approved cust) balance (Customer.TransferIDs cust)
              (Customer.TokenTransferIDs cust).

Definition approved_MintRequest (m : MintRequest.t) : MintRequest.t :=
  MintRequest.mk (MintRequest.RequestID m) (MintRequest.TokenID m)
                 (MintRequest.RequestedBy m) (MintRequest.Amount m) true.

(** ** A reading of plain decimal literals

    The properties below hold for every [ParseFloat].  To run the contract on
    concrete ledgers, [ParseFloat_plain] reads the literals
    [[+-]digits[.digits]] of at most 15 significant digits, on which it agrees
    with [strconv.ParseFloat] (the quotient of two exactly represented
    integers, rounded once); it refuses every other string. *)

Definition digit_of_ascii (c : ascii) : option Z :=
  let n := Z.of_N (N_of_ascii c) in
  if (48 <=? n) && (n <=? 57) then Some (n - 48) else None.

Fixpoint read_digits (s : string) (acc : Z) (count : nat) : Z * nat * string :=
  match s with
  | String c s' =>
      match digit_of_ascii c with
      | Some d => read_digits s' (10 * acc + d) (S count)
      | None => (acc, count, s)
      end
  | EmptyString => (acc, count, s)
  end.

Definition quote : string := String (ascii_of_nat 34) EmptyString.

Definition syntax_error (s : string) : string :=
  "strconv.ParseFloat: parsing " +:+ quote +:+ s +:+ quote +:+ ": invalid syntax".

Definition ParseFloat_plain (s : string) : string + float :=
  let '(neg, body) :=
    match s with
    | String "-"%char s' => (true, s')
    | String "+"%char s' => (false, s')
    | _ => (false, s)
    end in
  let '(int_part, n1, rest) := read_digits body 0 O in
  let '(num, n2, rest') :=
    match rest with
    | String "."%char frac => read_digits frac int_part O
    | _ => (int_part, O, rest)
    end in
  match rest' with
  | EmptyString =>
      if (Nat.ltb O (n1 + n2)) && (num <? 10 ^ 15) && (Nat.leb n2 22) then
        let q := PrimFloat.div (float64_of_Z num) (float64_of_Z (10 ^ Z.of_nat n2)) in
        inr (if neg then PrimFloat.opp q else q)
      else inl (syntax_error s)
  | _ => inl (syntax_error s)
  end.

(** ** The contract as a whole

    An invocation names a transaction and its arguments; [amount] arguments
    reach the contract as [int]s.  The read-only views issue no [PutState]
    and are left out. *)

Inductive Invocation : Type :=
| Invoke_InitLedger
| Invoke_SubmitRegistration (name passwordHash country : string)
| Invoke_RequestTokenRequest (name networkAddress passwordHash country : string)
| Invoke_ApproveTokenRequest (networkAddress : string)
| Invoke_RequestMintCoins (networkAddress passwordHash : string) (amount : Z)
| Invoke_ApproveMintRequest (requestID : string)
| Invoke_RegisterCustomer (networkAddress name passwordHash tokenID : string)
| Invoke_ApproveCustomerRegistration (requestID ownerNetworkAddress : string)
| Invoke_CustomerRequestMint (networkAddress tokenID : string) (amount : Z)
| Invoke_ApproveCustomerMint (requestID ownerNetworkAddress : string)
| Invoke_CreateTransferRequest
    (senderParticipantID receiverParticipantID senderTokenTransferID
       receiverTokenTransferID tokenID amountStr : string)
    (NewRandom : string + string)
| Invoke_ApproveTransferByOwner (transferRequestID approver : string)
| Invoke_ApproveTransferByReceiver (transferRequestID approver : string).

Definition invoke (ParseFloat : string -> string + float) (ctx : Caller)
  (c : Invocation) : Tx unit :=
  match c with
  | Invoke_InitLedger => InitLedger
  | Invoke_SubmitRegistration name passwordHash country =>
      SubmitRegistration ctx name passwordHash country ;; mret tt
  | Invoke_RequestTokenRequest name networkAddress passwordHash country =>
      RequestTokenRequest name networkAddress passwordHash country
  | Invoke_ApproveTokenRequest networkAddress =>
      ApproveTokenRequest ctx networkAddress
  | Invoke_RequestMintCoins networkAddress passwordHash amount =>
      RequestMintCoins ctx networkAddress passwordHash amount
  | Invoke_ApproveMintRequest requestID => ApproveMintRequest ctx requestID
  | Invoke_RegisterCustomer networkAddress name passwordHash tokenID =>
      RegisterCustomer networkAddress name passwordHash tokenID
  | Invoke_ApproveCustomerRegistration requestID ownerNetworkAddress =>
      ApproveCustomerRegistration requestID ownerNetworkAddress
  | Invoke_CustomerRequestMint networkAddress tokenID amount =>
      CustomerRequestMint networkAddress tokenID amount
  | Invoke_ApproveCustomerMint requestID ownerNetworkAddress =>
      ApproveCustomerMint requestID ownerNetworkAddress
  | Invoke_CreateTransferRequest sender receiver senderToken receiverToken
                                 tokenID amountStr NewRandom =>
      CreateTransferRequest ParseFloat sender receiver senderToken receiverToken
                            tokenID amountStr NewRandom ;; mret tt
  | Invoke_ApproveTransferByOwner transferRequestID approver =>
      ApproveTransferByOwner transferRequestID approver
  | Invoke_ApproveTransferByReceiver transferRequestID approver =>
      ApproveTransferByReceiver ParseFloat transferRequestID approver
  end.

(** The [int] arguments are in range. *)
Definition int_args (c : Invocation) : Prop :=
  match c with
  | Invoke_RequestMintCoins _ _ amount => is_int amount
  | Invoke_CustomerRequestMint _ _ amount => is_int amount
  | _ => True
  end.

(** A sequence of invocations, each with its caller, run in order. *)
Fixpoint run_trace (ParseFloat : string -> string + float)
  (tr : list (Caller * Invocation)) (st : gmap string bytes) : gmap string bytes :=
  match tr with
  | [] => st
  | (ctx, c) :: tr' => run_trace ParseFloat tr' (run (invoke ParseFloat ctx c) st)
  end.

(** A ledger before initialization holds at most balance records, which are
    seeded from outside the contract. *)
Definition balances_only (seed : gmap string bytes) : Prop :=
  seed !! "" = None /\ forall k b, seed !! k = Some b -> exists s, b = Text s.

(** The states reachable from an initialized ledger by the invocations that
    [allowed] admits. *)
Inductive reachable_by (ParseFloat : string -> string + float)
  (allowed : Invocation -> Prop) : gmap string bytes -> Prop :=
| reachable_init seed :
    balances_only seed -> reachable_by ParseFloat allowed (run InitLedger seed)
| reachable_invoke st ctx c :
    reachable_by ParseFloat allowed st ->
    int_args c -> allowed c ->
    reachable_by ParseFloat allowed (run (invoke ParseFloat ctx c) st).

Definition reachable (ParseFloat : string -> string + float)
  : gmap string bytes -> Prop :=
  reachable_by ParseFloat (fun _ => True).

(** The failures that follow a [PutState] of the same transaction. *)
Definition late_failure (c : Invocation) (e : error) : Prop :=
  match c with
  | Invoke_ApproveTokenRequest _ =>
      e = Errorf "participant not found" \/ e = Errorf "token not found"
  | Invoke_ApproveMintRequest _ =>
      e = Errorf "token not found" \/ e = JSONError
  | Invoke_ApproveCustomerMint _ _ =>
      e = Errorf "customer not found" \/ e = JSONError
  | Invoke_ApproveTransferByReceiver _ _ =>
      e = Errorf "insufficient funds for transfer"
  | _ => False
  end.

(** ** A scenario

    The scenario of the specification, run on the embedding: a seeded balance
    record, a pool of 25 tokens, Alice registered and given the first token,
    then a mint and a transfer. *)

Definition admin : Caller := {| GetID := "admin"; GetMSPID := "Org1MSP" |}.
Definition alice_client : Caller := {| GetID := "alice"; GetMSPID := "Org2MSP" |}.
Definition bob_client : Caller := {| GetID := "bob"; GetMSPID := "Org2MSP" |}.

Definition alice : string := Eval vm_compute in address_of_name "Alice".
Definition bob : string := Eval vm_compute in address_of_name "Bob".

Definition seeded : gmap string bytes := {[ "acct_carol" := Text "200.000000" ]}.

Definition allocation : list (Caller * Invocation) :=
  [ (admin, Invoke_InitLedger);
    (alice_client, Invoke_SubmitRegistration "Alice" "pw" "IN");
    (alice_client, Invoke_RequestTokenRequest "Alice" alice "pw" "IN");
    (admin, Invoke_ApproveTokenRequest alice) ].

Definition minting : list (Caller * Invocation) :=
  [ (alice_client, Invoke_RequestMintCoins alice "pw" 100);
    (admin, Invoke_ApproveMintRequest ("mintrequest_token_1_" +:+ alice)) ].

Definition transfer (amount : string) : list (Caller * Invocation) :=
  [ (bob_client, Invoke_CreateTransferRequest "acct_carol" alice "" "" "token_1"
                   amount (inr "0001"));
    (bob_client, Invoke_ApproveTransferByOwner "transfer_0001" "acct_carol") ].

(** The ledger once the sender has approved a transfer of [amount]. *)
Definition ledger_with_transfer (amount : string) : gmap string bytes :=
  run_trace ParseFloat_plain (allocation ++ minting ++ transfer amount) seeded.

Definition transfer_of (amount : float) : TransferRequest.t :=
  TransferRequest.mk "transfer_0001" "token_1" amount "acct_carol" alice "" ""
                     "PendingReceiverApproval".

Definition token_of_alice (minted : Z) : Token.t :=
  Token.mk "token_1" alice false minted None.

(** The ledger when Alice, after a first mint of 100, has asked for 50 more. *)
Definition ledger_with_second_mint : gmap string bytes :=
  run_trace ParseFloat_plain
    (allocation ++ minting ++ [(alice_client, Invoke_RequestMintCoins alice "pw" 50)])
    seeded.

(** ** The token pool *)

Definition is_token_key (k : string) : Prop :=
  exists i, 1 <= i <= maxTokens /\ k = token_key i.

(** The record [InitLedger] writes under [tid]. *)
Definition fresh_token (tid : string) : Token.t := Token.mk tid "" true 0 None.

(** The index of a token key, read back from its decimal digits. *)
Definition token_index (k : string) : option Z :=
  List.find (fun i => String.eqb (token_key i) k) (seqZ 1 maxTokens).

(** [token_j] is passed over by the scan: its key is absent or holds a token
    that is not available. *)
Definition unavailable (st : gmap string bytes) (j : Z) : Prop :=
  st !! token_key j = None \/
  exists t, st !! token_key j = Some (Marshal_Token t) /\
            is_int (Token.Minted t) /\ Token.Available t = false.

(** The three records [ApproveTokenRequest] writes. *)
Definition approved_TokenRequest (r : TokenRequest.t) (tokenID : string)
  : TokenRequest.t :=
  TokenRequest.mk (TokenRequest.RequestID r) (TokenRequest.NetworkAddr r)
                  "APPROVED" tokenID.

Definition approved_Participant (p : Participant.t) (tokenID : string)
  : Participant.t :=
  Participant.mk (Participant.Name p) (Participant.NetworkAddress p)
                 (Participant.ClientID p) true (Participant.PasswordHash p)
                 (Participant.Country p) tokenID (Participant.TransferIDs p).

Definition owned_Token (t : Token.t) (networkAddress : string) : Token.t :=
  Token.mk (Token.TokenID t) networkAddress false (Token.Minted t)
           (Token.TransferIDs t).

(** The ledger when Alice holds [token_1] and Bob has asked for a token. *)
Definition ledger_with_request_of_bob : gmap string bytes :=
  run_trace ParseFloat_plain
    (allocation ++
     [ (bob_client, Invoke_SubmitRegistration "Bob" "pw2" "FR");
       (bob_client, Invoke_RequestTokenRequest "Bob" bob "pw2" "FR") ])
    seeded.

(** The ledger when the customer Dave, registered under [token_1], has asked
    for [amount] coins of its pool of 100. *)
Definition ledger_with_customer_request (amount : Z) : gmap string bytes :=
  run_trace ParseFloat_plain
    (allocation ++ minting ++
     [ (bob_client, Invoke_RegisterCustomer "dave" "Dave" "pwd" "token_1");
       (alice_client, Invoke_ApproveCustomerRegistration "custreq_dave_token_1" alice);
       (bob_client, Invoke_CustomerRequestMint "dave" "token_1" amount) ])
    seeded.

Definition customer_dave (balance : Z) : Customer.t :=
  Customer.mk "dave" "Dave" "pwd" "token_1" true balance None None.

Definition request_of_dave (amount : Z) (approved : bool) : MintRequest.t :=
  MintRequest.mk "custmintreq_dave_token_1" "token_1" "dave" amount approved.

(** ** The contract with a pincode

    The other version of the contract in the repository: its
    [RequestTokenRequest] takes a [pincode] and stores it in the request. *)

Module Pincode.

Module Participant.
Record t : Type := mk {
  Name : string;
  NetworkAddress : string;
  ClientID : string;
  Approved : bool;
  PasswordHash : string;
  Country : string;
  TokenID : string;
}.
End Participant.

Module TokenRequest.
Record t : Type := mk {
  RequestID : string;
  NetworkAddr : string;
  Status : string;
  TokenID : string;
  Pincode : string;
}.
End TokenRequest.

Definition Marshal_Participant (p : Participant.t) : bytes :=
  Json [ ("name", JString (Participant.Name p));
         ("network_address", JString (Participant.NetworkAddress p));
         ("client_id", JString (Participant.ClientID p));
         ("approved", JBool (Participant.Approved p));
         ("password_hash", JString (Participant.PasswordHash p));
         ("country", JString (Participant.Country p));
         ("token_id", JString (Participant.TokenID p)) ].

Definition Unmarshal_Participant (b : bytes) : Participant.t * option error :=
  match b with
  | Text _ => (Participant.mk "" "" "" false "" "" "", Some JSONError)
  | Json o =>
      let name := dec_string (field "name" o) in
      let addr := dec_string (field "network_address" o) in
      let cid := dec_string (field "client_id" o) in
      let appr := dec_bool (field "approved" o) in
      let pw := dec_string (field "password_hash" o) in
      let country := dec_string (field "country" o) in
      let tid := dec_string (field "token_id" o) in
      (Participant.mk (fst name) (fst addr) (fst cid) (fst appr) (fst pw)
                      (fst country) (fst tid),
       json_error [snd name; snd addr; snd cid; snd appr; snd pw;
                   snd country; snd tid])
  end.

Definition Marshal_TokenRequest (r : TokenRequest.t) : bytes :=
  Json [ ("request_id", JString (TokenRequest.RequestID r));
         ("network_addr", JString (TokenRequest.NetworkAddr r));
         ("status", JString (TokenRequest.Status r));
         ("token_id", JString (TokenRequest.TokenID r));
         ("pincode", JString (TokenRequest.Pincode r)) ].

Definition SubmitRegistration (ctx : Caller) (name passwordHash country : string)
  : Tx string :=
  let netAddr := address_of_name name in
  exists_ ← ParticipantExists netAddr;
  if exists_ : bool then fail (Errorf "participant already exists") else
  let clientID := GetID ctx in
  let p := Participant.mk name netAddr clientID false passwordHash country "" in
  PutState netAddr (Marshal_Participant p) ;;
  mret netAddr.

(** [len(pincode)] counts the bytes of the string. *)
Definition RequestTokenRequest
  (name networkAddress passwordHash country pincode : string) : Tx unit :=
  b ← GetState networkAddress;
  match b with
  | None => fail (Errorf "participant not found")
  | Some b =>
      p ← unmarshal (Unmarshal_Participant b);
      if negb (String.eqb (Participant.Name p) name)
         || negb (String.eqb (Participant.PasswordHash p) passwordHash)
         || negb (String.eqb (Participant.Country p) country)
      then fail (Errorf "participant details do not match") else
      if negb (Nat.eqb (String.length pincode) 6)
      then fail (Errorf "invalid pincode: must be 6 digits") else
      let reqID := "tokenrequest_" +:+ networkAddress in
      let req := TokenRequest.mk reqID networkAddress "PENDING" "" pincode in
      PutState reqID (Marshal_TokenRequest req)
  end.

(** The ledger of the test [TestRequestTokenWithPincode]: Alice registered. *)
Definition ledger_with_alice : gmap string bytes :=
  run (SubmitRegistration alice_client "Alice" "pass123" "USA") ∅.

End Pincode.

(** A string of exactly six decimal digits. *)
Definition is_digit (c : ascii) : bool :=
  let n := N_of_ascii c in ((48 <=? n) && (n <=? 57))%N.

Definition six_digits (s : string) : bool :=
  Nat.eqb (String.length s) 6 && forallb is_digit (list_ascii_of_string s).

(** ** The ledgers of the contract *)





(** The ledger once the transfer of 80 is completed. *)
Definition ledger_completed : gmap string bytes :=
  run_trace ParseFloat_plain
    (allocation ++ minting ++ transfer "80" ++
     [ (alice_client, Invoke_ApproveTransferByReceiver "transfer_0001" alice) ])
    seeded.

(** The ledger once Alice holds [token_1] and her mint of 100 is approved. *)
Definition ledger_minted : gmap string bytes :=
  run_trace ParseFloat_plain (allocation ++ minting) seeded.

(** ** The pool and its participants *)

(** What the key of [token_i] reads as. *)
Definition token_at (st : gmap string bytes) (i : Z) : Token.t :=
  match st !! token_key i with
  | Some b => fst (Unmarshal_Token b)
  | None => Token.zero
  end.

Definition is_available (st : gmap string bytes) (i : Z) : bool :=
  Token.Available (token_at st i).

Definition is_owned (st : gmap string bytes) (i : Z) : bool :=
  negb (String.eqb (Token.Owner (token_at st i)) "").

Definition count_available (st : gmap string bytes) : nat :=
  length (List.filter (is_available st) (seqZ 1 maxTokens)).

Definition count_owned (st : gmap string bytes) : nat :=
  length (List.filter (is_owned st) (seqZ 1 maxTokens)).

(** [a] owns [token_i]. *)
Definition owns (st : gmap string bytes) (a : string) (i : Z) : Prop :=
  a <> "" /\ Token.Owner (token_at st i) = a.

(** The participant stored under [a] is assigned the token id [tid]. *)
Definition assigned (st : gmap string bytes) (a tid : string) : Prop :=
  tid <> "" /\
  exists p, st !! a = Some (Marshal_Participant p) /\ Participant.TokenID p = tid.

(** The invariants of the pool, as the specification states them. *)
Definition pool_invariant (st : gmap string bytes) : Prop :=
  (count_available st + count_owned st = 25)%nat /\
  (forall i a1 a2, 1 <= i <= 25 -> owns st a1 i -> owns st a2 i -> a1 = a2) /\
  (forall a1 a2 tid, assigned st a1 tid -> assigned st a2 tid -> a1 = a2).

(** The invocations that leave the records of the pool to the allocation:
    no second [InitLedger], and no key of the pool passed as the address of
    [ApproveTokenRequest] or as the request id of [ApproveMintRequest] or
    [ApproveCustomerRegistration] (each of which writes the record it
    decoded back under that key). *)
Definition pool_safe (c : Invocation) : Prop :=
  match c with
  | Invoke_InitLedger => False
  | Invoke_ApproveTokenRequest networkAddress => ~ is_token_key networkAddress
  | Invoke_ApproveMintRequest requestID => ~ is_token_key requestID
  | Invoke_ApproveCustomerRegistration requestID _ => ~ is_token_key requestID
  | _ => True
  end.

(** The invariant the allocation maintains: no record under the empty key;
    each key of the pool holds its token, available exactly when it has no
    owner; the token of a participant is a token of the pool, owned by that
    participant. *)
Definition token_record (st : gmap string bytes) (i : Z) (t : Token.t) : Prop :=
  st !! token_key i = Some (Marshal_Token t) /\
  is_int (Token.Minted t) /\
  Token.TokenID t = token_key i /\
  Token.Available t = String.eqb (Token.Owner t) "".

Definition pool_records (st : gmap string bytes) : Prop :=
  forall i, 1 <= i <= maxTokens -> exists t, token_record st i t.

Definition participants_own (st : gmap string bytes) : Prop :=
  forall a p,
    st !! a = Some (Marshal_Participant p) ->
    Participant.TokenID p <> "" ->
    exists i t, 1 <= i <= maxTokens /\ Participant.TokenID p = token_key i /\
                st !! token_key i = Some (Marshal_Token t) /\ Token.Owner t = a.

Definition allocation_invariant (st : gmap string bytes) : Prop :=
  st !! "" = None /\ pool_records st /\ participants_own st.

(** A record that is not a participant. *)
Definition no_participant (b : bytes) : Prop :=
  forall p, b <> Marshal_Participant p.


(** The ledger when, Alice holding [token_1], the pool is initialized again
    and Bob is given a token. *)
Definition ledger_reinitialized : gmap string bytes :=
  run_trace ParseFloat_plain
    (allocation ++
     [ (admin, Invoke_InitLedger);
       (bob_client, Invoke_SubmitRegistration "Bob" "pw2" "FR");
       (bob_client, Invoke_RequestTokenRequest "Bob" bob "pw2" "FR");
       (admin, Invoke_ApproveTokenRequest bob) ])
    seeded.

(** The ledger when the key of [token_1] is approved as a registration
    request of a customer. *)
Definition ledger_with_token_as_request : gmap string bytes :=
  run_trace ParseFloat_plain
    [ (admin, Invoke_InitLedger);
      (alice_client, Invoke_ApproveCustomerRegistration "token_1" "") ]
    seeded.

(** The ledger when the key of [token_2] is given a token as a participant. *)
Definition ledger_with_token_as_participant : gmap string bytes :=
  run_trace ParseFloat_plain
    [ (admin, Invoke_InitLedger);
      (alice_client, Invoke_RequestTokenRequest "" "token_2" "" "");
      (admin, Invoke_ApproveTokenRequest "token_2") ]
    seeded.


(** ** The queries of the contract

    The transactions below read the ledger and write nothing. *)

(** *** Range scans

    [GetStateByRange("", "")], the one range the contract asks for, is
    served by the state database: an iterator over every key with its
    value, in the lexical order of the keys. *)

Definition key_le (kv1 kv2 : string * bytes) : Prop :=
  String.le (fst kv1) (fst kv2).

Global Instance key_le_dec : RelDecision key_le :=
  fun kv1 kv2 => String.le_dec (fst kv1) (fst kv2).

Definition GetStateByRange : Tx (list (string * bytes)) :=
  fun st => (Ok (merge_sort key_le (map_to_list st)), st).

(** The loop of the listings:
    [for iter.HasNext() { kv := iter.Next();
       if strings.HasPrefix(kv.Key, p) { var x T;
         if json.Unmarshal(kv.Value, &x) == nil && keep(x) { list = append(list, x) } } }] *)
Definition listing {A : Type} (p : string) (Unmarshal : bytes -> A * option error)
  (keep : A -> bool) (kvs : list (string * bytes)) : list A :=
  flat_map (fun kv =>
              if String.prefix p (fst kv) then
                match Unmarshal (snd kv) with
                | (x, None) => if keep x then [x] else []
                | (_, Some _) => []
                end
              else []) kvs.

Definition GetPendingTokenRequests (ctx : Caller) : Tx (list TokenRequest.t) :=
  VerifyAdmin ctx ;;
  kvs ← GetStateByRange;
  mret (listing "tokenrequest_" Unmarshal_TokenRequest
                (fun r => String.eqb (TokenRequest.Status r) "PENDING") kvs).

Definition GetTokenAccess (networkAddress passwordHash : string) : Tx string :=
  pb ← GetState networkAddress;
  match pb with
  | None => fail (Errorf "participant not found")
  | Some pb =>
      let p := fst (Unmarshal_Participant pb) in
      if negb (String.eqb (Participant.PasswordHash p) passwordHash)
      then fail (Errorf "password mismatch") else
      if String.eqb (Participant.TokenID p) ""
      then fail (Errorf "token not assigned") else
      mret (Participant.TokenID p)
  end.

Definition GetPendingMintRequests (ctx : Caller) : Tx (list MintRequest.t) :=
  VerifyAdmin ctx ;;
  kvs ← GetStateByRange;
  mret (listing "mintrequest_" Unmarshal_MintRequest
                (fun r => negb (MintRequest.Approved r)) kvs).

(** The [map[string]interface{}] that [GetWalletInfo] returns. *)
Module WalletInfo.
Record t : Type := mk {
  networkAddress : string;
  tokenID : string;
  mintedCoins : Z;
  tokenTransferIDs : option (list string);
}.
End WalletInfo.

Definition GetWalletInfo (ctx : Caller) (networkAddress passwordHash : string)
  : Tx WalletInfo.t :=
  pb ← GetState networkAddress;
  match pb with
  | None => fail (Errorf "participant not found")
  | Some pb =>
      let p := fst (Unmarshal_Participant pb) in
      if negb (String.eqb (Participant.PasswordHash p) passwordHash)
      then fail (Errorf "incorrect password") else
      let callerID := GetID ctx in
      if negb (String.eqb (Participant.ClientID p) callerID)
      then fail (Errorf "unauthorized caller") else
      tb ← GetState (Participant.TokenID p);
      match tb with
      | None => fail (Errorf "token not found")
      | Some tb =>
          let t := fst (Unmarshal_Token tb) in
          mret (WalletInfo.mk (Participant.NetworkAddress p) (Token.TokenID t)
                              (Token.Minted t) (Token.TransferIDs t))
      end
  end.

Definition ViewAllTokens : Tx (list Token.t) :=
  kvs ← GetStateByRange;
  mret (listing "token_" Unmarshal_Token (fun _ => true) kvs).

Definition ViewPendingCustomerRegistrations (tokenID ownerNetworkAddress : string)
  : Tx (list RegisterCustomerRequest.t) :=
  tokenBytes ← GetState tokenID;
  match tokenBytes with
  | None => fail (Errorf "token not found")
  | Some tokenBytes =>
      token ← unmarshal (Unmarshal_Token tokenBytes);
      if negb (String.eqb (Token.Owner token) ownerNetworkAddress)
      then fail (Errorf "caller is not token owner") else
      kvs ← GetStateByRange;
      mret (listing "custreq_" Unmarshal_RegisterCustomerRequest
                    (fun req => String.eqb (RegisterCustomerRequest.TokenID req) tokenID
                                && negb (RegisterCustomerRequest.Approved req)) kvs)
  end.

Definition ViewPendingCustomerMintRequests (tokenID ownerNetworkAddress : string)
  : Tx (list MintRequest.t) :=
  tokenBytes ← GetState tokenID;
  match tokenBytes with
  | None => fail (Errorf "token not found")
  | Some tokenBytes =>
      token ← unmarshal (Unmarshal_Token tokenBytes);
      if negb (String.eqb (Token.Owner token) ownerNetworkAddress)
      then fail (Errorf "caller is not token owner") else
      kvs ← GetStateByRange;
      mret (listing "custmintreq_" Unmarshal_MintRequest
                    (fun r => String.eqb (MintRequest.TokenID r) tokenID
                              && negb (MintRequest.Approved r)) kvs)
  end.

(** The [map[string]interface{}] that [ViewCustomerWallet] returns. *)
Module CustomerWallet.
Record t : Type := mk {
  networkAddress : string;
  tokenID : string;
  balance : Z;
  approved : bool;
  participantTransferIDs : option (list string);
  tokenTransferIDs : option (list string);
}.
End CustomerWallet.

Definition ViewCustomerWallet (networkAddress tokenID passwordHash : string)
  : Tx CustomerWallet.t :=
  let customerKey := "customer_" +:+ networkAddress +:+ "_" +:+ tokenID in
  custBytes ← GetState customerKey;
  match custBytes with
  | None => fail (Errorf "customer not found")
  | Some custBytes =>
      cust ← unmarshal (Unmarshal_Customer custBytes);
      if negb (String.eqb (Customer.PasswordHash cust) passwordHash)
      then fail (Errorf "invalid password") else
      mret (CustomerWallet.mk (Customer.NetworkAddress cust) (Customer.TokenID cust)
                              (Customer.Balance cust) (Customer.Approved cust)
                              (Customer.TransferIDs cust) (Customer.TransferIDs cust))
  end.

(** [for it.HasNext() { ...; var tr TransferRequest;
      json.Unmarshal(response.Value, &tr); requests = append(requests, tr) }]:
    the error of the decoding is dropped. *)
Definition ViewTransferRequestsForOwner (ownerID : string)
  : Tx (list TransferRequest.t) :=
  values ← GetQueryResult (SelAnd (SelEq "sender_transfer_id" ownerID)
                                  (SelEq "status" "PendingOwnerApproval"));
  mret (map (fun b => fst (Unmarshal_TransferRequest b)) values).

Definition ViewTransferRequestsForReceiver (receiverID : string)
  : Tx (list TransferRequest.t) :=
  values ← GetQueryResult (SelAnd (SelEq "receiver_transfer_id" receiverID)
                                  (SelEq "status" "PendingReceiverApproval"));
  mret (map (fun b => fst (Unmarshal_TransferRequest b)) values).

Definition GetTokenTransferHistory (tokenID : string) : Tx (list TransferRequest.t) :=
  values ← GetQueryResult (SelEq "token_id" tokenID);
  mret (decoded Unmarshal_TransferRequest values).

Definition GetParticipantTransferHistorybyowner (participantTransferID : string)
  : Tx (list TransferRequest.t) :=
  values ← GetQueryResult (SelOr (SelEq "sender_transfer_id" participantTransferID)
                                 (SelEq "receiver_transfer_id" participantTransferID));
  mret (decoded Unmarshal_TransferRequest values).

(** ** The shape of a network address *)

Definition is_hex_digit (c : ascii) : bool :=
  existsb (Ascii.eqb c) (list_ascii_of_string "0123456789abcdef").

Definition lowercase_hex (s : string) : bool :=
  forallb is_hex_digit (list_ascii_of_string s).

(** The prefixes of the keys under which the contract stores its requests,
    customers and transfers. *)
Definition record_prefixes : list string :=
  [ "token_"; "tokenrequest_"; "mintrequest_"; "custreq_"; "custmintreq_";
    "customer_"; "transfer_" ].

(** The entries of a scan that a listing keeps. *)
Definition listed {A : Type} (p : string) (Unmarshal : bytes -> A * option error)
  (keep : A -> bool) (kv : string * bytes) : bool :=
  String.prefix p (fst kv) &&
  match Unmarshal (snd kv) with
  | (x, None) => keep x
  | (_, Some _) => false
  end.

(** The indices of the 25 tokens in the lexical order of their keys:
    [token_1], [token_10], ..., [token_19], [token_2], [token_20], ... *)
Definition lexical_order : list Z :=
  [1; 10; 11; 12; 13; 14; 15; 16; 17; 18; 19; 2; 20; 21; 22; 23; 24; 25;
   3; 4; 5; 6; 7; 8; 9].

(** ** The helper of the tests

    [chaincode_test_helper.go] drives the contract with a pincode on the
    mock stub, and reads the records back from it. *)

(** [mockClientIdentity] and [mockNonAdminIdentity]. *)
Definition mockClientIdentity : Caller :=
  {| GetID := "test-client-id"; GetMSPID := "Org1MSP" |}.
Definition mockNonAdminIdentity : Caller :=
  {| GetID := "test-client-id"; GetMSPID := "Org2MSP" |}.

Module TestHelper.

(** [json.Unmarshal] into the [TokenRequest] of the contract with a pincode. *)
Definition Unmarshal_TokenRequest (b : bytes) : Pincode.TokenRequest.t * option error :=
  match b with
  | Text _ => (Pincode.TokenRequest.mk "" "" "" "" "", Some JSONError)
  | Json o =>
      let rid := dec_string (field "request_id" o) in
      let addr := dec_string (field "network_addr" o) in
      let status := dec_string (field "status" o) in
      let tid := dec_string (field "token_id" o) in
      let pin := dec_string (field "pincode" o) in
      (Pincode.TokenRequest.mk (fst rid) (fst addr) (fst status) (fst tid) (fst pin),
       json_error [snd rid; snd addr; snd status; snd tid; snd pin])
  end.

Definition CreateParticipant (ctx : Caller) (name password country : string)
  : Tx string :=
  Pincode.SubmitRegistration ctx name password country.

Definition GetParticipant (networkAddress : string) : Tx Pincode.Participant.t :=
  data ← GetState networkAddress;
  match data with
  | None => fail (Errorf "participant not found")
  | Some data => unmarshal (Pincode.Unmarshal_Participant data)
  end.

Definition GetTokenRequest (networkAddress : string) : Tx Pincode.TokenRequest.t :=
  let reqID := "tokenrequest_" +:+ networkAddress in
  data ← GetState reqID;
  match data with
  | None => fail (Errorf "token request not found")
  | Some data => unmarshal (Unmarshal_TokenRequest data)
  end.

End TestHelper.

(** ** Records read as records of another kind *)

(** [json.Unmarshal] returns no error on [b] for the five structs without an
    amount. *)
Definition decodes_as_any (b : bytes) : Prop :=
  snd (Unmarshal_Participant b) = None /\
  snd (Unmarshal_Token b) = None /\
  snd (Unmarshal_TokenRequest b) = None /\
  snd (Unmarshal_Customer b) = None /\
  snd (Unmarshal_RegisterCustomerRequest b) = None.

(** ** The owners of the tokens *)

(** [st'] keeps the owners of [st]: a token of the pool that has an owner in
    [st] is a token with that owner in [st']. *)
Definition keeps_owners (st st' : gmap string bytes) : Prop :=
  forall i t,
    1 <= i <= maxTokens ->
    st !! token_key i = Some (Marshal_Token t) ->
    Token.Owner t <> "" ->
    exists t', st' !! token_key i = Some (Marshal_Token t') /\
               Token.Owner t' = Token.Owner t /\
               Token.Available t' = false.

(** A state that a pool-safe run has led to from [st0]. *)
Definition pool_step (st0 st : gmap string bytes) : Prop :=
  allocation_invariant st /\ keeps_owners st0 st.

(** The invocations of a trace keep to the pool. *)
Definition pool_safe_trace (tr : list (Caller * Invocation)) : Prop :=
  Forall (fun cc => pool_safe (snd cc)) tr.

(** ** The integer part of a [float64] *)

(** The value of a finite [float64] with its fraction cut off (toward
    zero), as an integer without bound. *)
Definition truncate (f : float) : option Z :=
  match Prim2SF f with
  | S754_zero _ => Some 0
  | S754_finite s m e =>
      let mag := if 0 <=? e then Z.shiftl (Zpos m) e else Z.shiftr (Zpos m) (- e) in
      Some (if s then - mag else mag)
  | S754_infinity _ | S754_nan => None
  end.

(** ** The writes of a failed call

    A transaction reports a failure by the error it returns and never undoes
    a [PutState] it has made: the state a [Tx] returns with an error holds
    every write made before it.  What becomes of these writes is the host's
    choice, made for all failures alike: the stub of the repository's tests
    keeps each write as it is made ([PutState] assigns to the map), a host
    that applies the writes of a call when the call returns [nil] drops them
    all.  [committed keep tx st] is the ledger after [tx] under either
    choice. *)
Definition committed {A : Type} (keep_failed_writes : bool) (tx : Tx A)
  (st : gmap string bytes) : gmap string bytes :=
  match tx st with
  | (Ok _, st') => st'
  | (Err _, st') => if keep_failed_writes then st' else st
  end.

(** The ledger when Alice's token holds the largest [int] and the sender has
    approved a transfer of 1. *)
Definition ledger_with_full_pool : gmap string bytes :=
  run_trace ParseFloat_plain
    (allocation ++
     [ (alice_client, Invoke_RequestMintCoins alice "pw" max_int);
       (admin, Invoke_ApproveMintRequest ("mintrequest_token_1_" +:+ alice)) ] ++
     transfer "1")
    seeded.

(** The ledger when the customer Dave holds the largest [int] of coins of
    [token_1], whose pool holds 100 again, and has asked for one more. *)
Definition ledger_with_full_balance : gmap string bytes :=
  run_trace ParseFloat_plain
    (allocation ++
     [ (alice_client, Invoke_RequestMintCoins alice "pw" max_int);
       (admin, Invoke_ApproveMintRequest ("mintrequest_token_1_" +:+ alice));
       (bob_client, Invoke_RegisterCustomer "dave" "Dave" "pwd" "token_1");
       (alice_client, Invoke_ApproveCustomerRegistration "custreq_dave_token_1" alice);
       (bob_client, Invoke_CustomerRequestMint "dave" "token_1" max_int);
       (alice_client, Invoke_ApproveCustomerMint "custmintreq_dave_token_1" alice);
       (alice_client, Invoke_RequestMintCoins alice "pw" 100);
       (admin, Invoke_ApproveMintRequest ("mintrequest_token_1_" +:+ alice));
       (bob_client, Invoke_CustomerRequestMint "dave" "token_1" 1) ])
    seeded.

(** ** The strings [encoding/json] keeps

    [json.Marshal] writes a Go string as it is when the string is valid
    UTF-8; each byte that is not part of a valid encoding is written as
    U+FFFD, and [json.Unmarshal] reads a string literal the same way.  The
    documents of [Marshal_Participant] and the like are those of records
    whose strings are valid UTF-8, which every record decoded from the ledger
    is; a string that comes from a caller is stored as the caller gave it
    exactly when [valid_utf8] holds of it. *)

(** [utf8.ValidString]: the encodings of U+0000..U+10FFFF without the
    surrogates, each in its shortest form.  [more] bytes of the current
    encoding are still to come, the next of them within [lo..hi]. *)
Fixpoint valid_utf8_from (more : nat) (lo hi : N) (s : string) : bool :=
  match s with
  | EmptyString => match more with O => true | S _ => false end
  | String c s' =>
      let b := N_of_ascii c in
      match more with
      | S n => (lo <=? b)%N && (b <=? hi)%N && valid_utf8_from n 128 191 s'
      | O =>
          if (b <? 128)%N then valid_utf8_from 0 128 191 s'
          else if (194 <=? b)%N && (b <=? 223)%N then valid_utf8_from 1 128 191 s'
          else if (b =? 224)%N then valid_utf8_from 2 160 191 s'
          else if (b =? 237)%N then valid_utf8_from 2 128 159 s'
          else if (225 <=? b)%N && (b <=? 239)%N then valid_utf8_from 2 128 191 s'
          else if (b =? 240)%N then valid_utf8_from 3 144 191 s'
          else if (241 <=? b)%N && (b <=? 243)%N then valid_utf8_from 3 128 191 s'
          else if (b =? 244)%N then valid_utf8_from 3 128 143 s'
          else false
      end
  end.

Definition valid_utf8 (s : string) : bool := valid_utf8_from 0 128 191 s.

Definition valid_strings (l : list string) : bool := forallb valid_utf8 l.

Definition valid_ids (l : option (list string)) : bool :=
  match l with
  | Some l => valid_strings l
  | None => true
  end.

(** The strings of a record. *)
Definition valid_Participant (p : Participant.t) : bool :=
  valid_strings [ Participant.Name p; Participant.NetworkAddress p;
                  Participant.ClientID p; Participant.PasswordHash p;
                  Participant.Country p; Participant.TokenID p ]
  && valid_ids (Participant.TransferIDs p).

Definition valid_Token (t : Token.t) : bool :=
  valid_strings [ Token.TokenID t; Token.Owner t ] && valid_ids (Token.TransferIDs t).

Definition valid_TokenRequest (r : TokenRequest.t) : bool :=
  valid_strings [ TokenRequest.RequestID r; TokenRequest.NetworkAddr r;
                  TokenRequest.Status r; TokenRequest.TokenID r ].

Definition valid_MintRequest (m : MintRequest.t) : bool :=
  valid_strings [ MintRequest.RequestID m; MintRequest.TokenID m;
                  MintRequest.RequestedBy m ].

Definition valid_Customer (c : Customer.t) : bool :=
  valid_strings [ Customer.NetworkAddress c; Customer.Name c;
                  Customer.PasswordHash c; Customer.TokenID c ]
  && valid_ids (Customer.TransferIDs c) && valid_ids (Customer.TokenTransferIDs c).

Definition valid_RegisterCustomerRequest (q : RegisterCustomerRequest.t) : bool :=
  valid_strings [ RegisterCustomerRequest.RequestID q;
                  RegisterCustomerRequest.NetworkAddress q;
                  RegisterCustomerRequest.Name q;
                  RegisterCustomerRequest.PasswordHash q;
                  RegisterCustomerRequest.TokenID q ].

Definition valid_TransferRequest (x : TransferRequest.t) : bool :=
  valid_strings [ TransferRequest.TransferRequestID x; TransferRequest.TokenID x;
                  TransferRequest.SenderTransferID x;
                  TransferRequest.ReceiverTransferID x;
                  TransferRequest.SenderTokenTransferID x;
                  TransferRequest.ReceiverTokenTransferID x;
                  TransferRequest.Status x ].

(** ** The ids a query text holds as they are

    The rich queries are texts built by [fmt.Sprintf] with the id pasted
    between two quotes by [%s], without escaping.  The text denotes the
    selector on that id, which is what [ViewTransferRequestsForOwner],
    [ViewTransferRequestsForReceiver], [GetParticipantTransferHistory],
    [GetParticipantTransferHistorybyowner] and [GetTokenTransferHistory]
    pass to [GetQueryResult] above, when the id stands for itself between
    the quotes of a JSON text: valid UTF-8 with no quote, no backslash and no
    control character.  For another id the text is malformed or denotes
    another query, and nothing is stated. *)
Definition plain_byte (c : ascii) : bool :=
  let b := N_of_ascii c in
  (32 <=? b)%N && negb (b =? 34)%N && negb (b =? 92)%N.

Definition json_plain (s : string) : bool :=
  valid_utf8 s && forallb plain_byte (list_ascii_of_string s).

(** * Properties *)

(** ** Machine integers and addresses *)

Lemma is_intb_spec z : is_intb z = true <-> is_int z.
Proof. unfold is_intb, is_int. rewrite andb_true_iff, !Z.leb_le. tauto. Qed.

Lemma wrap_int_id z : is_int z -> wrap_int z = z.
Proof.
  unfold is_int, wrap_int, min_int, max_int. intros H.
  rewrite Z.mod_small; lia.
Qed.

Lemma wrap_int_is_int z : is_int (wrap_int z).
Proof.
  unfold is_int, wrap_int, min_int, max_int.
  pose proof (Z.mod_pos_bound (z + 2 ^ 63) (2 ^ 64)). lia.
Qed.

Lemma address_of_name_nonempty name : address_of_name name <> "".
Proof.
  unfold address_of_name.
  destruct (SHA256.Sum256 name) as [[[[[[[a b] c] d] e] f] g] h].
  discriminate.
Qed.

(** ** Comparisons of [float64] *)

Lemma SFcompare_le_not_gt (x y : spec_float) :
  SFleb x y = true -> SFltb y x = false.
Proof.
  unfold SFleb, SFltb.
  destruct x as [sx|sx| |sx mx ex], y as [sy|sy| |sy my ey]; simpl;
    try destruct sx; try destruct sy; simpl; try congruence.
  - rewrite (Z.compare_antisym ex ey).
    destruct (ex ?= ey)%Z eqn:E; simpl; try congruence.
    change (Pos.compare_cont Eq mx my) with (Pos.compare mx my).
    change (Pos.compare_cont Eq my mx) with (Pos.compare my mx).
    rewrite (Pos.compare_antisym mx my).
    destruct (mx ?= my)%positive; simpl; congruence.
  - rewrite (Z.compare_antisym ex ey).
    destruct (ex ?= ey)%Z eqn:E; simpl; try congruence.
    change (Pos.compare_cont Eq mx my) with (Pos.compare mx my).
    change (Pos.compare_cont Eq my mx) with (Pos.compare my mx).
    rewrite (Pos.compare_antisym mx my).
    destruct (mx ?= my)%positive; simpl; congruence.
Qed.

(** [a <= b] leaves the test [b < a] of the contract false. *)
Lemma float_leb_not_ltb (a b : float) :
  PrimFloat.leb a b = true -> PrimFloat.ltb b a = false.
Proof. rewrite leb_spec, ltb_spec. apply SFcompare_le_not_gt. Qed.

(** ** Documents read back as they were written *)

Lemma Unmarshal_Marshal_Participant p :
  Unmarshal_Participant (Marshal_Participant p) = (p, None).
Proof. destruct p as [? ? ? ? ? ? ? [ids|]]; reflexivity. Qed.

Lemma Unmarshal_Marshal_Token t :
  is_int (Token.Minted t) -> Unmarshal_Token (Marshal_Token t) = (t, None).
Proof.
  destruct t as [? ? ? minted [ids|]]; cbn [Token.Minted];
    intros H%is_intb_spec; cbn; rewrite H; reflexivity.
Qed.

Lemma Unmarshal_Marshal_TokenRequest r :
  Unmarshal_TokenRequest (Marshal_TokenRequest r) = (r, None).
Proof. destruct r; reflexivity. Qed.

Lemma Unmarshal_Marshal_MintRequest m :
  is_int (MintRequest.Amount m) ->
  Unmarshal_MintRequest (Marshal_MintRequest m) = (m, None).
Proof.
  destruct m as [? ? ? amount ?]; cbn [MintRequest.Amount];
    intros H%is_intb_spec; cbn; rewrite H; reflexivity.
Qed.

Lemma Unmarshal_Marshal_Customer c :
  is_int (Customer.Balance c) ->
  Unmarshal_Customer (Marshal_Customer c) = (c, None).
Proof.
  destruct c as [? ? ? ? ? balance [ids|] [tids|]]; cbn [Customer.Balance];
    intros H%is_intb_spec; cbn; rewrite H; reflexivity.
Qed.

Lemma Unmarshal_Marshal_RegisterCustomerRequest q :
  Unmarshal_RegisterCustomerRequest (Marshal_RegisterCustomerRequest q) = (q, None).
Proof. destruct q; reflexivity. Qed.

Lemma Unmarshal_Marshal_TransferRequest x b :
  Marshal_TransferRequest x = Some b ->
  Unmarshal_TransferRequest b = (x, None).
Proof.
  destruct x as [? ? amount ? ? ? ? ?]. unfold Marshal_TransferRequest.
  cbn [TransferRequest.Amount]. destruct (is_finite amount) eqn:Hfin; [|done].
  intros [= <-]. cbn. rewrite Hfin. reflexivity.
Qed.

(** ** Running a transaction *)

Lemma bind_GetState {B : Type} key (f : option bytes -> Tx B) st :
  (GetState key ≫= f) st = f (st !! key) st.
Proof. reflexivity. Qed.

Lemma bind_PutState {B : Type} key value (f : unit -> Tx B) st :
  (PutState key value ≫= f) st = f tt (<[key := value]> st).
Proof. reflexivity. Qed.

Lemma bind_delete {B : Type} key (f : unit -> Tx B) st :
  ((fun st => (Ok tt, delete key st)) ≫= f) st = f tt (delete key st).
Proof. reflexivity. Qed.

Lemma bind_ret {A B : Type} (a : A) (f : A -> Tx B) st :
  ((mret a : Tx A) ≫= f) st = f a st.
Proof. reflexivity. Qed.

Lemma bind_fail {A B : Type} e (f : A -> Tx B) st :
  (fail e ≫= f) st = (Err e, st).
Proof. reflexivity. Qed.

Lemma bind_unmarshal {A B : Type} (r : A * option error) (f : A -> Tx B) st :
  (unmarshal r ≫= f) st = match snd r with
                          | None => f (fst r) st
                          | Some e => (Err e, st)
                          end.
Proof. unfold unmarshal. now destruct (snd r). Qed.

Lemma bind_assoc {A B C : Type} (m : Tx A) (f : A -> Tx B) (g : B -> Tx C) st :
  ((m ≫= f) ≫= g) st = (m ≫= fun a => f a ≫= g) st.
Proof.
  unfold mbind, Tx_bind. destruct (m st) as [[a|e] st']; reflexivity.
Qed.

Lemma run_ret {A : Type} (a : A) st : (mret a : Tx A) st = (Ok a, st).
Proof. reflexivity. Qed.

Lemma run_PutState key value st : PutState key value st = (Ok tt, <[key := value]> st).
Proof. reflexivity. Qed.

Lemma run_fail {A : Type} e st : @fail A e st = (Err e, st).
Proof. reflexivity. Qed.

(** One step of symbolic execution: the monad, the tests on literals and the
    fields of the records just built. *)
Ltac tx_step :=
  repeat first
    [ rewrite bind_assoc | rewrite bind_GetState | rewrite bind_PutState | rewrite bind_delete
    | rewrite bind_ret | rewrite bind_fail | rewrite bind_unmarshal
    | rewrite run_ret | rewrite run_PutState | rewrite run_fail
    | progress unfold VerifyAdmin, PutState_nilable
    | progress cbv beta iota
    | progress cbn [fst snd negb orb andb String.eqb Ascii.eqb Bool.eqb
                    Participant.Name Participant.NetworkAddress Participant.ClientID
                    Participant.Approved Participant.PasswordHash Participant.Country
                    Participant.TokenID Participant.TransferIDs
                    Token.TokenID Token.Owner Token.Available Token.Minted
                    Token.TransferIDs
                    TokenRequest.RequestID TokenRequest.NetworkAddr
                    TokenRequest.Status TokenRequest.TokenID
                    MintRequest.RequestID MintRequest.TokenID MintRequest.RequestedBy
                    MintRequest.Amount MintRequest.Approved
                    Customer.NetworkAddress Customer.Name Customer.PasswordHash
                    Customer.TokenID Customer.Approved Customer.Balance
                    Customer.TransferIDs Customer.TokenTransferIDs
                    RegisterCustomerRequest.RequestID
                    RegisterCustomerRequest.NetworkAddress
                    RegisterCustomerRequest.Name RegisterCustomerRequest.PasswordHash
                    RegisterCustomerRequest.TokenID RegisterCustomerRequest.Approved
                    TransferRequest.TransferRequestID TransferRequest.TokenID
                    TransferRequest.Amount TransferRequest.SenderTransferID
                    TransferRequest.ReceiverTransferID
                    TransferRequest.SenderTokenTransferID
                    TransferRequest.ReceiverTokenTransferID TransferRequest.Status] ].

(** Keys that hold documents of different shapes are different keys. *)
Lemma lookup_distinct (st : gmap string bytes) k1 k2 b1 b2 :
  st !! k1 = Some b1 -> st !! k2 = Some b2 -> b1 <> b2 -> k1 <> k2.
Proof. intros H1 H2 Hne ->. congruence. Qed.

Lemma Marshal_TransferRequest_not_Token x b t :
  Marshal_TransferRequest x = Some b -> b <> Marshal_Token t.
Proof.
  unfold Marshal_TransferRequest. destruct (is_finite _); [|done].
  intros [= <-]. discriminate.
Qed.

Lemma Marshal_TransferRequest_not_Text x b s :
  Marshal_TransferRequest x = Some b -> b <> Text s.
Proof.
  unfold Marshal_TransferRequest. destruct (is_finite _); [|done].
  intros [= <-]. discriminate.
Qed.

Lemma Marshal_with_Status x b status :
  Marshal_TransferRequest x = Some b ->
  exists b', Marshal_TransferRequest (with_Status x status) = Some b'.
Proof.
  unfold Marshal_TransferRequest. destruct x; cbn.
  destruct (is_finite _); [|done]. eauto.
Qed.

(** ** The receiver's approval *)

(** The state [ApproveTransferByReceiver] leaves when the balance covers the
    amount. *)
Lemma ApproveTransferByReceiver_sufficient ParseFloat st id approver
  request requestBytes token s B :
  st !! id = Some requestBytes ->
  Marshal_TransferRequest request = Some requestBytes ->
  TransferRequest.Status request = "PendingReceiverApproval" ->
  st !! TransferRequest.TokenID request = Some (Marshal_Token token) ->
  is_int (Token.Minted token) ->
  Token.Owner token = approver ->
  st !! TransferRequest.SenderTransferID request = Some (Text s) ->
  ParseFloat s = inr B ->
  PrimFloat.ltb B (TransferRequest.Amount request) = false ->
  ApproveTransferByReceiver ParseFloat id approver st =
    (Ok tt,
     match Marshal_TransferRequest (with_Status request "Completed") with
     | Some b' =>
         <[id := b']>
           (<[TransferRequest.TokenID request :=
                Marshal_Token (with_Minted token
                  (add_int (Token.Minted token)
                           (int_of_float64 (TransferRequest.Amount request))))]>
              (<[TransferRequest.SenderTransferID request :=
                   Text (Sprintf_f (PrimFloat.sub B (TransferRequest.Amount request)))]>
                 st))
     | None => st
     end).
Proof.
  intros Hid Hm Hstatus Htok Hint <- Hbal Hparse Hlt.
  destruct (Marshal_with_Status _ _ "Completed" Hm) as [b' Hb'].
  unfold ApproveTransferByReceiver. tx_step.
  rewrite Hid. tx_step.
  rewrite (Unmarshal_Marshal_TransferRequest _ _ Hm). tx_step.
  rewrite Hstatus. tx_step.
  rewrite Htok. tx_step.
  rewrite Unmarshal_Marshal_Token by done. tx_step.
  rewrite String.eqb_refl. tx_step.
  rewrite Hbal. cbn [ParseFloat_bytes]. rewrite Hparse, Hlt. tx_step.
  rewrite Hb'. tx_step. reflexivity.
Qed.

(** [int(f)] is the integer part of [f] when that is an [int]. *)
Lemma int_of_float64_truncate f z :
  truncate f = Some z -> is_int z -> int_of_float64 f = z.
Proof.
  unfold truncate, int_of_float64. intros H Hz.
  destruct (Prim2SF f) as [s|s| |s m e]; try discriminate.
  - congruence.
  - injection H as H. cbv zeta. rewrite H.
    apply is_intb_spec in Hz. now rewrite Hz.
Qed.

(** C1, within the range of [int].  A transfer request pending the
    receiver's approval, approved by the current owner of its token while the
    sender's balance record [B] covers the amount [A] ([A <= B]), the integer
    part [a] of [A] and the sum of the token's [Minted] and [a] being within
    the range of Go's [int]: the approval succeeds, the balance record
    becomes the [%f] text of the [float64] difference [B - A], the token's
    [Minted] is its former value plus [a], and the request is stored with
    status [Completed], its other fields as they were. *)
Theorem ApproveTransferByReceiver_completes ParseFloat st id approver
  request requestBytes token s B a :
  st !! id = Some requestBytes ->
  Marshal_TransferRequest request = Some requestBytes ->
  TransferRequest.Status request = "PendingReceiverApproval" ->
  st !! TransferRequest.TokenID request = Some (Marshal_Token token) ->
  is_int (Token.Minted token) ->
  Token.Owner token = approver ->
  st !! TransferRequest.SenderTransferID request = Some (Text s) ->
  ParseFloat s = inr B ->
  PrimFloat.leb (TransferRequest.Amount request) B = true ->
  truncate (TransferRequest.Amount request) = Some a ->
  is_int a ->
  is_int (Token.Minted token + a) ->
  let A := TransferRequest.Amount request in
  let tx := ApproveTransferByReceiver ParseFloat id approver in
  let completed :=
    TransferRequest.mk (TransferRequest.TransferRequestID request)
      (TransferRequest.TokenID request) A
      (TransferRequest.SenderTransferID request)
      (TransferRequest.ReceiverTransferID request)
      (TransferRequest.SenderTokenTransferID request)
      (TransferRequest.ReceiverTokenTransferID request) "Completed" in
  returns tx st = Ok tt /\
  run tx st !! TransferRequest.SenderTransferID request
    = Some (Text (Sprintf_f (PrimFloat.sub B A))) /\
  run tx st !! TransferRequest.TokenID request
    = Some (Marshal_Token
              (Token.mk (Token.TokenID token) (Token.Owner token)
                        (Token.Available token) (Token.Minted token + a)
                        (Token.TransferIDs token))) /\
  (exists completedBytes,
      Marshal_TransferRequest completed = Some completedBytes /\
      run tx st !! id = Some completedBytes /\
      Unmarshal_TransferRequest completedBytes = (completed, None)).
Proof.
  intros Hid Hm Hstatus Htok Hint Howner Hbal Hparse Hle Htrunc Ha Hsum A tx completed.
  assert (Hst : id <> TransferRequest.SenderTransferID request).
  { eapply lookup_distinct; eauto using Marshal_TransferRequest_not_Text. }
  assert (Hit : id <> TransferRequest.TokenID request).
  { eapply lookup_distinct; eauto using Marshal_TransferRequest_not_Token. }
  assert (Hts : TransferRequest.TokenID request
                <> TransferRequest.SenderTransferID request).
  { eapply lookup_distinct; eauto; discriminate. }
  destruct (Marshal_with_Status _ _ "Completed" Hm) as [b' Hb'].
  unfold returns, run, tx.
  erewrite ApproveTransferByReceiver_sufficient
    by eauto using float_leb_not_ltb.
  rewrite Hb'. cbn [fst snd].
  rewrite (int_of_float64_truncate _ _ Htrunc Ha).
  unfold add_int. rewrite wrap_int_id by done.
  repeat split.
  - rewrite !lookup_insert_ne by done. apply lookup_insert_eq.
  - rewrite lookup_insert_ne by done. apply lookup_insert_eq.
  - exists b'. split; [exact Hb'|]. split; [apply lookup_insert_eq|].
    now apply Unmarshal_Marshal_TransferRequest.
Qed.

Lemma ApproveTransferByReceiver_insufficient ParseFloat st id approver
  request requestBytes token s B :
  st !! id = Some requestBytes ->
  Marshal_TransferRequest request = Some requestBytes ->
  TransferRequest.Status request = "PendingReceiverApproval" ->
  st !! TransferRequest.TokenID request = Some (Marshal_Token token) ->
  is_int (Token.Minted token) ->
  Token.Owner token = approver ->
  st !! TransferRequest.SenderTransferID request = Some (Text s) ->
  ParseFloat s = inr B ->
  PrimFloat.ltb B (TransferRequest.Amount request) = true ->
  exists rejected,
    Marshal_TransferRequest (with_Status request "Rejected") = Some rejected /\
    ApproveTransferByReceiver ParseFloat id approver st =
      (Err (Errorf "insufficient funds for transfer"), <[id := rejected]> st).
Proof.
  intros Hid Hm Hstatus Htok Hint <- Hbal Hparse Hlt.
  destruct (Marshal_with_Status _ _ "Rejected" Hm) as [b' Hb'].
  exists b'. split; [done|].
  unfold ApproveTransferByReceiver. tx_step.
  rewrite Hid. tx_step.
  rewrite (Unmarshal_Marshal_TransferRequest _ _ Hm). tx_step.
  rewrite Hstatus. tx_step.
  rewrite Htok. tx_step.
  rewrite Unmarshal_Marshal_Token by done. tx_step.
  rewrite String.eqb_refl. tx_step.
  rewrite Hbal. cbn [ParseFloat_bytes]. rewrite Hparse, Hlt. tx_step.
  rewrite Hb'. tx_step. reflexivity.
Qed.

(** ** Failures and the writes that precede them *)

Lemma bind_run {A B : Type} (m : Tx A) (f : A -> Tx B) st :
  (m ≫= f) st = match m st with
                | (Ok a, st') => f a st'
                | (Err e, st') => (Err e, st')
                end.
Proof. reflexivity. Qed.

Ltac tx_case :=
  match goal with
  | |- context [match ?x with _ => _ end] => destruct x eqn:?
  end.

Ltac tx_crunch := unfold returns, run; repeat (tx_step; try tx_case).

(** The error of a [json.Unmarshal] is [JSONError]. *)
Lemma json_error_spec oks e : json_error oks = Some e -> e = JSONError.
Proof. unfold json_error. destruct (forallb id oks); congruence. Qed.

Lemma Unmarshal_error {A : Type} (Unmarshal : bytes -> A * option error) :
  (forall s, snd (Unmarshal (Text s)) = Some JSONError) ->
  (forall o, exists oks, snd (Unmarshal (Json o)) = json_error oks) ->
  forall b e, snd (Unmarshal b) = Some e -> e = JSONError.
Proof.
  intros HT HJ [o|s] e.
  - destruct (HJ o) as [oks ->]. apply json_error_spec.
  - rewrite HT. congruence.
Qed.

Lemma Unmarshal_Token_error b e : snd (Unmarshal_Token b) = Some e -> e = JSONError.
Proof. apply Unmarshal_error; [done|]. intros o. eexists. reflexivity. Qed.

Lemma Unmarshal_Participant_error b e :
  snd (Unmarshal_Participant b) = Some e -> e = JSONError.
Proof. apply Unmarshal_error; [done|]. intros o. eexists. reflexivity. Qed.

Lemma Unmarshal_MintRequest_error b e :
  snd (Unmarshal_MintRequest b) = Some e -> e = JSONError.
Proof. apply Unmarshal_error; [done|]. intros o. eexists. reflexivity. Qed.

Lemma Unmarshal_Customer_error b e :
  snd (Unmarshal_Customer b) = Some e -> e = JSONError.
Proof. apply Unmarshal_error; [done|]. intros o. eexists. reflexivity. Qed.

Lemma Unmarshal_RegisterCustomerRequest_error b e :
  snd (Unmarshal_RegisterCustomerRequest b) = Some e -> e = JSONError.
Proof. apply Unmarshal_error; [done|]. intros o. eexists. reflexivity. Qed.

Lemma Unmarshal_TransferRequest_error b e :
  snd (Unmarshal_TransferRequest b) = Some e -> e = JSONError.
Proof. apply Unmarshal_error; [done|]. intros o. eexists. reflexivity. Qed.

Ltac json_errors :=
  repeat match goal with
    | H : snd (Unmarshal_Token _) = Some ?e |- _ =>
        apply Unmarshal_Token_error in H; subst e
    | H : snd (Unmarshal_Participant _) = Some ?e |- _ =>
        apply Unmarshal_Participant_error in H; subst e
    | H : snd (Unmarshal_MintRequest _) = Some ?e |- _ =>
        apply Unmarshal_MintRequest_error in H; subst e
    | H : snd (Unmarshal_Customer _) = Some ?e |- _ =>
        apply Unmarshal_Customer_error in H; subst e
    | H : snd (Unmarshal_RegisterCustomerRequest _) = Some ?e |- _ =>
        apply Unmarshal_RegisterCustomerRequest_error in H; subst e
    | H : snd (Unmarshal_TransferRequest _) = Some ?e |- _ =>
        apply Unmarshal_TransferRequest_error in H; subst e
    end.

(** The outcome of a failure: the state is as before, or the failure is one
    of those listed. *)
Ltac failure_done :=
  cbn [fst snd]; json_errors;
  first [ discriminate
        | intros [= <-]; first [ left; reflexivity | right; cbn; tauto ] ].

Lemma InitLedger_loop_returns n i st : returns (InitLedger_loop n i) st = Ok tt.
Proof.
  revert i st. induction n as [|n IH]; intros i st; [done|].
  unfold returns in *. cbn [InitLedger_loop]. rewrite bind_PutState. apply IH.
Qed.

Lemma findAvailableToken_loop_reads n i st :
  run (findAvailableToken_loop n i) st = st.
Proof.
  revert i. induction n as [|n IH]; intros i; [done|].
  unfold run in *. cbn [findAvailableToken_loop]. tx_step.
  destruct (st !! token_key i) as [b|]; [|apply IH]. tx_step.
  destruct (Unmarshal_Token b) as [t [e|]]; cbn [fst snd]; [done|].
  destruct (Token.Available t); [done|apply IH].
Qed.

Lemma ApproveMintRequest_failure ctx requestID st e :
  returns (ApproveMintRequest ctx requestID) st = Err e ->
  run (ApproveMintRequest ctx requestID) st = st
  \/ late_failure (Invoke_ApproveMintRequest requestID) e.
Proof.
  unfold ApproveMintRequest. tx_crunch; failure_done.
Qed.

Lemma findAvailableToken_run st :
  findAvailableToken st = (returns findAvailableToken st, st).
Proof.
  unfold returns.
  pose proof (findAvailableToken_loop_reads (Z.to_nat maxTokens) 1 st) as H.
  unfold run, findAvailableToken in *. destruct (findAvailableToken_loop _ _ st).
  cbn [fst snd] in *. now subst.
Qed.

Lemma ApproveTokenRequest_failure ctx networkAddress st e :
  returns (ApproveTokenRequest ctx networkAddress) st = Err e ->
  run (ApproveTokenRequest ctx networkAddress) st = st
  \/ late_failure (Invoke_ApproveTokenRequest networkAddress) e.
Proof.
  unfold ApproveTokenRequest. tx_crunch; try failure_done.
  all: rewrite bind_run, findAvailableToken_run.
  all: destruct (returns findAvailableToken st); tx_crunch; failure_done.
Qed.

Lemma ApproveCustomerMint_failure requestID owner st e :
  returns (ApproveCustomerMint requestID owner) st = Err e ->
  run (ApproveCustomerMint requestID owner) st = st
  \/ late_failure (Invoke_ApproveCustomerMint requestID owner) e.
Proof. unfold ApproveCustomerMint. tx_crunch; failure_done. Qed.

Lemma ApproveTransferByReceiver_failure ParseFloat id approver st e :
  returns (ApproveTransferByReceiver ParseFloat id approver) st = Err e ->
  run (ApproveTransferByReceiver ParseFloat id approver) st = st
  \/ late_failure (Invoke_ApproveTransferByReceiver id approver) e.
Proof. unfold ApproveTransferByReceiver. tx_crunch; failure_done. Qed.

(** Every failure other than the late ones leaves the state as it was. *)
Lemma failure_keeps_state ParseFloat ctx c st e :
  returns (invoke ParseFloat ctx c) st = Err e ->
  run (invoke ParseFloat ctx c) st = st \/ late_failure c e.
Proof.
  destruct c; cbn [invoke].
  - intros H. exfalso. unfold InitLedger in H.
    rewrite InitLedger_loop_returns in H. discriminate.
  - unfold SubmitRegistration, ParticipantExists. tx_crunch; failure_done.
  - unfold RequestTokenRequest. tx_crunch; failure_done.
  - apply ApproveTokenRequest_failure.
  - unfold RequestMintCoins. tx_crunch; failure_done.
  - apply ApproveMintRequest_failure.
  - unfold RegisterCustomer. tx_crunch; failure_done.
  - unfold ApproveCustomerRegistration. tx_crunch; failure_done.
  - unfold CustomerRequestMint. tx_crunch; failure_done.
  - apply ApproveCustomerMint_failure.
  - unfold CreateTransferRequest. tx_crunch; failure_done.
  - unfold ApproveTransferByOwner. tx_crunch; failure_done.
  - apply ApproveTransferByReceiver_failure.
Qed.

Ltac by_computation :=
  vm_compute; first [ reflexivity | discriminate | split; discriminate ].
Ltac conjuncts := repeat match goal with |- _ /\ _ => split end.

Lemma ApproveTransferByReceiver_completes_witness :
  let st := ledger_with_transfer "80.75" in
  let tx := ApproveTransferByReceiver ParseFloat_plain "transfer_0001" alice in
  returns tx st = Ok tt /\
  run tx st !! "acct_carol" = Some (Text "119.250000") /\
  run tx st !! "token_1" = Some (Marshal_Token (token_of_alice 180)) /\
  (exists completedBytes,
      run tx st !! "transfer_0001" = Some completedBytes /\
      Unmarshal_TransferRequest completedBytes
      = (TransferRequest.mk "transfer_0001" "token_1" 80.75 "acct_carol" alice "" ""
                            "Completed", None)).
Proof.
  pose proof (ApproveTransferByReceiver_completes ParseFloat_plain
                (ledger_with_transfer "80.75") "transfer_0001" alice
                (transfer_of 80.75)
                (default (Text "") (Marshal_TransferRequest (transfer_of 80.75)))
                (token_of_alice 100) "200.000000" 200%float 80
                ltac:(by_computation) ltac:(by_computation) ltac:(by_computation)
                ltac:(by_computation) ltac:(by_computation) ltac:(by_computation)
                ltac:(by_computation) ltac:(by_computation) ltac:(by_computation)
                ltac:(by_computation) ltac:(by_computation) ltac:(by_computation))
    as (H1 & H2 & H3 & completedBytes & _ & H4 & H5).
  exact (conj H1 (conj H2 (conj H3 (ex_intro _ completedBytes (conj H4 H5))))).
Defined.

(** C1 as stated fails where the sum leaves the range of [int], and where
    the difference has more than six decimals.  Alice's token holds the
    largest [int] after a mint of that amount; the transfer of 1 is approved
    and succeeds, and [Minted] is the smallest [int] afterwards: it has not
    grown by 1.  And a transfer of [2^-21], a little less than 0.0000005,
    from a balance record of 200 succeeds and leaves the record as it was,
    the [%f] text of the difference. *)
Lemma ApproveTransferByReceiver_inexact :
  (let st := ledger_with_full_pool in
   let tx := ApproveTransferByReceiver ParseFloat_plain "transfer_0001" alice in
   st !! "transfer_0001" = Marshal_TransferRequest (transfer_of 1) /\
   st !! "acct_carol" = Some (Text "200.000000") /\
   st !! "token_1" = Some (Marshal_Token (token_of_alice 9223372036854775807)) /\
   returns tx st = Ok tt /\
   run tx st !! "token_1"
     = Some (Marshal_Token (token_of_alice (-9223372036854775808)))) /\
  (let st := ledger_with_transfer "0.000000476837158203125" in
   let tx := ApproveTransferByReceiver ParseFloat_plain "transfer_0001" alice in
   ParseFloat_plain "0.000000476837158203125" = inr 0x1p-21%float /\
   st !! "transfer_0001" = Marshal_TransferRequest (transfer_of 0x1p-21) /\
   st !! "acct_carol" = Some (Text "200.000000") /\
   returns tx st = Ok tt /\
   run tx st !! "acct_carol" = Some (Text "200.000000")).
Proof. cbv zeta. split; conjuncts; by_computation. Qed.

(** C2, as the contract has it.  The approval of the token's owner on a
    request pending the receiver's approval, when the sender's balance record
    is strictly less than the amount: the call fails with "insufficient funds
    for transfer" after one write, which stores the request with status
    [Rejected] and its other fields as they were; balance record and token
    are not written.  No transaction undoes a write, and a failure that is
    reported before the first write of its transaction leaves the state as it
    was: every failure of every transaction does, apart from the insufficient
    funds above and the failures of [ApproveTokenRequest],
    [ApproveMintRequest] and [ApproveCustomerMint] that [late_failure] names,
    of which nothing is stated. *)
Theorem ApproveTransferByReceiver_rejects ParseFloat st id approver
  request requestBytes token s B :
  st !! id = Some requestBytes ->
  Marshal_TransferRequest request = Some requestBytes ->
  TransferRequest.Status request = "PendingReceiverApproval" ->
  st !! TransferRequest.TokenID request = Some (Marshal_Token token) ->
  is_int (Token.Minted token) ->
  Token.Owner token = approver ->
  st !! TransferRequest.SenderTransferID request = Some (Text s) ->
  ParseFloat s = inr B ->
  PrimFloat.ltb B (TransferRequest.Amount request) = true ->
  let tx := ApproveTransferByReceiver ParseFloat id approver in
  let rejected :=
    TransferRequest.mk (TransferRequest.TransferRequestID request)
      (TransferRequest.TokenID request) (TransferRequest.Amount request)
      (TransferRequest.SenderTransferID request)
      (TransferRequest.ReceiverTransferID request)
      (TransferRequest.SenderTokenTransferID request)
      (TransferRequest.ReceiverTokenTransferID request) "Rejected" in
  returns tx st = Err (Errorf "insufficient funds for transfer") /\
  (exists rejectedBytes,
      Marshal_TransferRequest rejected = Some rejectedBytes /\
      Unmarshal_TransferRequest rejectedBytes = (rejected, None) /\
      run tx st = <[id := rejectedBytes]> st) /\
  run tx st !! TransferRequest.SenderTransferID request = Some (Text s) /\
  run tx st !! TransferRequest.TokenID request = Some (Marshal_Token token) /\
  (forall ctx c st0 e,
      returns (invoke ParseFloat ctx c) st0 = Err e ->
      run (invoke ParseFloat ctx c) st0 = st0 \/ late_failure c e).
Proof.
  intros Hid Hm Hstatus Htok Hint Howner Hbal Hparse Hlt tx rejected.
  assert (Hst : id <> TransferRequest.SenderTransferID request).
  { eapply lookup_distinct; eauto using Marshal_TransferRequest_not_Text. }
  assert (Hit : id <> TransferRequest.TokenID request).
  { eapply lookup_distinct; eauto using Marshal_TransferRequest_not_Token. }
  destruct (ApproveTransferByReceiver_insufficient ParseFloat st id approver
              request requestBytes token s B) as (b' & Hrej & Hrun); try done.
  unfold returns, run, tx. rewrite Hrun. cbn [fst snd].
  split; [done|]. split.
  { exists b'. split; [exact Hrej|]. split; [|done].
    now apply Unmarshal_Marshal_TransferRequest. }
  rewrite !lookup_insert_ne by done.
  split; [done|]. split; [done|].
  intros ctx c st0 e. apply failure_keeps_state.
Qed.

Lemma ApproveTransferByReceiver_rejects_witness :
  let st := ledger_with_transfer "300" in
  let tx := ApproveTransferByReceiver ParseFloat_plain "transfer_0001" alice in
  returns tx st = Err (Errorf "insufficient funds for transfer") /\
  (exists rejectedBytes,
      run tx st = <["transfer_0001" := rejectedBytes]> st /\
      Unmarshal_TransferRequest rejectedBytes
      = (TransferRequest.mk "transfer_0001" "token_1" 300 "acct_carol" alice "" ""
                            "Rejected", None)) /\
  run tx st !! "acct_carol" = Some (Text "200.000000") /\
  run tx st !! "token_1" = Some (Marshal_Token (token_of_alice 100)).
Proof.
  pose proof (ApproveTransferByReceiver_rejects ParseFloat_plain
                (ledger_with_transfer "300") "transfer_0001" alice
                (transfer_of 300)
                (default (Text "") (Marshal_TransferRequest (transfer_of 300)))
                (token_of_alice 100) "200.000000" 200%float
                ltac:(by_computation) ltac:(by_computation) ltac:(by_computation)
                ltac:(by_computation) ltac:(by_computation) ltac:(by_computation)
                ltac:(by_computation) ltac:(by_computation) ltac:(by_computation))
    as (H1 & (rejectedBytes & _ & H2 & H2') & H3 & H4 & _).
  exact (conj H1 (conj (ex_intro _ rejectedBytes (conj H2' H2)) (conj H3 H4))).
Defined.

(** C2 as stated fails, whatever the host does with the writes of a failed
    call.  Where they are kept, as on the stub of the repository's tests, the
    rejection is not the only failure that leaves a write: the token's owner
    passes the key of her own pending mint request to [ApproveCustomerMint],
    and the request is marked approved and the pool debited before the call
    fails with "customer not found".  Where they are dropped, the rejection
    is dropped with them: the contract reports the insufficient funds like
    any other failure, and the request is pending as before. *)
Lemma failed_writes_kept_or_dropped :
  (let st := ledger_with_second_mint in
   let key := "mintrequest_token_1_" +:+ alice in
   let tx := ApproveCustomerMint key alice in
   returns tx st = Err (Errorf "customer not found") /\
   st !! "token_1" = Some (Marshal_Token (token_of_alice 100)) /\
   committed true tx st !! "token_1" = Some (Marshal_Token (token_of_alice 50)) /\
   committed true tx st !! key
     = Some (Marshal_MintRequest (MintRequest.mk key "token_1" alice 50 true)) /\
   committed true tx st <> st) /\
  (let st := ledger_with_transfer "300" in
   let tx := ApproveTransferByReceiver ParseFloat_plain "transfer_0001" alice in
   returns tx st = Err (Errorf "insufficient funds for transfer") /\
   st !! "transfer_0001" = Marshal_TransferRequest (transfer_of 300) /\
   committed false tx st !! "transfer_0001"
     = Marshal_TransferRequest (transfer_of 300)).
Proof.
  cbv zeta. split.
  - conjuncts; [by_computation .. |].
    intros H. apply (f_equal (fun m => m !! "token_1")) in H.
    vm_compute in H. discriminate.
  - conjuncts; by_computation.
Qed.

(** ** The keys of the pool *)

(** A property of the 25 indices is checked on each of them. *)
Lemma pool_cases (P : Z -> Prop) :
  Forall P (seqZ 1 maxTokens) -> forall i, 1 <= i <= maxTokens -> P i.
Proof.
  intros H i Hi. rewrite Forall_forall in H. apply H.
  apply elem_of_seqZ. unfold maxTokens in *. lia.
Qed.

Ltac each_token := apply pool_cases; repeat constructor.

Lemma token_index_key i :
  1 <= i <= maxTokens -> token_index (token_key i) = Some i.
Proof. revert i. each_token; reflexivity. Qed.

Lemma token_key_inj i j :
  1 <= i <= maxTokens -> 1 <= j <= maxTokens ->
  token_key i = token_key j -> i = j.
Proof.
  intros Hi Hj H. apply token_index_key in Hi, Hj.
  rewrite H in Hi. congruence.
Qed.

Lemma token_key_nonempty i : token_key i <> "".
Proof. discriminate. Qed.

Lemma token_key_eqb_empty i : String.eqb (token_key i) "" = false.
Proof. reflexivity. Qed.

(** ** [InitLedger] *)

Lemma InitLedger_loop_other n i st k :
  (forall j, i <= j < i + Z.of_nat n -> k <> token_key j) ->
  run (InitLedger_loop n i) st !! k = st !! k.
Proof.
  revert i st. induction n as [|n IH]; intros i st Hk; [done|].
  unfold run in *. cbn [InitLedger_loop]. rewrite bind_PutState.
  rewrite IH by (intros j Hj; apply Hk; lia).
  apply lookup_insert_ne. intros Heq. eapply (Hk i); [lia|done].
Qed.

Lemma InitLedger_loop_token n i st j :
  1 <= i -> i + Z.of_nat n <= maxTokens + 1 -> i <= j < i + Z.of_nat n ->
  run (InitLedger_loop n i) st !! token_key j
  = Some (Marshal_Token (fresh_token (token_key j))).
Proof.
  unfold fresh_token.
  revert i st. induction n as [|n IH]; intros i st Hi Hn Hj; [lia|].
  unfold run in *. cbn [InitLedger_loop]. rewrite bind_PutState.
  destruct (decide (j = i)) as [->|Hne].
  - pose proof (InitLedger_loop_other n (i + 1)
                  (<[token_key i := Marshal_Token (fresh_token (token_key i))]> st)
                  (token_key i)) as Hother.
    unfold run, fresh_token in Hother. rewrite Hother.
    + apply lookup_insert_eq.
    + intros j Hj' Heq. apply token_key_inj in Heq; lia.
  - apply IH; lia.
Qed.


(** ** The allocation of a token *)

Lemma findAvailableToken_loop_first n i st i0 t :
  i <= i0 < i + Z.of_nat n ->
  st !! token_key i0 = Some (Marshal_Token t) ->
  is_int (Token.Minted t) ->
  Token.Available t = true ->
  (forall j, i <= j < i0 -> unavailable st j) ->
  findAvailableToken_loop n i st = (Ok (token_key i0), st).
Proof.
  revert i. induction n as [|n IH]; intros i Hi Ht Hint Hav Hbefore; [lia|].
  cbn [findAvailableToken_loop]. tx_step.
  destruct (decide (i = i0)) as [->|Hne].
  - rewrite Ht. tx_step. rewrite Unmarshal_Marshal_Token by done. tx_step.
    rewrite Hav. reflexivity.
  - destruct (Hbefore i) as [Hnone|(t' & Ht' & Hint' & Hav')]; [lia| |].
    + rewrite Hnone. tx_step. apply IH; try done; [lia|].
      intros j Hj. apply Hbefore. lia.
    + rewrite Ht'. tx_step. rewrite Unmarshal_Marshal_Token by done. tx_step.
      rewrite Hav'. apply IH; try done; [lia|].
      intros j Hj. apply Hbefore. lia.
Qed.


Lemma Marshal_Participant_not_Token p t : Marshal_Participant p <> Marshal_Token t.
Proof. discriminate. Qed.

Lemma Marshal_TokenRequest_not_Token r t : Marshal_TokenRequest r <> Marshal_Token t.
Proof. discriminate. Qed.

Lemma Marshal_TokenRequest_not_Participant r p :
  Marshal_TokenRequest r <> Marshal_Participant p.
Proof. discriminate. Qed.



(** ** The approval of a customer's mint request *)

(** C7, within the range of [int].  An unapproved customer mint request
    of amount [A] on a token with mint pool [M], approved by the token's
    owner, the customer's record being on the ledger.  If [M < A] the call
    fails with "insufficient minted coin balance on token" and the state is
    as it was (pool, balance and request unchanged).  If [A <= M], and
    [M - A] and the customer's balance plus [A] are within the range of Go's
    [int] (the sign of [A] is not checked), it succeeds and the state it
    leaves holds the pool [M - A] and the customer's balance plus [A], with
    the request approved. *)
Theorem ApproveCustomerMint_moves_coins requestID owner st m token cust :
  st !! requestID = Some (Marshal_MintRequest m) ->
  is_int (MintRequest.Amount m) ->
  MintRequest.Approved m = false ->
  st !! MintRequest.TokenID m = Some (Marshal_Token token) ->
  is_int (Token.Minted token) ->
  Token.Owner token = owner ->
  let customerKey :=
    "customer_" +:+ MintRequest.RequestedBy m +:+ "_" +:+ MintRequest.TokenID m in
  st !! customerKey = Some (Marshal_Customer cust) ->
  is_int (Customer.Balance cust) ->
  let tx := ApproveCustomerMint requestID owner in
  let A := MintRequest.Amount m in
  let M := Token.Minted token in
  (M < A ->
   tx st = (Err (Errorf ("insufficient minted coin balance on token: available "
                         +:+ Sprintf_d M +:+ ", requested " +:+ Sprintf_d A)), st)) /\
  (A <= M -> is_int (M - A) -> is_int (Customer.Balance cust + A) ->
   returns tx st = Ok tt /\
   run tx st !! MintRequest.TokenID m
     = Some (Marshal_Token (with_Minted token (M - A))) /\
   run tx st !! customerKey
     = Some (Marshal_Customer (with_Balance cust (Customer.Balance cust + A))) /\
   run tx st !! requestID
     = Some (Marshal_MintRequest
               (MintRequest.mk (MintRequest.RequestID m) (MintRequest.TokenID m)
                               (MintRequest.RequestedBy m) A true))).
Proof.
  intros Hreq HintA Hunapproved Htok HintM <- customerKey Hcust HintB tx A M.
  assert (Hrt : requestID <> MintRequest.TokenID m).
  { eapply lookup_distinct; eauto; discriminate. }
  assert (Hrc : requestID <> customerKey).
  { eapply lookup_distinct; eauto; discriminate. }
  assert (Htc : MintRequest.TokenID m <> customerKey).
  { eapply lookup_distinct; eauto; discriminate. }
  unfold tx, ApproveCustomerMint, returns, run.
  split.
  - intros Hcmp. tx_step. rewrite Hreq. tx_step.
    rewrite Unmarshal_Marshal_MintRequest by done. tx_step.
    rewrite Htok. tx_step. rewrite Unmarshal_Marshal_Token by done. tx_step.
    rewrite String.eqb_refl. tx_step. rewrite Hunapproved.
    fold A M. apply Z.ltb_lt in Hcmp. rewrite Hcmp. reflexivity.
  - intros Hcmp Hpool Hbalance. tx_step. rewrite Hreq. tx_step.
    rewrite Unmarshal_Marshal_MintRequest by done. tx_step.
    rewrite Htok. tx_step. rewrite Unmarshal_Marshal_Token by done. tx_step.
    rewrite String.eqb_refl. tx_step. rewrite Hunapproved.
    fold A M. assert ((M <? A) = false) as -> by (apply Z.ltb_ge; lia).
    tx_step. fold customerKey.
    rewrite !lookup_insert_ne, Hcust by done. tx_step.
    rewrite Unmarshal_Marshal_Customer by done. tx_step.
    unfold sub_int, add_int. fold A M. rewrite !wrap_int_id by done.
    conjuncts.
    + reflexivity.
    + rewrite lookup_insert_ne by done. apply lookup_insert_eq.
    + apply lookup_insert_eq.
    + rewrite !lookup_insert_ne by done. apply lookup_insert_eq.
Qed.

Lemma ApproveCustomerMint_moves_coins_witness :
  let tx := ApproveCustomerMint "custmintreq_dave_token_1" alice in
  (tx (ledger_with_customer_request 130) =
     (Err (Errorf "insufficient minted coin balance on token: available 100, requested 130"),
      ledger_with_customer_request 130)) /\
  (returns tx (ledger_with_customer_request 30) = Ok tt /\
   run tx (ledger_with_customer_request 30) !! "token_1"
     = Some (Marshal_Token (token_of_alice 70)) /\
   run tx (ledger_with_customer_request 30) !! "customer_dave_token_1"
     = Some (Marshal_Customer (customer_dave 30)) /\
   run tx (ledger_with_customer_request 30) !! "custmintreq_dave_token_1"
     = Some (Marshal_MintRequest (request_of_dave 30 true))).
Proof.
  split.
  - exact (proj1 (ApproveCustomerMint_moves_coins "custmintreq_dave_token_1" alice
                    (ledger_with_customer_request 130) (request_of_dave 130 false)
                    (token_of_alice 100) (customer_dave 0)
                    ltac:(by_computation) ltac:(by_computation) ltac:(by_computation)
                    ltac:(by_computation) ltac:(by_computation) ltac:(by_computation)
                    ltac:(by_computation) ltac:(by_computation))
                 ltac:(by_computation)).
  - exact (proj2 (ApproveCustomerMint_moves_coins "custmintreq_dave_token_1" alice
                    (ledger_with_customer_request 30) (request_of_dave 30 false)
                    (token_of_alice 100) (customer_dave 0)
                    ltac:(by_computation) ltac:(by_computation) ltac:(by_computation)
                    ltac:(by_computation) ltac:(by_computation) ltac:(by_computation)
                    ltac:(by_computation) ltac:(by_computation))
                 ltac:(by_computation) ltac:(by_computation) ltac:(by_computation)).
Defined.

(** C7 as stated fails where a difference or a sum leaves the range of
    [int].  The sign of the amount is not checked: a request for the smallest
    [int] passes the test [A <= M] on a pool of 100, and the pool it leaves
    is [100 - 2^63], where decrementing 100 by [A] gives [100 + 2^63].  With
    amounts that are all positive: the customer holds the largest [int], the
    pool holds 100, and the approval of a request for 1 leaves the customer
    the smallest [int]. *)
Lemma ApproveCustomerMint_wraps :
  (let st := ledger_with_customer_request (-9223372036854775808) in
   let tx := ApproveCustomerMint "custmintreq_dave_token_1" alice in
   st !! "token_1" = Some (Marshal_Token (token_of_alice 100)) /\
   returns tx st = Ok tt /\
   run tx st !! "token_1"
     = Some (Marshal_Token (token_of_alice (-9223372036854775708))) /\
   100 - -9223372036854775808 = 9223372036854775908) /\
  (let st := ledger_with_full_balance in
   let tx := ApproveCustomerMint "custmintreq_dave_token_1" alice in
   st !! "custmintreq_dave_token_1"
     = Some (Marshal_MintRequest (request_of_dave 1 false)) /\
   st !! "token_1" = Some (Marshal_Token (token_of_alice 100)) /\
   st !! "customer_dave_token_1"
     = Some (Marshal_Customer (customer_dave 9223372036854775807)) /\
   returns tx st = Ok tt /\
   run tx st !! "token_1" = Some (Marshal_Token (token_of_alice 99)) /\
   run tx st !! "customer_dave_token_1"
     = Some (Marshal_Customer (customer_dave (-9223372036854775808)))).
Proof. cbv zeta. split; conjuncts; by_computation. Qed.

(** ** The pincode of a token request *)

(** What the pincode version of [RequestTokenRequest] does once the stored
    name, password hash and country match: it counts the bytes of the code. *)
Lemma RequestTokenRequest_checks_length
  name networkAddress passwordHash country pincode st p :
  st !! networkAddress = Some (Pincode.Marshal_Participant p) ->
  Pincode.Participant.Name p = name ->
  Pincode.Participant.PasswordHash p = passwordHash ->
  Pincode.Participant.Country p = country ->
  Pincode.RequestTokenRequest name networkAddress passwordHash country pincode st =
    if Nat.eqb (String.length pincode) 6
    then (Ok tt,
          <["tokenrequest_" +:+ networkAddress :=
              Pincode.Marshal_TokenRequest
                (Pincode.TokenRequest.mk ("tokenrequest_" +:+ networkAddress)
                                         networkAddress "PENDING" "" pincode)]> st)
    else (Err (Errorf "invalid pincode: must be 6 digits"), st).
Proof.
  intros Hp <- <- <-. unfold Pincode.RequestTokenRequest. tx_step.
  rewrite Hp. tx_step.
  destruct p as [? ? ? ? ? ? ?]. cbn [Pincode.Unmarshal_Participant
    Pincode.Marshal_Participant field String.eqb Ascii.eqb Bool.eqb dec_string
    dec_bool json_error forallb id andb fst snd
    Pincode.Participant.Name Pincode.Participant.PasswordHash
    Pincode.Participant.Country].
  tx_step. rewrite !String.eqb_refl. tx_step.
  destruct (Nat.eqb (String.length pincode) 6); reflexivity.
Qed.

(** C8 at a code of six letters.  The participant of the repository's test
    asks for a token with the pincode "abcdef", which is not six digits:
    the call succeeds and stores a PENDING request with that code. *)
Theorem RequestTokenRequest_accepts_letters :
  six_digits "abcdef" = false /\
  Pincode.RequestTokenRequest "Alice" alice "pass123" "USA" "abcdef"
                              Pincode.ledger_with_alice =
    (Ok tt,
     <["tokenrequest_" +:+ alice :=
         Pincode.Marshal_TokenRequest
           (Pincode.TokenRequest.mk ("tokenrequest_" +:+ alice) alice
                                    "PENDING" "" "abcdef")]>
       Pincode.ledger_with_alice).
Proof.
  split; [reflexivity|].
  exact (RequestTokenRequest_checks_length "Alice" alice "pass123" "USA" "abcdef"
           Pincode.ledger_with_alice
           (Pincode.Participant.mk "Alice" alice "alice" false "pass123" "USA" "")
           ltac:(by_computation) eq_refl eq_refl eq_refl).
Qed.

(** ** What the transactions write *)








Lemma reachable_run_trace ParseFloat allowed tr st :
  reachable_by ParseFloat allowed st ->
  Forall (fun cc => int_args (snd cc) /\ allowed (snd cc)) tr ->
  reachable_by ParseFloat allowed (run_trace ParseFloat tr st).
Proof.
  revert st. induction tr as [|[ctx c] tr IH]; intros st Hst Htr; [done|].
  inversion Htr as [|? ? [Hint Hallowed] Htr']; subst.
  cbn [run_trace]. apply IH; [|done]. now apply reachable_invoke.
Qed.

(** ** The participants of a token *)





Lemma scenario_reachable tr :
  Forall (fun cc => int_args (snd cc) /\ True) tr ->
  reachable ParseFloat_plain (run_trace ParseFloat_plain tr (run InitLedger seeded)).
Proof.
  intros Htr. unfold reachable.
  apply (reachable_run_trace ParseFloat_plain (fun _ => True)); [|exact Htr].
  apply reachable_init. split; [reflexivity|].
  intros k b. unfold seeded. rewrite lookup_singleton.
  case_decide; [|done]. intros [= <-]. eauto.
Qed.


(** ** The life of a transfer request *)


Lemma Marshal_TransferRequest_status x b :
  Marshal_TransferRequest x = Some b ->
  Marshal_TransferRequest (with_Status x (TransferRequest.Status x)) = Some b.
Proof. now destruct x. Qed.








(** ** Approved requests *)







Lemma RequestTokenRequest_overwrites name networkAddress passwordHash country st p :
  st !! networkAddress = Some (Marshal_Participant p) ->
  Participant.Name p = name ->
  Participant.PasswordHash p = passwordHash ->
  Participant.Country p = country ->
  RequestTokenRequest name networkAddress passwordHash country st =
    (Ok tt,
     <["tokenrequest_" +:+ networkAddress :=
         Marshal_TokenRequest
           (TokenRequest.mk ("tokenrequest_" +:+ networkAddress) networkAddress
                            "PENDING" "")]> st).
Proof.
  intros Hp <- <- <-. unfold RequestTokenRequest. tx_step.
  rewrite Hp. tx_step. rewrite Unmarshal_Marshal_Participant. tx_step.
  rewrite !String.eqb_refl. tx_step. reflexivity.
Qed.

Lemma RequestMintCoins_overwrites ctx networkAddress passwordHash amount st p token :
  st !! networkAddress = Some (Marshal_Participant p) ->
  Participant.PasswordHash p = passwordHash ->
  Participant.ClientID p = GetID ctx ->
  st !! Participant.TokenID p = Some (Marshal_Token token) ->
  is_int (Token.Minted token) ->
  Token.Owner token = networkAddress ->
  let reqKey := "mintrequest_" +:+ Participant.TokenID p +:+ "_" +:+ networkAddress in
  RequestMintCoins ctx networkAddress passwordHash amount st =
    (Ok tt,
     <[reqKey := Marshal_MintRequest
                   (MintRequest.mk reqKey (Participant.TokenID p) networkAddress
                                   amount false)]> st).
Proof.
  intros Hp <- Hclient Htok Hint <- reqKey. unfold RequestMintCoins. tx_step.
  rewrite Hp. tx_step. rewrite Unmarshal_Marshal_Participant. tx_step.
  rewrite String.eqb_refl, Hclient, String.eqb_refl. tx_step.
  rewrite Htok. tx_step. rewrite Unmarshal_Marshal_Token by done. tx_step.
  rewrite String.eqb_refl. tx_step. reflexivity.
Qed.

Lemma CustomerRequestMint_overwrites networkAddress tokenID amount st cust :
  st !! ("customer_" +:+ networkAddress +:+ "_" +:+ tokenID)
    = Some (Marshal_Customer cust) ->
  is_int (Customer.Balance cust) ->
  let requestID :=
    "custmintreq_" +:+ Customer.NetworkAddress cust +:+ "_" +:+ tokenID in
  CustomerRequestMint networkAddress tokenID amount st =
    (Ok tt,
     <[requestID := Marshal_MintRequest
                      (MintRequest.mk requestID tokenID
                                      (Customer.NetworkAddress cust) amount false)]> st).
Proof.
  intros Hc Hint requestID. unfold CustomerRequestMint. tx_step.
  rewrite Hc. tx_step. rewrite Unmarshal_Marshal_Customer by done. tx_step.
  reflexivity.
Qed.





(** ** The invariant of the allocation *)

Lemma token_index_Some k i : token_index k = Some i -> 1 <= i <= maxTokens /\ k = token_key i.
Proof.
  unfold token_index. intros H. apply find_some in H as [Hin Heq].
  apply String.eqb_eq in Heq. split; [|done].
  apply list_elem_of_In, elem_of_seqZ in Hin. unfold maxTokens in *. lia.
Qed.

Lemma token_index_None k : token_index k = None -> ~ is_token_key k.
Proof.
  intros H [i [Hi ->]]. rewrite token_index_key in H by done. discriminate.
Qed.

Lemma is_token_key_dec k : {is_token_key k} + {~ is_token_key k}.
Proof.
  destruct (token_index k) as [i|] eqn:H.
  - left. exists i. now apply token_index_Some.
  - right. now apply token_index_None.
Qed.

(** The keys the transactions build from a prefix are no keys of the pool. *)
Lemma not_token_key_by k :
  Forall (fun i => k <> token_key i) (seqZ 1 maxTokens) -> ~ is_token_key k.
Proof.
  intros H [i [Hi Hk]]. revert Hk. now apply (pool_cases (fun i => k <> token_key i)).
Qed.

Ltac not_pool_key := apply not_token_key_by; repeat constructor; discriminate.

Lemma not_token_key_tokenrequest s : ~ is_token_key ("tokenrequest_" +:+ s).
Proof. not_pool_key. Qed.

Lemma not_token_key_mintrequest s : ~ is_token_key ("mintrequest_" +:+ s).
Proof. not_pool_key. Qed.

Lemma not_token_key_custreq s : ~ is_token_key ("custreq_" +:+ s).
Proof. not_pool_key. Qed.

Lemma not_token_key_custmintreq s : ~ is_token_key ("custmintreq_" +:+ s).
Proof. not_pool_key. Qed.

Lemma not_token_key_customer s : ~ is_token_key ("customer_" +:+ s).
Proof. not_pool_key. Qed.

Lemma not_token_key_transfer s : ~ is_token_key ("transfer_" +:+ s).
Proof. not_pool_key. Qed.

Lemma not_token_key_empty : ~ is_token_key "".
Proof. intros [i [Hi H]]. discriminate. Qed.

(** Under the invariant, a key with a record that is no token is no key of
    the pool. *)
Lemma pool_records_key st k b :
  pool_records st -> st !! k = Some b -> is_token_key k ->
  exists i t, 1 <= i <= maxTokens /\ k = token_key i /\ b = Marshal_Token t /\
              token_record st i t.
Proof.
  intros Hpool Hk [i [Hi ->]]. destruct (Hpool i Hi) as [t Ht].
  exists i, t. pose proof Ht as (Hl & _). rewrite Hl in Hk. injection Hk as <-.
  done.
Qed.

Lemma Marshal_Token_inj t1 t2 : Marshal_Token t1 = Marshal_Token t2 -> t1 = t2.
Proof.
  destruct t1 as [? ? ? ? [ids1|]], t2 as [? ? ? ? [ids2|]]; cbn;
    intros [= ]; subst; reflexivity.
Qed.

Lemma Marshal_Participant_inj p1 p2 :
  Marshal_Participant p1 = Marshal_Participant p2 -> p1 = p2.
Proof.
  intros H. apply (f_equal Unmarshal_Participant) in H.
  rewrite !Unmarshal_Marshal_Participant in H. congruence.
Qed.

Lemma no_participant_Token t : no_participant (Marshal_Token t).
Proof. intros p. discriminate. Qed.
Lemma no_participant_TokenRequest r : no_participant (Marshal_TokenRequest r).
Proof. intros p. discriminate. Qed.
Lemma no_participant_MintRequest m : no_participant (Marshal_MintRequest m).
Proof. intros p. discriminate. Qed.
Lemma no_participant_Customer c : no_participant (Marshal_Customer c).
Proof. intros p. discriminate. Qed.
Lemma no_participant_RegisterCustomerRequest q :
  no_participant (Marshal_RegisterCustomerRequest q).
Proof. intros p. discriminate. Qed.
Lemma no_participant_Text s : no_participant (Text s).
Proof. intros p. discriminate. Qed.
Lemma no_participant_TransferRequest x b :
  Marshal_TransferRequest x = Some b -> no_participant b.
Proof.
  unfold Marshal_TransferRequest. destruct (is_finite _); [|done].
  intros [= <-] p. discriminate.
Qed.

(** A record that is no participant, written under a key outside the pool. *)
Lemma invariant_insert st k b :
  allocation_invariant st -> k <> "" -> ~ is_token_key k -> no_participant b ->
  allocation_invariant (<[k := b]> st).
Proof.
  intros (Hempty & Hpool & Hown) Hk Hnot Hb. split; [|split].
  - now rewrite lookup_insert_ne.
  - intros i Hi. destruct (Hpool i Hi) as [t (Hl & Hrest)]. exists t.
    split; [|done]. rewrite lookup_insert_ne; [done|].
    intros ->. apply Hnot. now exists i.
  - intros a p. rewrite lookup_insert. case_decide as Hka.
    + intros [= ->]. now destruct (Hb p).
    + intros Ha Htid. destruct (Hown a p Ha Htid) as (i & t & Hi & Heq & Hl & Ho).
      exists i, t. split; [done|]. split; [done|]. split; [|done].
      rewrite lookup_insert_ne; [done|].
      intros ->. apply Hnot. now exists i.
Qed.

Lemma invariant_delete st k :
  allocation_invariant st -> ~ is_token_key k -> allocation_invariant (delete k st).
Proof.
  intros (Hempty & Hpool & Hown) Hnot. split; [|split].
  - rewrite lookup_delete. now case_decide.
  - intros i Hi. destruct (Hpool i Hi) as [t (Hl & Hrest)]. exists t.
    split; [|done]. rewrite lookup_delete_ne; [done|].
    intros ->. apply Hnot. now exists i.
  - intros a p. rewrite lookup_delete. case_decide as Hka; [done|].
    intros Ha Htid. destruct (Hown a p Ha Htid) as (i & t & Hi & Heq & Hl & Ho).
    exists i, t. split; [done|]. split; [done|]. split; [|done].
    rewrite lookup_delete_ne; [done|].
    intros ->. apply Hnot. now exists i.
Qed.

(** A participant without a token, written under a key outside the pool. *)
Lemma invariant_insert_participant st k p :
  allocation_invariant st -> k <> "" -> ~ is_token_key k ->
  Participant.TokenID p = "" ->
  allocation_invariant (<[k := Marshal_Participant p]> st).
Proof.
  intros (Hempty & Hpool & Hown) Hk Hnot Hp. split; [|split].
  - now rewrite lookup_insert_ne.
  - intros i Hi. destruct (Hpool i Hi) as [t (Hl & Hrest)]. exists t.
    split; [|done]. rewrite lookup_insert_ne; [done|].
    intros ->. apply Hnot. now exists i.
  - intros a q. rewrite lookup_insert. case_decide as Hka.
    + intros Heq. apply (inj Some), Marshal_Participant_inj in Heq. subst q.
      congruence.
    + intros Ha Htid. destruct (Hown a q Ha Htid) as (i & t & Hi & Heq & Hl & Ho).
      exists i, t. split; [done|]. split; [done|]. split; [|done].
      rewrite lookup_insert_ne; [done|].
      intros ->. apply Hnot. now exists i.
Qed.

(** The mint pool of a token of the pool, rewritten. *)
Lemma invariant_minted st i t minted :
  allocation_invariant st -> 1 <= i <= maxTokens ->
  st !! token_key i = Some (Marshal_Token t) -> is_int minted ->
  allocation_invariant (<[token_key i := Marshal_Token (with_Minted t minted)]> st).
Proof.
  intros (Hempty & Hpool & Hown) Hi Ht Hint. split; [|split].
  - rewrite lookup_insert_ne; [done|]. apply token_key_nonempty.
  - intros j Hj. destruct (decide (j = i)) as [->|Hne].
    + destruct (Hpool i Hi) as [u (Hl & Hint' & Hid & Hav)].
      rewrite Hl in Ht. apply (inj Some), Marshal_Token_inj in Ht. subst u.
      exists (with_Minted t minted). split; [apply lookup_insert_eq|]. done.
    + destruct (Hpool j Hj) as [u (Hl & Hrest)]. exists u. split; [|done].
      rewrite lookup_insert_ne; [done|]. intros Heq. apply token_key_inj in Heq; lia.
  - intros a p. rewrite lookup_insert. case_decide as Hka.
    + intros Heq. apply (inj Some) in Heq. discriminate.
    + intros Ha Htid. destruct (Hown a p Ha Htid) as (j & u & Hj & Heq & Hl & Ho).
      destruct (decide (j = i)) as [->|Hne].
      * rewrite Hl in Ht. apply (inj Some), Marshal_Token_inj in Ht. subst u.
        exists i, (with_Minted t minted). split; [done|]. split; [done|].
        split; [|done]. apply lookup_insert_eq.
      * exists j, u. split; [done|]. split; [done|]. split; [|done].
        rewrite lookup_insert_ne; [done|].
        intros Hjk. apply token_key_inj in Hjk; lia.
Qed.

(** Under the invariant a record under a key of the pool decodes as the
    token it is. *)
Lemma pool_key_decodes st k b token :
  allocation_invariant st -> is_token_key k -> st !! k = Some b ->
  Unmarshal_Token b = (token, None) ->
  exists i, 1 <= i <= maxTokens /\ k = token_key i /\ b = Marshal_Token token /\
            token_record st i token.
Proof.
  intros (_ & Hpool & _) Hkey Hk Hdec.
  destruct (pool_records_key st k b Hpool Hk Hkey) as (i & t & Hi & -> & -> & Ht).
  pose proof Ht as (_ & Hint & _).
  rewrite Unmarshal_Marshal_Token in Hdec by done. injection Hdec as <-.
  now exists i.
Qed.

(** A token decoded from the record under a key and written back there with
    another mint pool. *)
Lemma invariant_token_rewritten st k b token minted :
  allocation_invariant st -> st !! k = Some b ->
  Unmarshal_Token b = (token, None) -> is_int minted ->
  allocation_invariant (<[k := Marshal_Token (with_Minted token minted)]> st).
Proof.
  intros Hinv Hk Hdec Hint. destruct (is_token_key_dec k) as [Hkey|Hkey].
  - destruct (pool_key_decodes st k b token Hinv Hkey Hk Hdec)
      as (i & Hi & -> & -> & Ht).
    now apply invariant_minted.
  - apply invariant_insert; [done| |done|apply no_participant_Token].
    intros ->. destruct Hinv as (Hempty & _). congruence.
Qed.

(** The two records of an allocation: the participant with its token id, the
    token with its owner. *)
Lemma invariant_allocation st i t a p :
  allocation_invariant st -> 1 <= i <= maxTokens ->
  st !! token_key i = Some (Marshal_Token t) ->
  Token.Available t = true ->
  a <> "" -> ~ is_token_key a ->
  allocation_invariant
    (<[token_key i := Marshal_Token (owned_Token t a)]>
       (<[a := Marshal_Participant (approved_Participant p (token_key i))]> st)).
Proof.
  intros (Hempty & Hpool & Hown) Hi Ht Hav Ha Hnot.
  assert (Hai : forall j, 1 <= j <= maxTokens -> token_key j <> a).
  { intros j Hj <-. apply Hnot. now exists j. }
  destruct (Hpool i Hi) as [u (Hl & Hint & Hid & Havail)].
  rewrite Hl in Ht. apply (inj Some), Marshal_Token_inj in Ht. subst u.
  assert (Howner : Token.Owner t = "").
  { rewrite Hav in Havail. symmetry in Havail. now apply String.eqb_eq in Havail. }
  split; [|split].
  - rewrite !lookup_insert_ne; [done|done|]. apply token_key_nonempty.
  - intros j Hj. destruct (decide (j = i)) as [->|Hne].
    + exists (owned_Token t a). split; [apply lookup_insert_eq|].
      split; [done|]. split; [done|]. cbn. symmetry. now apply String.eqb_neq.
    + destruct (Hpool j Hj) as [u (Hlu & Hrest)]. exists u. split; [|done].
      rewrite !lookup_insert_ne; [done| |].
      * intros Heq. symmetry in Heq. now apply Hai in Heq.
      * intros Heq. apply token_key_inj in Heq; lia.
  - intros a' q. rewrite lookup_insert. case_decide as Hka.
    { intros Heq. apply (inj Some) in Heq. discriminate. }
    rewrite lookup_insert. case_decide as Hka'.
    + subst a'. intros Heq. apply (inj Some), Marshal_Participant_inj in Heq.
      subst q. intros _. exists i, (owned_Token t a).
      split; [done|]. split; [done|]. split; [apply lookup_insert_eq|done].
    + intros Hq Htid. destruct (Hown a' q Hq Htid) as (j & u & Hj & Heq & Hlu & Ho).
      destruct (decide (j = i)) as [->|Hne].
      * exfalso. rewrite Hl in Hlu. apply (inj Some), Marshal_Token_inj in Hlu.
        subst u. rewrite Howner in Ho. subst a'. congruence.
      * exists j, u. split; [done|]. split; [done|]. split; [|done].
        rewrite !lookup_insert_ne; [done| |].
        -- intros Hja. symmetry in Hja. now apply Hai in Hja.
        -- intros Hji. apply token_key_inj in Hji; lia.
Qed.

(** A record under a key is there, hence the key is not the empty one. *)
Lemma invariant_key_nonempty st k b :
  allocation_invariant st -> st !! k = Some b -> k <> "".
Proof. intros (Hempty & _) Hk ->. congruence. Qed.

(** Reading a token of the pool as a request of another workflow. *)
Lemma Token_as_TransferRequest t :
  TransferRequest.Status (fst (Unmarshal_TransferRequest (Marshal_Token t))) = "".
Proof. reflexivity. Qed.

Lemma Token_as_MintRequest t :
  MintRequest.TokenID (fst (Unmarshal_MintRequest (Marshal_Token t))) = Token.TokenID t.
Proof. reflexivity. Qed.

Lemma absent_not_token_key st k :
  allocation_invariant st -> st !! k = None -> ~ is_token_key k.
Proof.
  intros (_ & Hpool & _) Hk [i [Hi ->]].
  destruct (Hpool i Hi) as [t (Hl & _)]. congruence.
Qed.

Ltac prefixed_key :=
  first [ apply not_token_key_tokenrequest | apply not_token_key_mintrequest
        | apply not_token_key_custreq | apply not_token_key_custmintreq
        | apply not_token_key_customer | apply not_token_key_transfer ].

Ltac other_record :=
  first [ apply no_participant_Token | apply no_participant_TokenRequest
        | apply no_participant_MintRequest | apply no_participant_Customer
        | apply no_participant_RegisterCustomerRequest | apply no_participant_Text
        | eapply no_participant_TransferRequest; eassumption ].

(** The record written under a key built from a prefix. *)
Ltac invariant_kept :=
  cbn [fst snd];
  first [ assumption
        | apply invariant_insert; [assumption | discriminate | prefixed_key | other_record] ].

Lemma SubmitRegistration_invariant ctx name passwordHash country st :
  allocation_invariant st ->
  allocation_invariant (run (SubmitRegistration ctx name passwordHash country) st).
Proof.
  intros Hinv. unfold SubmitRegistration, ParticipantExists. tx_crunch; cbn [fst snd].
  - done.
  - apply invariant_insert_participant; [done| | |done].
    + apply address_of_name_nonempty.
    + eapply absent_not_token_key; [eassumption|].
      now destruct (st !! address_of_name name).
Qed.

Lemma RequestTokenRequest_invariant name networkAddress passwordHash country st :
  allocation_invariant st ->
  allocation_invariant
    (run (RequestTokenRequest name networkAddress passwordHash country) st).
Proof. intros Hinv. unfold RequestTokenRequest. tx_crunch; invariant_kept. Qed.

Lemma RequestMintCoins_invariant ctx networkAddress passwordHash amount st :
  allocation_invariant st ->
  allocation_invariant (run (RequestMintCoins ctx networkAddress passwordHash amount) st).
Proof. intros Hinv. unfold RequestMintCoins. tx_crunch; invariant_kept. Qed.

Lemma RegisterCustomer_invariant networkAddress name passwordHash tokenID st :
  allocation_invariant st ->
  allocation_invariant
    (run (RegisterCustomer networkAddress name passwordHash tokenID) st).
Proof. intros Hinv. unfold RegisterCustomer. tx_crunch; invariant_kept. Qed.

Lemma CustomerRequestMint_invariant networkAddress tokenID amount st :
  allocation_invariant st ->
  allocation_invariant (run (CustomerRequestMint networkAddress tokenID amount) st).
Proof. intros Hinv. unfold CustomerRequestMint. tx_crunch; invariant_kept. Qed.

Lemma CreateTransferRequest_invariant ParseFloat sender receiver senderToken
  receiverToken tokenID amountStr NewRandom st :
  allocation_invariant st ->
  allocation_invariant
    (run (CreateTransferRequest ParseFloat sender receiver senderToken receiverToken
                                tokenID amountStr NewRandom) st).
Proof. intros Hinv. unfold CreateTransferRequest. tx_crunch; invariant_kept. Qed.

Lemma invariant_token_written st k b minted :
  allocation_invariant st -> st !! k = Some b ->
  snd (Unmarshal_Token b) = None -> is_int minted ->
  allocation_invariant
    (<[k := Marshal_Token (with_Minted (fst (Unmarshal_Token b)) minted)]> st).
Proof.
  intros Hinv Hk Hdec Hint.
  apply invariant_token_rewritten with b; try done.
  destruct (Unmarshal_Token b) as [token err]. cbn in *. now subst.
Qed.

(** The key of a record with a transfer status is no key of the pool. *)
Lemma status_not_token_key st id b :
  allocation_invariant st -> st !! id = Some b ->
  TransferRequest.Status (fst (Unmarshal_TransferRequest b)) <> "" ->
  ~ is_token_key id.
Proof.
  intros (_ & Hpool & _) Hid Hstatus Hkey.
  destruct (pool_records_key st id b Hpool Hid Hkey) as (i & t & _ & _ & -> & _).
  now apply Hstatus.
Qed.

(** The key of a balance record is no key of the pool. *)
Lemma balance_not_token_key ParseFloat st k b f :
  allocation_invariant st -> st !! k = Some b ->
  ParseFloat_bytes ParseFloat b = Some f -> ~ is_token_key k.
Proof.
  intros (_ & Hpool & _) Hk Hparse Hkey.
  destruct (pool_records_key st k b Hpool Hk Hkey) as (i & t & _ & _ & -> & _).
  discriminate.
Qed.

Lemma status_eqb_nonempty s literal :
  negb (String.eqb s literal) = false -> literal <> "" -> s <> "".
Proof. intros H%negb_false_iff%String.eqb_eq. congruence. Qed.

Lemma ApproveTransferByOwner_invariant transferRequestID approver st :
  allocation_invariant st ->
  allocation_invariant (run (ApproveTransferByOwner transferRequestID approver) st).
Proof.
  intros Hinv. unfold ApproveTransferByOwner. tx_crunch; cbn [fst snd]; try done.
  - apply invariant_insert; [done| | |].
    + eapply invariant_key_nonempty; eassumption.
    + eapply status_not_token_key; [eassumption..|].
      eapply status_eqb_nonempty; [eassumption|discriminate].
    + eapply no_participant_TransferRequest; eassumption.
  - apply invariant_delete; [done|].
    eapply status_not_token_key; [eassumption..|].
    eapply status_eqb_nonempty; [eassumption|discriminate].
Qed.

Lemma balance_not_decoded ParseFloat b f :
  ParseFloat_bytes ParseFloat b = Some f -> snd (Unmarshal_Token b) <> None.
Proof. destruct b; [discriminate|]. intros _. discriminate. Qed.

Lemma ApproveTransferByReceiver_invariant ParseFloat transferRequestID approver st :
  allocation_invariant st ->
  allocation_invariant
    (run (ApproveTransferByReceiver ParseFloat transferRequestID approver) st).
Proof.
  intros Hinv. unfold run, ApproveTransferByReceiver. tx_step.
  destruct (st !! transferRequestID) as [b|] eqn:Hid; tx_step; [|done].
  destruct (snd (Unmarshal_TransferRequest b)) eqn:Herr; tx_step; [done|].
  destruct (negb (String.eqb (TransferRequest.Status _) _)) eqn:Hstatus;
    tx_step; [done|].
  assert (Hidkey : ~ is_token_key transferRequestID).
  { eapply status_not_token_key; [eassumption..|].
    eapply status_eqb_nonempty; [eassumption|discriminate]. }
  assert (Hidne : transferRequestID <> "") by eauto using invariant_key_nonempty.
  destruct (st !! TransferRequest.TokenID _) as [b0|] eqn:Htok; tx_step; [|done].
  destruct (snd (Unmarshal_Token b0)) eqn:Hdec; tx_step; [done|].
  destruct (negb (String.eqb (Token.Owner _) approver)); tx_step; [done|].
  destruct (st !! TransferRequest.SenderTransferID (fst (Unmarshal_TransferRequest b)))
    as [b1|] eqn:Hbal; tx_step; [|done].
  destruct (ParseFloat_bytes ParseFloat b1) as [f|] eqn:Hparse; tx_step; [|done].
  destruct (PrimFloat.ltb _ _); tx_step.
  - destruct (Marshal_TransferRequest _) as [rejected|] eqn:Hm; tx_step; cbn [fst snd].
    + apply invariant_insert; eauto using no_participant_TransferRequest.
    + now apply invariant_delete.
  - set (st1 := <[TransferRequest.SenderTransferID _ := _]> st).
    assert (Hst1 : allocation_invariant st1).
    { apply invariant_insert;
        eauto using invariant_key_nonempty, balance_not_token_key, no_participant_Text. }
    assert (Htok1 : st1 !! TransferRequest.TokenID (fst (Unmarshal_TransferRequest b))
                    = Some b0).
    { unfold st1. rewrite lookup_insert_ne; [done|]. intros Heq.
      rewrite Heq, Htok in Hbal. injection Hbal as <-.
      now apply balance_not_decoded in Hparse. }
    pose proof (invariant_token_written st1 _ b0
                  (add_int (Token.Minted (fst (Unmarshal_Token b0)))
                           (int_of_float64
                              (TransferRequest.Amount (fst (Unmarshal_TransferRequest b)))))
                  Hst1 Htok1 Hdec (wrap_int_is_int _)) as Hst2.
    destruct (Marshal_TransferRequest _) as [completed|] eqn:Hm; tx_step; cbn [fst snd].
    + apply invariant_insert; eauto using no_participant_TransferRequest.
    + now apply invariant_delete.
Qed.

Lemma ApproveMintRequest_invariant ctx requestID st :
  allocation_invariant st -> ~ is_token_key requestID ->
  allocation_invariant (run (ApproveMintRequest ctx requestID) st).
Proof.
  intros Hinv Hsafe. unfold run, ApproveMintRequest. tx_step.
  destruct (negb _); tx_step; [done|].
  destruct (st !! requestID) as [b|] eqn:Hid; tx_step; [|done].
  destruct (snd (Unmarshal_MintRequest b)) eqn:Herr; tx_step; [done|].
  destruct (MintRequest.Approved _); tx_step; [done|].
  set (st1 := <[requestID := _]> st).
  assert (Hst1 : allocation_invariant st1).
  { apply invariant_insert;
      eauto using invariant_key_nonempty, no_participant_MintRequest. }
  destruct (st1 !! MintRequest.TokenID (fst (Unmarshal_MintRequest b)))
    as [b0|] eqn:Htok; tx_step; [|done].
  destruct (snd (Unmarshal_Token b0)) eqn:Hdec; tx_step; [done|].
  cbn [fst snd].
  exact (invariant_token_written st1 _ b0 _ Hst1 Htok Hdec (wrap_int_is_int _)).
Qed.

Lemma ApproveCustomerRegistration_invariant requestID owner st :
  allocation_invariant st -> ~ is_token_key requestID ->
  allocation_invariant (run (ApproveCustomerRegistration requestID owner) st).
Proof.
  intros Hinv Hsafe. unfold run, ApproveCustomerRegistration. tx_step.
  destruct (st !! requestID) as [b|] eqn:Hid; tx_step; [|done].
  destruct (snd (Unmarshal_RegisterCustomerRequest b)) eqn:Herr; tx_step; [done|].
  destruct (st !! RegisterCustomerRequest.TokenID _) as [b0|]; tx_step; [|done].
  destruct (snd (Unmarshal_Token b0)); tx_step; [done|].
  destruct (negb _); tx_step; [done|].
  destruct (RegisterCustomerRequest.Approved _); tx_step; [done|].
  cbn [fst snd]. apply invariant_insert; [|discriminate|prefixed_key|other_record].
  apply invariant_insert;
    eauto using invariant_key_nonempty, no_participant_RegisterCustomerRequest.
Qed.

(** Under the invariant the scan returns nothing or the key of an available
    token of the pool, and writes nothing. *)
Lemma findAvailableToken_loop_pool n i st :
  pool_records st -> 1 <= i -> i + Z.of_nat n <= maxTokens + 1 ->
  findAvailableToken_loop n i st = (Ok "", st) \/
  exists j t, 1 <= j <= maxTokens /\ token_record st j t /\
              Token.Available t = true /\
              findAvailableToken_loop n i st = (Ok (token_key j), st).
Proof.
  intros Hpool. revert i. induction n as [|n IH]; intros i Hi Hn; [now left|].
  cbn [findAvailableToken_loop]. tx_step.
  destruct (Hpool i ltac:(lia)) as [t Ht]. pose proof Ht as (Hl & Hint & _).
  rewrite Hl. tx_step. rewrite Unmarshal_Marshal_Token by done. tx_step.
  destruct (Token.Available t) eqn:Hav.
  - right. exists i, t. split; [lia|]. done.
  - apply IH; lia.
Qed.

Lemma ApproveTokenRequest_invariant ctx networkAddress st :
  allocation_invariant st -> ~ is_token_key networkAddress ->
  allocation_invariant (run (ApproveTokenRequest ctx networkAddress) st).
Proof.
  intros Hinv Hsafe. unfold run, ApproveTokenRequest. tx_step.
  destruct (negb _); tx_step; [done|].
  destruct (st !! ("tokenrequest_" +:+ networkAddress)) as [rb|] eqn:Hreq;
    tx_step; [|done].
  destruct (negb _); tx_step; [done|].
  pose proof Hinv as (_ & Hpool & _).
  unfold findAvailableToken.
  destruct (findAvailableToken_loop_pool (Z.to_nat maxTokens) 1 st Hpool)
    as [Hnone|(i & t & Hi & Ht & Hav & Hfirst)];
    [lia|unfold maxTokens; simpl; lia| |].
  { rewrite bind_run, Hnone. now tx_step. }
  rewrite bind_run, Hfirst. tx_step. rewrite token_key_eqb_empty. tx_step.
  set (st1 := <["tokenrequest_" +:+ networkAddress := _]> st).
  assert (Hst1 : allocation_invariant st1).
  { apply invariant_insert; [done|discriminate|prefixed_key|other_record]. }
  destruct (st1 !! networkAddress) as [pb|] eqn:Hp; tx_step; [|done].
  pose proof Ht as (Hl & Hint & _).
  assert (Hl1 : st1 !! token_key i = Some (Marshal_Token t)).
  { unfold st1. rewrite lookup_insert_ne; [done|].
    intros Heq. apply (not_token_key_tokenrequest networkAddress).
    rewrite Heq. now exists i. }
  assert (Hne : networkAddress <> token_key i).
  { intros ->. apply Hsafe. exists i. split; [exact Hi|reflexivity]. }
  rewrite (lookup_insert_ne st1 networkAddress (token_key i)), Hl1 by exact Hne.
  tx_step. rewrite Unmarshal_Marshal_Token by done. cbn [fst snd].
  apply (invariant_allocation st1 i t networkAddress (fst (Unmarshal_Participant pb)));
    eauto using invariant_key_nonempty.
Qed.

Lemma ApproveCustomerMint_invariant requestID owner st :
  allocation_invariant st ->
  allocation_invariant (run (ApproveCustomerMint requestID owner) st).
Proof.
  intros Hinv. unfold run, ApproveCustomerMint. tx_step.
  destruct (st !! requestID) as [b|] eqn:Hid; tx_step; [|done].
  destruct (snd (Unmarshal_MintRequest b)) eqn:Herr; tx_step; [done|].
  destruct (st !! MintRequest.TokenID (fst (Unmarshal_MintRequest b)))
    as [tb|] eqn:Htok; tx_step; [|done].
  destruct (snd (Unmarshal_Token tb)) eqn:Hdec; tx_step; [done|].
  destruct (negb _); tx_step; [done|].
  destruct (MintRequest.Approved _); tx_step; [done|].
  destruct (Token.Minted _ <? _); tx_step; [done|].
  set (k := MintRequest.TokenID (fst (Unmarshal_MintRequest b))) in *.
  set (token := Marshal_Token _).
  set (request := Marshal_MintRequest _).
  assert (Hst2 : allocation_invariant (<[k := token]> (<[requestID := request]> st))).
  { destruct (decide (k = requestID)) as [Heq|Hne].
    - rewrite Heq, insert_insert_eq. rewrite Heq in Htok.
      exact (invariant_token_written st requestID tb _ Hinv Htok Hdec (wrap_int_is_int _)).
    - assert (Hkey : ~ is_token_key requestID).
      { intros Hkey. destruct Hinv as (_ & Hpool & _).
        destruct (pool_records_key st requestID b Hpool Hid Hkey)
          as (i & t & Hi & -> & -> & (_ & _ & Htid & _)).
        apply Hne. unfold k. now rewrite Token_as_MintRequest. }
      assert (Hst1 : allocation_invariant (<[requestID := request]> st)).
      { apply invariant_insert;
          eauto using invariant_key_nonempty, no_participant_MintRequest. }
      apply (invariant_token_written _ k tb _ Hst1); [|done|apply wrap_int_is_int].
      now rewrite lookup_insert_ne. }
  destruct (_ !! ("customer_" +:+ _)) as [cb|]; tx_step; [|done].
  destruct (snd (Unmarshal_Customer cb)); tx_step; [done|].
  cbn [fst snd]. apply invariant_insert; [done|discriminate|prefixed_key|other_record].
Qed.

(** ** The invariant on the reachable ledgers *)

Lemma run_then_ret {A} (m : Tx A) st : run (m ;; mret tt) st = run m st.
Proof.
  unfold run, mbind, Tx_bind, mret, Tx_ret. now destruct (m st) as [[a|e] st'].
Qed.

Lemma invoke_invariant ParseFloat ctx c st :
  allocation_invariant st -> pool_safe c ->
  allocation_invariant (run (invoke ParseFloat ctx c) st).
Proof.
  intros Hinv Hsafe. destruct c; cbn [invoke pool_safe] in *;
    rewrite ?run_then_ret;
    eauto using SubmitRegistration_invariant, RequestTokenRequest_invariant,
      ApproveTokenRequest_invariant, RequestMintCoins_invariant,
      ApproveMintRequest_invariant, RegisterCustomer_invariant,
      ApproveCustomerRegistration_invariant, CustomerRequestMint_invariant,
      ApproveCustomerMint_invariant, CreateTransferRequest_invariant,
      ApproveTransferByOwner_invariant, ApproveTransferByReceiver_invariant.
  done.
Qed.

Lemma InitLedger_invariant seed :
  balances_only seed -> allocation_invariant (run InitLedger seed).
Proof.
  intros [Hempty Hseed].
  assert (Htoken : forall i, 1 <= i <= maxTokens ->
            run InitLedger seed !! token_key i
            = Some (Marshal_Token (fresh_token (token_key i)))).
  { intros i Hi. apply InitLedger_loop_token; unfold maxTokens in *; simpl; lia. }
  assert (Hother : forall k, ~ is_token_key k -> run InitLedger seed !! k = seed !! k).
  { intros k Hk. apply InitLedger_loop_other. intros j Hj ->. apply Hk.
    exists j. split; [|done]. unfold maxTokens in *. simpl in Hj. lia. }
  split; [|split].
  - rewrite Hother; [done|apply not_token_key_empty].
  - intros i Hi. exists (fresh_token (token_key i)).
    split; [now apply Htoken|]. now cbn.
  - intros a p Ha _. exfalso. destruct (is_token_key_dec a) as [[i [Hi ->]]|Hkey].
    + rewrite Htoken in Ha by done. discriminate.
    + rewrite Hother in Ha by done. apply Hseed in Ha as [s Hs]. discriminate.
Qed.

Lemma reachable_allocation_invariant ParseFloat st :
  reachable_by ParseFloat pool_safe st -> allocation_invariant st.
Proof.
  induction 1 as [seed Hseed|st ctx c _ IH _ Hsafe].
  - now apply InitLedger_invariant.
  - now apply invoke_invariant.
Qed.

(** Under the invariant a token of the pool is counted once: as available,
    or as owned. *)
Lemma token_at_record st i t : token_record st i t -> token_at st i = t.
Proof.
  intros (Hl & Hint & _). unfold token_at. rewrite Hl.
  now rewrite Unmarshal_Marshal_Token.
Qed.

Lemma owned_not_available st i :
  pool_records st -> 1 <= i <= maxTokens ->
  is_owned st i = negb (is_available st i).
Proof.
  intros Hpool Hi. destruct (Hpool i Hi) as [t Ht].
  unfold is_owned, is_available. rewrite (token_at_record st i t Ht).
  destruct Ht as (_ & _ & _ & ->). reflexivity.
Qed.

Lemma pool_count st :
  pool_records st -> (count_available st + count_owned st = 25)%nat.
Proof.
  intros Hpool. unfold count_available, count_owned.
  rewrite (filter_ext_in (is_owned st) (fun i => negb (is_available st i))).
  - now rewrite filter_length, length_seqZ.
  - intros i Hi. apply owned_not_available; [done|].
    apply list_elem_of_In, elem_of_seqZ in Hi. unfold maxTokens in *. lia.
Qed.

Lemma allocation_pool_invariant st : allocation_invariant st -> pool_invariant st.
Proof.
  intros (_ & Hpool & Hown). split; [now apply pool_count|]. split.
  - intros i a1 a2 _ [_ H1] [_ H2]. congruence.
  - intros a1 a2 tid [Htid (p1 & Hp1 & Ht1)] [_ (p2 & Hp2 & Ht2)].
    destruct (Hown a1 p1 Hp1) as (i & t & Hi & Hki & Hli & Hoi); [congruence|].
    destruct (Hown a2 p2 Hp2) as (j & u & Hj & Hkj & Hlj & Hoj); [congruence|].
    assert (i = j) as <- by (apply token_key_inj; congruence).
    rewrite Hli in Hlj. apply (inj Some), Marshal_Token_inj in Hlj. congruence.
Qed.

Lemma seeded_balances_only : balances_only seeded.
Proof.
  split; [reflexivity|].
  intros k b. unfold seeded. rewrite lookup_singleton.
  case_decide; [|done]. intros [= <-]. eauto.
Qed.

(** C5, with the invocations that keep to the pool.  In every state reachable
    from an initialized ledger of 25 tokens by invocations other than a
    further [InitLedger], none of which passes a key of the pool as the
    address of [ApproveTokenRequest] or as the request id of
    [ApproveMintRequest] or [ApproveCustomerRegistration]: the tokens that are
    available and the tokens that have an owner are 25 together, a token has
    at most one owner, and no two participants are assigned the same token
    id. *)
Theorem pool_invariant_reachable ParseFloat st :
  reachable_by ParseFloat pool_safe st -> pool_invariant st.
Proof.
  intros Hst. now apply allocation_pool_invariant, (reachable_allocation_invariant ParseFloat).
Qed.

Lemma pool_invariant_reachable_witness :
  reachable_by ParseFloat_plain pool_safe ledger_completed /\
  pool_invariant ledger_completed.
Proof.
  assert (H : reachable_by ParseFloat_plain pool_safe ledger_completed).
  { apply (reachable_run_trace ParseFloat_plain pool_safe
             (tail allocation ++ minting ++ transfer "80" ++
              [ (alice_client, Invoke_ApproveTransferByReceiver "transfer_0001" alice) ])
             (run InitLedger seeded)).
    - apply reachable_init, seeded_balances_only.
    - repeat constructor; try by_computation; now apply token_index_None. }
  exact (conj H (pool_invariant_reachable ParseFloat_plain ledger_completed H)).
Defined.

(** C5 as stated fails on reachable ledgers.  A second [InitLedger] makes
    [token_1], which Alice was given, available again, and the next approval
    gives it to Bob: both participants are assigned [token_1].  And the key
    of a token passed to [ApproveCustomerRegistration] as the request id, or
    to [ApproveTokenRequest] as the address, has a record that is no token
    written under it: that token is then neither available nor owned, and
    the count is 24. *)
Lemma pool_invariant_broken :
  reachable ParseFloat_plain ledger_reinitialized /\
  assigned ledger_reinitialized alice "token_1" /\
  assigned ledger_reinitialized bob "token_1" /\
  alice <> bob /\
  reachable ParseFloat_plain ledger_with_token_as_request /\
  (count_available ledger_with_token_as_request
   + count_owned ledger_with_token_as_request = 24)%nat /\
  reachable ParseFloat_plain ledger_with_token_as_participant /\
  (count_available ledger_with_token_as_participant
   + count_owned ledger_with_token_as_participant = 24)%nat.
Proof.
  conjuncts.
  - apply (scenario_reachable
             (tail allocation ++
              [ (admin, Invoke_InitLedger);
                (bob_client, Invoke_SubmitRegistration "Bob" "pw2" "FR");
                (bob_client, Invoke_RequestTokenRequest "Bob" bob "pw2" "FR");
                (admin, Invoke_ApproveTokenRequest bob) ])).
    repeat constructor.
  - split; [discriminate|].
    exists (Participant.mk "Alice" alice "alice" true "pw" "IN" "token_1" None).
    split; by_computation.
  - split; [discriminate|].
    exists (Participant.mk "Bob" bob "bob" true "pw2" "FR" "token_1" None).
    split; by_computation.
  - discriminate.
  - apply (scenario_reachable
             [ (alice_client, Invoke_ApproveCustomerRegistration "token_1" "") ]).
    repeat constructor.
  - by_computation.
  - apply (scenario_reachable
             [ (alice_client, Invoke_RequestTokenRequest "" "token_2" "" "");
               (admin, Invoke_ApproveTokenRequest "token_2") ]).
    repeat constructor.
  - by_computation.
Qed.


(** ** Network addresses *)

Lemma hexdigit_is_hex z : is_hex_digit (SHA256.hexdigit z) = true.
Proof.
  unfold SHA256.hexdigit.
  assert (H : (Z.to_nat (z mod 16) < 16)%nat) by (pose proof (Z.mod_pos_bound z 16); lia).
  revert H. generalize (Z.to_nat (z mod 16)). intros n Hn.
  do 16 (destruct n as [|n]; [reflexivity|]). lia.
Qed.

Lemma lowercase_hex_prefix p s :
  lowercase_hex s = true -> String.prefix p s = true -> lowercase_hex p = true.
Proof.
  unfold lowercase_hex. revert s. induction p as [|c p IH]; intros s; [done|].
  destruct s as [|a s]; [done|]. cbn.
  destruct (ascii_dec c a) as [->|]; [|done].
  intros [Ha Hs]%andb_prop Hp. rewrite Ha. cbn. now apply (IH s).
Qed.

Lemma prefix_append p s : String.prefix p (p +:+ s) = true.
Proof.
  induction p as [|c p IH]; [now destruct s|].
  change (String c p +:+ s) with (String c (p +:+ s)).
  change (String.prefix (String c p) (String c (p +:+ s)))
    with (if ascii_dec c c then String.prefix p (p +:+ s) else false).
  destruct (ascii_dec c c); [exact IH|done].
Qed.

(** X1.  The network address of a name is the SHA-256 of the name in
    hexadecimal: 64 characters among [0-9a-f], whatever the name.  So it is
    no key of the token pool and begins with none of the prefixes under
    which the contract stores its other records: a registration never writes
    over one of them. *)
Theorem address_of_name_shape name :
  String.length (address_of_name name) = 64%nat /\
  lowercase_hex (address_of_name name) = true /\
  ~ is_token_key (address_of_name name) /\
  Forall (fun p => String.prefix p (address_of_name name) = false) record_prefixes.
Proof.
  unfold address_of_name.
  destruct (SHA256.Sum256 name) as [[[[[[[a b] c] d] e] f] g] h].
  assert (Hlen : String.length (SHA256.EncodeToString (a, b, c, d, e, f, g, h)) = 64%nat)
    by reflexivity.
  assert (Hhex : lowercase_hex (SHA256.EncodeToString (a, b, c, d, e, f, g, h)) = true).
  { unfold lowercase_hex, SHA256.EncodeToString, SHA256.hex_word.
    cbn [list_ascii_of_string forallb]. rewrite !hexdigit_is_hex. reflexivity. }
  assert (Hpre : Forall (fun p => String.prefix p
                                    (SHA256.EncodeToString (a, b, c, d, e, f, g, h))
                                  = false) record_prefixes).
  { unfold record_prefixes.
    repeat (constructor;
            [apply not_true_is_false; intros Hp;
             now apply (lowercase_hex_prefix _ _ Hhex) in Hp|]).
    constructor. }
  split; [done|]. split; [done|]. split; [|done].
  intros [i [Hi Hkey]]. rewrite Hkey in Hpre.
  inversion Hpre as [|? ? Htoken _]. unfold token_key in Htoken.
  rewrite prefix_append in Htoken. discriminate.
Qed.

(** ** Reading the ledger *)

Lemma bind_GetStateByRange {B : Type} (f : list (string * bytes) -> Tx B) st :
  (GetStateByRange ≫= f) st = f (merge_sort key_le (map_to_list st)) st.
Proof. reflexivity. Qed.

Lemma bind_GetQueryResult {B : Type} sel (f : list bytes -> Tx B) st :
  (GetQueryResult sel ≫= f) st
  = f (List.filter (selected sel) (map snd (map_to_list st))) st.
Proof. reflexivity. Qed.

Ltac query_step :=
  repeat first [ rewrite bind_GetStateByRange | rewrite bind_GetQueryResult
               | progress tx_step ].

Ltac query_crunch := unfold returns, run; repeat (query_step; try tx_case).

(** ** Registration *)

(** X2.  The address is derived from the name alone: once a name has been
    submitted, a further registration of that name fails with "participant
    already exists" and writes nothing, whatever its password hash, its
    country and its caller (the first submission itself may have failed for
    that reason).  The same holds of the contract with a pincode. *)
Theorem SubmitRegistration_once ctx1 ctx2 name pw1 country1 pw2 country2 st :
  (let st1 := run (SubmitRegistration ctx1 name pw1 country1) st in
   SubmitRegistration ctx2 name pw2 country2 st1
   = (Err (Errorf "participant already exists"), st1)) /\
  (let st1 := run (Pincode.SubmitRegistration ctx1 name pw1 country1) st in
   Pincode.SubmitRegistration ctx2 name pw2 country2 st1
   = (Err (Errorf "participant already exists"), st1)).
Proof.
  split; intros st1; subst st1;
    unfold run, SubmitRegistration, Pincode.SubmitRegistration, ParticipantExists;
    tx_step.
  all: destruct (st !! address_of_name name) as [b|] eqn:Hb; tx_step.
  all: rewrite ?lookup_insert_eq, ?Hb; reflexivity.
Qed.

(** X3.  A token request is accepted exactly when the name, the password
    hash and the country are those of the participant stored under the
    address: right after a [SubmitRegistration] with a name, a password hash
    and a country that are valid UTF-8 (so that the participant is stored
    with them as they are) the same details give a [PENDING] request under
    ["tokenrequest_" + address], and any other details fail with
    "participant details do not match" and write nothing. *)
Theorem RequestTokenRequest_after_registration ctx name pw country st :
  st !! address_of_name name = None ->
  valid_utf8 name = true -> valid_utf8 pw = true -> valid_utf8 country = true ->
  let addr := address_of_name name in
  let st1 := run (SubmitRegistration ctx name pw country) st in
  returns (SubmitRegistration ctx name pw country) st = Ok addr /\
  RequestTokenRequest name addr pw country st1
  = (Ok tt,
     <["tokenrequest_" +:+ addr :=
         Marshal_TokenRequest
           (TokenRequest.mk ("tokenrequest_" +:+ addr) addr "PENDING" "")]> st1) /\
  (forall name' pw' country',
      (name', pw', country') <> (name, pw, country) ->
      RequestTokenRequest name' addr pw' country' st1
      = (Err (Errorf "participant details do not match"), st1)).
Proof.
  intros Hnone _ _ _ addr st1.
  assert (Hst1 : st1 = <[addr := Marshal_Participant
                                  (Participant.mk name addr (GetID ctx) false pw
                                                  country "" None)]> st).
  { unfold st1, run, SubmitRegistration, ParticipantExists. tx_step.
    rewrite Hnone. tx_step. reflexivity. }
  assert (Hl : st1 !! addr
               = Some (Marshal_Participant
                         (Participant.mk name addr (GetID ctx) false pw country "" None))).
  { rewrite Hst1. apply lookup_insert_eq. }
  clearbody st1. split; [|split].
  - unfold returns, SubmitRegistration, ParticipantExists. tx_step.
    rewrite Hnone. tx_step. reflexivity.
  - now apply RequestTokenRequest_overwrites
      with (p := Participant.mk name addr (GetID ctx) false pw country "" None).
  - intros name' pw' country' Hne. unfold RequestTokenRequest. tx_step.
    rewrite Hl. tx_step.
    rewrite Unmarshal_Marshal_Participant. tx_step.
    destruct (String.eqb_spec name name') as [<-|]; tx_step; [|reflexivity].
    destruct (String.eqb_spec pw pw') as [<-|]; tx_step; [|reflexivity].
    destruct (String.eqb_spec country country') as [<-|]; tx_step; [|reflexivity].
    congruence.
Qed.

Lemma RequestTokenRequest_after_registration_witness :
  returns (SubmitRegistration alice_client "Alice" "pw" "IN") (run InitLedger seeded)
  = Ok alice /\
  RequestTokenRequest "Alice" alice "pw" "ES"
    (run (SubmitRegistration alice_client "Alice" "pw" "IN") (run InitLedger seeded))
  = (Err (Errorf "participant details do not match"),
     run (SubmitRegistration alice_client "Alice" "pw" "IN") (run InitLedger seeded)).
Proof.
  pose proof (RequestTokenRequest_after_registration alice_client "Alice" "pw" "IN"
                (run InitLedger seeded) ltac:(by_computation)
                eq_refl eq_refl eq_refl) as (H1 & _ & H3).
  exact (conj H1 (H3 "Alice" "pw" "ES" ltac:(discriminate))).
Defined.

(** ** The administrator *)

(** X4.  The four transactions of the administrator refuse every caller
    whose MSP is not [Org1MSP], before they read anything: they fail with
    "access denied: admin only" and write nothing. *)
Theorem admin_only ctx st :
  GetMSPID ctx <> "Org1MSP" ->
  (forall networkAddress,
      ApproveTokenRequest ctx networkAddress st
      = (Err (Errorf "access denied: admin only"), st)) /\
  (forall requestID,
      ApproveMintRequest ctx requestID st
      = (Err (Errorf "access denied: admin only"), st)) /\
  GetPendingTokenRequests ctx st = (Err (Errorf "access denied: admin only"), st) /\
  GetPendingMintRequests ctx st = (Err (Errorf "access denied: admin only"), st).
Proof.
  intros Hmsp%String.eqb_neq.
  unfold ApproveTokenRequest, ApproveMintRequest, GetPendingTokenRequests,
    GetPendingMintRequests.
  conjuncts; intros; tx_step; rewrite Hmsp; reflexivity.
Qed.

Lemma admin_only_witness :
  ApproveTokenRequest mockNonAdminIdentity bob ledger_with_request_of_bob
  = (Err (Errorf "access denied: admin only"), ledger_with_request_of_bob) /\
  GetPendingTokenRequests mockNonAdminIdentity ledger_with_request_of_bob
  = (Err (Errorf "access denied: admin only"), ledger_with_request_of_bob).
Proof.
  pose proof (admin_only mockNonAdminIdentity ledger_with_request_of_bob
                ltac:(discriminate)) as (H1 & _ & H3 & _).
  exact (conj (H1 bob) H3).
Defined.

(** X5.  The queries of the contract write nothing, whether they answer or
    fail. *)
Theorem queries_write_nothing ctx st :
  run (GetPendingTokenRequests ctx) st = st /\
  run (GetPendingMintRequests ctx) st = st /\
  run ViewAllTokens st = st /\
  (forall a pw, run (GetTokenAccess a pw) st = st) /\
  (forall a pw, run (GetWalletInfo ctx a pw) st = st) /\
  (forall a tid pw, run (ViewCustomerWallet a tid pw) st = st) /\
  (forall tid owner, run (ViewPendingCustomerRegistrations tid owner) st = st) /\
  (forall tid owner, run (ViewPendingCustomerMintRequests tid owner) st = st) /\
  (forall id, run (ViewTransferRequestsForOwner id) st = st) /\
  (forall id, run (ViewTransferRequestsForReceiver id) st = st) /\
  (forall id, run (GetParticipantTransferHistory id) st = st) /\
  (forall id, run (GetParticipantTransferHistorybyowner id) st = st) /\
  (forall tid, run (GetTokenTransferHistory tid) st = st) /\
  (forall a, run (ParticipantExists a) st = st).
Proof.
  unfold GetPendingTokenRequests, GetPendingMintRequests, ViewAllTokens,
    GetTokenAccess, GetWalletInfo, ViewCustomerWallet,
    ViewPendingCustomerRegistrations, ViewPendingCustomerMintRequests,
    ViewTransferRequestsForOwner, ViewTransferRequestsForReceiver,
    GetParticipantTransferHistory, GetParticipantTransferHistorybyowner,
    GetTokenTransferHistory, ParticipantExists.
  conjuncts; intros; query_crunch; reflexivity.
Qed.

(** ** Listings *)

(** What a listing holds, whatever the order of the scan: the records
    decoded without error from the keys with the prefix, that are kept. *)
Lemma listing_In {A : Type} p (Unmarshal : bytes -> A * option error) keep st x :
  In x (listing p Unmarshal keep (merge_sort key_le (map_to_list st))) <->
  exists k b, st !! k = Some b /\ String.prefix p k = true /\
              Unmarshal b = (x, None) /\ keep x = true.
Proof.
  unfold listing. rewrite in_flat_map. split.
  - intros [[k b] [Hin Hx]]. cbn [fst snd] in Hx.
    apply list_elem_of_In in Hin. rewrite merge_sort_Permutation in Hin.
    apply elem_of_map_to_list in Hin. exists k, b.
    destruct (String.prefix p k); [|done].
    destruct (Unmarshal b) as [y [e|]]; [done|].
    destruct (keep y) eqn:Hkeep; [|done].
    destruct Hx as [<-|[]]. done.
  - intros (k & b & Hk & Hp & Hb & Hkeep). exists (k, b). split.
    + apply list_elem_of_In. rewrite merge_sort_Permutation.
      now apply elem_of_map_to_list.
    + cbn [fst snd]. rewrite Hp, Hb, Hkeep. now left.
Qed.

(** ** Keys built from other keys *)

Lemma length_append s1 s2 :
  String.length (s1 +:+ s2) = (String.length s1 + String.length s2)%nat.
Proof.
  induction s1 as [|c s1 IH]; [done|].
  change (S (String.length (s1 +:+ s2))
          = S (String.length s1 + String.length s2)). now rewrite IH.
Qed.

Lemma append_longer p s q : p <> "" -> p +:+ s +:+ q <> s.
Proof.
  intros Hp Heq. apply (f_equal String.length) in Heq.
  rewrite !length_append in Heq. destruct p; [done|]. cbn in Heq. lia.
Qed.

Lemma append_longer_right p s q : p <> "" -> p +:+ q +:+ "_" +:+ s <> s.
Proof.
  intros Hp Heq. apply (f_equal String.length) in Heq.
  rewrite !length_append in Heq. destruct p; [done|]. cbn in Heq. lia.
Qed.

(** ** Minting *)

Lemma ApproveMintRequest_mints ctx requestID st m token :
  GetMSPID ctx = "Org1MSP" ->
  st !! requestID = Some (Marshal_MintRequest m) ->
  is_int (MintRequest.Amount m) ->
  MintRequest.Approved m = false ->
  MintRequest.TokenID m <> requestID ->
  st !! MintRequest.TokenID m = Some (Marshal_Token token) ->
  is_int (Token.Minted token) ->
  ApproveMintRequest ctx requestID st
  = (Ok tt,
     <[MintRequest.TokenID m :=
         Marshal_Token (with_Minted token (add_int (Token.Minted token)
                                                   (MintRequest.Amount m)))]>
       (<[requestID := Marshal_MintRequest (approved_MintRequest m)]> st)).
Proof.
  intros Hadmin Hreq Hint Happroved Hne Htok Hminted.
  unfold ApproveMintRequest. tx_step. rewrite Hadmin. tx_step.
  rewrite Hreq. tx_step. rewrite Unmarshal_Marshal_MintRequest by done. tx_step.
  rewrite Happroved. tx_step.
  rewrite lookup_insert_ne, Htok by done. tx_step.
  rewrite Unmarshal_Marshal_Token by done. reflexivity.
Qed.

(** X6.  Minting, from the request to the wallet.  A participant who owns
    the token of their record asks for [amount] coins with their password
    and client identity; the request is stored unapproved under
    ["mintrequest_" + token + "_" + address] and the administrator finds it
    among the pending mint requests.  Once the administrator approves it,
    the token's [Minted] has grown by [amount] (an [int] addition: the amount
    is not checked for its sign, and the sum wraps), the request is approved,
    and [GetWalletInfo] reports the new [mintedCoins]. *)
Theorem mint_workflow ctx adm a pw amount st p token :
  st !! a = Some (Marshal_Participant p) ->
  Participant.PasswordHash p = pw ->
  Participant.ClientID p = GetID ctx ->
  st !! Participant.TokenID p = Some (Marshal_Token token) ->
  is_int (Token.Minted token) ->
  Token.Owner token = a ->
  GetMSPID adm = "Org1MSP" ->
  is_int amount ->
  let reqKey := "mintrequest_" +:+ Participant.TokenID p +:+ "_" +:+ a in
  let request := MintRequest.mk reqKey (Participant.TokenID p) a amount false in
  let minted := add_int (Token.Minted token) amount in
  let st1 := <[reqKey := Marshal_MintRequest request]> st in
  let st2 := <[Participant.TokenID p := Marshal_Token (with_Minted token minted)]>
               (<[reqKey := Marshal_MintRequest (approved_MintRequest request)]> st) in
  RequestMintCoins ctx a pw amount st = (Ok tt, st1) /\
  (exists pending, GetPendingMintRequests adm st1 = (Ok pending, st1) /\
                   In request pending) /\
  ApproveMintRequest adm reqKey st1 = (Ok tt, st2) /\
  GetWalletInfo ctx a pw st2
  = (Ok (WalletInfo.mk (Participant.NetworkAddress p) (Token.TokenID token) minted
                       (Token.TransferIDs token)), st2).
Proof.
  intros Hp Hpw Hcid Htok Hminted Howner Hadmin Hamount reqKey request minted st1 st2.
  assert (Hkt : Participant.TokenID p <> reqKey).
  { intros Heq. symmetry in Heq. revert Heq. now apply append_longer. }
  assert (Hka : a <> reqKey).
  { intros Heq. symmetry in Heq. revert Heq. now apply append_longer_right. }
  assert (Hat : a <> Participant.TokenID p).
  { eapply lookup_distinct; eauto using Marshal_Participant_not_Token. }
  conjuncts.
  - now apply RequestMintCoins_overwrites with (p := p) (token := token).
  - eexists. split.
    + unfold GetPendingMintRequests. query_step. rewrite Hadmin. query_step.
      reflexivity.
    + apply listing_In. exists reqKey, (Marshal_MintRequest request).
      split; [apply lookup_insert_eq|]. split; [apply prefix_append|].
      split; [|done]. now rewrite Unmarshal_Marshal_MintRequest.
  - unfold st1, st2.
    rewrite <- (insert_insert_eq st reqKey
                  (Marshal_MintRequest (approved_MintRequest request))
                  (Marshal_MintRequest request)).
    apply ApproveMintRequest_mints; try done.
    + apply lookup_insert_eq.
    + now rewrite lookup_insert_ne.
  - unfold GetWalletInfo. tx_step. unfold st2 at 1.
    rewrite !lookup_insert_ne, Hp by done. tx_step.
    rewrite Unmarshal_Marshal_Participant. tx_step.
    rewrite Hpw, Hcid, !String.eqb_refl. tx_step.
    unfold st2 at 1. rewrite lookup_insert_eq. tx_step.
    rewrite Unmarshal_Marshal_Token by apply wrap_int_is_int. reflexivity.
Qed.

Lemma mint_workflow_witness :
  let reqKey := "mintrequest_token_1_" +:+ alice in
  RequestMintCoins alice_client alice "pw" 50 ledger_minted
  = (Ok tt,
     <[reqKey := Marshal_MintRequest (MintRequest.mk reqKey "token_1" alice 50 false)]>
       ledger_minted) /\
  GetWalletInfo alice_client alice "pw"
    (<["token_1" := Marshal_Token (token_of_alice 150)]>
       (<[reqKey := Marshal_MintRequest (MintRequest.mk reqKey "token_1" alice 50 true)]>
          ledger_minted))
  = (Ok (WalletInfo.mk alice "token_1" 150 None),
     <["token_1" := Marshal_Token (token_of_alice 150)]>
       (<[reqKey := Marshal_MintRequest (MintRequest.mk reqKey "token_1" alice 50 true)]>
          ledger_minted)).
Proof.
  pose proof (mint_workflow alice_client admin alice "pw" 50 ledger_minted
                (Participant.mk "Alice" alice "alice" true "pw" "IN" "token_1" None)
                (token_of_alice 100)
                ltac:(by_computation) eq_refl eq_refl ltac:(by_computation)
                ltac:(by_computation) eq_refl eq_refl ltac:(by_computation))
    as (H1 & _ & _ & H4).
  exact (conj H1 H4).
Defined.

(** ** Customers *)

(** X7.  The registration of a customer, from the request to the wallet.
    The address, the name, the password hash and the token id are valid
    UTF-8, so that they are stored as they are.
    For a token that has an owner and an address with no registration
    request for it, [RegisterCustomer] stores the request unapproved under
    ["custreq_" + address + "_" + token], where the owner finds it among the
    pending registrations of the token.  Only the owner of the token can
    approve it: any other approver fails with "caller is not token owner" and
    writes nothing.  The owner's approval marks the request approved and
    creates the customer, approved and with balance 0, under
    ["customer_" + address + "_" + token]; [ViewCustomerWallet] then answers
    with that balance for the customer's password. *)
Theorem customer_registration_workflow a name pw tokenID owner st token :
  valid_utf8 a = true -> valid_utf8 name = true -> valid_utf8 pw = true ->
  valid_utf8 tokenID = true ->
  st !! tokenID = Some (Marshal_Token token) ->
  is_int (Token.Minted token) ->
  Token.Owner token = owner ->
  owner <> "" ->
  st !! ("custreq_" +:+ a +:+ "_" +:+ tokenID) = None ->
  let reqID := "custreq_" +:+ a +:+ "_" +:+ tokenID in
  let customerKey := "customer_" +:+ a +:+ "_" +:+ tokenID in
  let request := RegisterCustomerRequest.mk reqID a name pw tokenID false in
  let approved := RegisterCustomerRequest.mk reqID a name pw tokenID true in
  let customer := Customer.mk a name pw tokenID true 0 None None in
  let st1 := <[reqID := Marshal_RegisterCustomerRequest request]> st in
  let st2 := <[customerKey := Marshal_Customer customer]>
               (<[reqID := Marshal_RegisterCustomerRequest approved]> st) in
  RegisterCustomer a name pw tokenID st = (Ok tt, st1) /\
  (exists pending,
      ViewPendingCustomerRegistrations tokenID owner st1 = (Ok pending, st1) /\
      In request pending) /\
  (forall other, other <> owner ->
      ApproveCustomerRegistration reqID other st1
      = (Err (Errorf "caller is not token owner"), st1)) /\
  ApproveCustomerRegistration reqID owner st1 = (Ok tt, st2) /\
  ViewCustomerWallet a tokenID pw st2
  = (Ok (CustomerWallet.mk a tokenID 0 true None None), st2).
Proof.
  intros _ _ _ _ Htok Hminted Howner Hne Hfree reqID customerKey request approved
    customer st1 st2.
  assert (Hrt : reqID <> tokenID) by now apply append_longer_right.
  assert (Htok1 : st1 !! tokenID = Some (Marshal_Token token)).
  { unfold st1. now rewrite lookup_insert_ne. }
  assert (Hreq1 : st1 !! reqID = Some (Marshal_RegisterCustomerRequest request)).
  { apply lookup_insert_eq. }
  unfold request in *. conjuncts.
  - unfold RegisterCustomer. tx_step. rewrite Htok. tx_step.
    rewrite Unmarshal_Marshal_Token by done. tx_step.
    rewrite Howner. apply String.eqb_neq in Hne. rewrite Hne. tx_step.
    rewrite Hfree. reflexivity.
  - eexists. split.
    + unfold ViewPendingCustomerRegistrations. query_step. rewrite Htok1. query_step.
      rewrite Unmarshal_Marshal_Token by done. query_step.
      rewrite Howner, String.eqb_refl. query_step. reflexivity.
    + apply listing_In. exists reqID, (Marshal_RegisterCustomerRequest request).
      split; [done|]. split; [apply prefix_append|].
      split; [apply Unmarshal_Marshal_RegisterCustomerRequest|].
      cbn. now rewrite String.eqb_refl.
  - intros other Hother. unfold ApproveCustomerRegistration. tx_step.
    rewrite Hreq1. tx_step. rewrite Unmarshal_Marshal_RegisterCustomerRequest. tx_step.
    rewrite Htok1. tx_step. rewrite Unmarshal_Marshal_Token by done. tx_step.
    rewrite Howner. apply not_eq_sym, String.eqb_neq in Hother. rewrite Hother.
    reflexivity.
  - unfold ApproveCustomerRegistration. tx_step.
    rewrite Hreq1. tx_step. rewrite Unmarshal_Marshal_RegisterCustomerRequest. tx_step.
    rewrite Htok1. tx_step. rewrite Unmarshal_Marshal_Token by done. tx_step.
    rewrite Howner, String.eqb_refl. tx_step.
    unfold st1, st2. now rewrite insert_insert_eq.
  - unfold ViewCustomerWallet. tx_step. fold customerKey. unfold st2 at 1.
    rewrite lookup_insert_eq. tx_step.
    rewrite Unmarshal_Marshal_Customer by done. tx_step.
    rewrite String.eqb_refl. reflexivity.
Qed.

Lemma customer_registration_workflow_witness :
  let reqID := "custreq_erin_token_1" in
  let request := RegisterCustomerRequest.mk reqID "erin" "Erin" "pwe" "token_1" false in
  let approved := RegisterCustomerRequest.mk reqID "erin" "Erin" "pwe" "token_1" true in
  let customer := Customer.mk "erin" "Erin" "pwe" "token_1" true 0 None None in
  RegisterCustomer "erin" "Erin" "pwe" "token_1" ledger_minted
  = (Ok tt, <[reqID := Marshal_RegisterCustomerRequest request]> ledger_minted) /\
  ApproveCustomerRegistration reqID alice
    (<[reqID := Marshal_RegisterCustomerRequest request]> ledger_minted)
  = (Ok tt,
     <["customer_erin_token_1" := Marshal_Customer customer]>
       (<[reqID := Marshal_RegisterCustomerRequest approved]> ledger_minted)).
Proof.
  pose proof (customer_registration_workflow "erin" "Erin" "pwe" "token_1" alice
                ledger_minted (token_of_alice 100)
                eq_refl eq_refl eq_refl eq_refl
                ltac:(by_computation) ltac:(by_computation) eq_refl
                ltac:(discriminate) ltac:(by_computation))
    as (H1 & _ & _ & H4 & _).
  exact (conj H1 H4).
Defined.

(** X8.  Until a token is allocated nobody can register as its customer: on
    a freshly initialized ledger [RegisterCustomer] fails for each of the 25
    tokens with "invalid or unowned token" and writes nothing. *)
Theorem RegisterCustomer_after_InitLedger seed a name pw i :
  1 <= i <= 25 ->
  RegisterCustomer a name pw (token_key i) (run InitLedger seed)
  = (Err (Errorf "invalid or unowned token"), run InitLedger seed).
Proof.
  intros Hi.
  assert (Ht : run InitLedger seed !! token_key i
               = Some (Marshal_Token (fresh_token (token_key i)))).
  { apply InitLedger_loop_token; unfold maxTokens; simpl; lia. }
  unfold RegisterCustomer. tx_step. rewrite Ht. tx_step. rewrite Unmarshal_Marshal_Token by done. reflexivity.
Qed.

Lemma RegisterCustomer_after_InitLedger_witness :
  RegisterCustomer "erin" "Erin" "pwe" (token_key 7) (run InitLedger seeded)
  = (Err (Errorf "invalid or unowned token"), run InitLedger seeded).
Proof.
  exact (RegisterCustomer_after_InitLedger seeded "erin" "Erin" "pwe" 7 ltac:(lia)).
Defined.

(** ** Rich queries *)

Lemma GetQueryResult_In sel (st : gmap string bytes) b :
  In b (List.filter (selected sel) (map snd (map_to_list st))) <->
  (exists k, st !! k = Some b) /\ selected sel b = true.
Proof.
  rewrite filter_In, in_map_iff. split.
  - intros [([k b'] & Hb & Hin) Hsel]. cbn in Hb. subst b'.
    apply list_elem_of_In, elem_of_map_to_list in Hin. eauto.
  - intros [[k Hk] Hsel]. split; [|done]. exists (k, b). split; [done|].
    now apply list_elem_of_In, elem_of_map_to_list.
Qed.

(** ** The transfer protocol, step by step *)

(** X9.  A transfer, from its creation to the receiver's turn.  The ids of
    the sender and of the receiver stand for themselves in a query text
    ([json_plain]) and the other strings of the request are valid UTF-8.
    For an amount that parses as a finite number (its sign is not checked,
    and neither participant nor the token is looked up),
    [CreateTransferRequest] stores the request under ["transfer_" + uuid]
    pending the owner's approval and returns that key; the sender finds it
    with [ViewTransferRequestsForOwner].  Only the sender named in the
    request can approve it: another approver fails with "approver is not the
    sender participant" and writes nothing.  The sender's approval changes
    the status alone, to [PendingReceiverApproval], and the receiver then
    finds the request with [ViewTransferRequestsForReceiver]. *)
Theorem transfer_request_workflow ParseFloat sender receiver stok rtok tokenID
  amountStr amount uuid st :
  json_plain sender = true -> json_plain receiver = true ->
  valid_strings [stok; rtok; tokenID; uuid] = true ->
  ParseFloat amountStr = inr amount ->
  is_finite amount = true ->
  let id := "transfer_" +:+ uuid in
  let request := TransferRequest.mk id tokenID amount sender receiver stok rtok
                                    "PendingOwnerApproval" in
  let forwarded := TransferRequest.mk id tokenID amount sender receiver stok rtok
                                      "PendingReceiverApproval" in
  exists b b',
    Marshal_TransferRequest request = Some b /\
    Marshal_TransferRequest forwarded = Some b' /\
    CreateTransferRequest ParseFloat sender receiver stok rtok tokenID amountStr
                          (inr uuid) st
    = (Ok id, <[id := b]> st) /\
    (exists l, ViewTransferRequestsForOwner sender (<[id := b]> st)
               = (Ok l, <[id := b]> st) /\ In request l) /\
    (forall other, other <> sender ->
        ApproveTransferByOwner id other (<[id := b]> st)
        = (Err (Errorf "approver is not the sender participant"), <[id := b]> st)) /\
    ApproveTransferByOwner id sender (<[id := b]> st) = (Ok tt, <[id := b']> st) /\
    (exists l, ViewTransferRequestsForReceiver receiver (<[id := b']> st)
               = (Ok l, <[id := b']> st) /\ In forwarded l).
Proof.
  intros _ _ _ Hparse Hfin id request forwarded.
  destruct (Marshal_TransferRequest request) as [b|] eqn:Hb.
  2: { unfold Marshal_TransferRequest, request in Hb.
       cbn [TransferRequest.Amount] in Hb. rewrite Hfin in Hb. discriminate. }
  destruct (Marshal_TransferRequest forwarded) as [b'|] eqn:Hb'.
  2: { unfold Marshal_TransferRequest, forwarded in Hb'.
       cbn [TransferRequest.Amount] in Hb'. rewrite Hfin in Hb'. discriminate. }
  pose proof (Unmarshal_Marshal_TransferRequest _ _ Hb) as Hdec.
  pose proof (Unmarshal_Marshal_TransferRequest _ _ Hb') as Hdec'.
  exists b, b'. split; [done|]. split; [done|].
  assert (Hdoc : forall status,
             Marshal_TransferRequest (with_Status request status)
             = Some (Json [ ("transfer_request_id", JString id);
                            ("token_id", JString tokenID);
                            ("amount", JFloat amount);
                            ("sender_transfer_id", JString sender);
                            ("receiver_transfer_id", JString receiver);
                            ("sender_token_transfer_id", JString stok);
                            ("receiver_token_transfer_id", JString rtok);
                            ("status", JString status) ])).
  { intros status. unfold Marshal_TransferRequest, with_Status, request.
    cbn [TransferRequest.TransferRequestID TransferRequest.TokenID
         TransferRequest.Amount TransferRequest.SenderTransferID
         TransferRequest.ReceiverTransferID TransferRequest.SenderTokenTransferID
         TransferRequest.ReceiverTokenTransferID TransferRequest.Status].
    now rewrite Hfin. }
  pose proof (Hdoc "PendingOwnerApproval") as Hb0.
  change (with_Status request "PendingOwnerApproval") with request in Hb0.
  pose proof (Hdoc "PendingReceiverApproval") as Hb1.
  change (with_Status request "PendingReceiverApproval") with forwarded in Hb1.
  unfold forwarded, request in *.
  cbn [TransferRequest.TransferRequestID TransferRequest.TokenID
       TransferRequest.Amount TransferRequest.SenderTransferID
       TransferRequest.ReceiverTransferID TransferRequest.SenderTokenTransferID
       TransferRequest.ReceiverTokenTransferID TransferRequest.Status] in *.
  conjuncts.
  - unfold CreateTransferRequest. rewrite Hparse. fold id. rewrite Hb. reflexivity.
  - eexists. split; [unfold ViewTransferRequestsForOwner; query_step; reflexivity|].
    apply in_map_iff. exists b. split; [now rewrite Hdec|].
    apply GetQueryResult_In. split; [exists id; apply lookup_insert_eq|].
    rewrite Hb0 in Hb. injection Hb as <-.
    cbn [selected selects field String.eqb Ascii.eqb Bool.eqb andb].
    now rewrite String.eqb_refl.
  - intros other Hother. unfold ApproveTransferByOwner. tx_step.
    rewrite lookup_insert_eq. tx_step. rewrite Hdec. tx_step.
    apply not_eq_sym, String.eqb_neq in Hother. rewrite Hother. reflexivity.
  - unfold ApproveTransferByOwner. tx_step.
    rewrite lookup_insert_eq. tx_step. rewrite Hdec. tx_step.
    rewrite String.eqb_refl. tx_step.
    change (with_Status _ "PendingReceiverApproval")
      with (TransferRequest.mk id tokenID amount sender receiver stok rtok
                               "PendingReceiverApproval").
    rewrite Hb'. tx_step. now rewrite insert_insert_eq.
  - eexists. split; [unfold ViewTransferRequestsForReceiver; query_step; reflexivity|].
    apply in_map_iff. exists b'. split; [now rewrite Hdec'|].
    apply GetQueryResult_In. split; [exists id; apply lookup_insert_eq|].
    rewrite Hb1 in Hb'. injection Hb' as <-.
    cbn [selected selects field String.eqb Ascii.eqb Bool.eqb andb].
    now rewrite String.eqb_refl.
Qed.

Lemma transfer_request_workflow_witness :
  exists b,
    Marshal_TransferRequest
      (TransferRequest.mk "transfer_0002" "token_1" 80 "acct_carol" alice "" ""
                          "PendingOwnerApproval") = Some b /\
    CreateTransferRequest ParseFloat_plain "acct_carol" alice "" "" "token_1" "80"
                          (inr "0002") ledger_minted
    = (Ok "transfer_0002", <["transfer_0002" := b]> ledger_minted) /\
    ApproveTransferByOwner "transfer_0002" "mallory" (<["transfer_0002" := b]> ledger_minted)
    = (Err (Errorf "approver is not the sender participant"),
       <["transfer_0002" := b]> ledger_minted).
Proof.
  destruct (transfer_request_workflow ParseFloat_plain "acct_carol" alice "" ""
              "token_1" "80" 80 "0002" ledger_minted
              ltac:(by_computation) ltac:(by_computation) ltac:(by_computation)
              ltac:(by_computation) ltac:(by_computation))
    as (b & b' & H1 & _ & H3 & _ & H5 & _).
  exists b. exact (conj H1 (conj H3 (H5 "mallory" ltac:(discriminate)))).
Defined.

(** ** Histories *)

Lemma decoded_In {A : Type} (Unmarshal : bytes -> A * option error) values y :
  In y (decoded Unmarshal values) <->
  exists b, In b values /\ Unmarshal b = (y, None).
Proof.
  unfold decoded. rewrite in_flat_map. split.
  - intros (b & Hb & Hy). exists b. split; [done|].
    destruct (Unmarshal b) as [x [e|]]; [done|]. now destruct Hy as [<-|[]].
  - intros (b & Hb & Hy). exists b. split; [done|]. rewrite Hy. now left.
Qed.

Lemma selects_member member value o :
  selects (SelEq member value) o = true -> field member o = Some (JString value).
Proof.
  cbn. destruct (field member o) as [[s| | | | |]|]; try done.
  now intros ->%String.eqb_eq.
Qed.

(** X10.  For a participant id that stands for itself in the query text
    ([json_plain]), the history of the participant holds every stored
    transfer request that names the participant as its sender or as its
    receiver, whatever its status, and every entry of the history names the
    participant as sender or receiver.
    [GetParticipantTransferHistorybyowner] gives the same answer. *)
Theorem GetParticipantTransferHistory_lists participant st :
  json_plain participant = true ->
  exists l,
    GetParticipantTransferHistory participant st = (Ok l, st) /\
    GetParticipantTransferHistorybyowner participant st = (Ok l, st) /\
    (forall k x b,
        st !! k = Some b -> Marshal_TransferRequest x = Some b ->
        TransferRequest.SenderTransferID x = participant
        \/ TransferRequest.ReceiverTransferID x = participant ->
        In x l) /\
    (forall y, In y l ->
        TransferRequest.SenderTransferID y = participant
        \/ TransferRequest.ReceiverTransferID y = participant).
Proof.
  intros _. eexists. split; [|split; [|split]].
  - unfold GetParticipantTransferHistory. query_step. reflexivity.
  - unfold GetParticipantTransferHistorybyowner. query_step. reflexivity.
  - intros k x b Hk Hb Hx. apply decoded_In. exists b.
    split; [|now apply Unmarshal_Marshal_TransferRequest].
    apply GetQueryResult_In. split; [eauto|].
    unfold Marshal_TransferRequest in Hb.
    destruct (is_finite (TransferRequest.Amount x)); [|done]. injection Hb as <-.
    cbn [selected selects field String.eqb Ascii.eqb Bool.eqb].
    destruct Hx as [-> | ->]; rewrite String.eqb_refl; [done|apply orb_true_r].
  - intros y (b & [_ Hsel]%GetQueryResult_In & Hy)%decoded_In.
    destruct b as [o|s]; [|done]. cbn [selected selects] in Hsel.
    unfold Unmarshal_TransferRequest in Hy. injection Hy as <- _.
    cbn [TransferRequest.SenderTransferID TransferRequest.ReceiverTransferID].
    apply orb_prop in Hsel as [Hsel|Hsel];
      apply (selects_member _ _ o) in Hsel; rewrite Hsel; [now left|now right].
Qed.

(** X11.  The history of a token, for a token id that stands for itself in
    the query text ([json_plain]), is read with a selector on [token_id]
    alone, and every record of the contract that carries a token id answers
    to it.  So the history holds every stored transfer request for the
    token, each of its entries names the token, and besides the transfers it
    holds an entry, with no request id, no participants and no status, for
    the record of the token itself and for the participant the token is
    assigned to. *)
Theorem GetTokenTransferHistory_lists tokenID st :
  json_plain tokenID = true ->
  exists l,
    GetTokenTransferHistory tokenID st = (Ok l, st) /\
    (forall k x b,
        st !! k = Some b -> Marshal_TransferRequest x = Some b ->
        TransferRequest.TokenID x = tokenID -> In x l) /\
    (forall y, In y l -> TransferRequest.TokenID y = tokenID) /\
    (forall k t,
        st !! k = Some (Marshal_Token t) -> Token.TokenID t = tokenID ->
        In (TransferRequest.mk "" tokenID 0 "" "" "" "" "") l) /\
    (forall k p,
        st !! k = Some (Marshal_Participant p) -> Participant.TokenID p = tokenID ->
        In (TransferRequest.mk "" tokenID 0 "" "" "" "" "") l).
Proof.
  intros _. eexists. split; [|split; [|split; [|split]]].
  - unfold GetTokenTransferHistory. query_step. reflexivity.
  - intros k x b Hk Hb <-. apply decoded_In. exists b.
    split; [|now apply Unmarshal_Marshal_TransferRequest].
    apply GetQueryResult_In. split; [eauto|].
    unfold Marshal_TransferRequest in Hb.
    destruct (is_finite (TransferRequest.Amount x)); [|done]. injection Hb as <-.
    cbn [selected selects field String.eqb Ascii.eqb Bool.eqb].
    apply String.eqb_refl.
  - intros y (b & [_ Hsel]%GetQueryResult_In & Hy)%decoded_In.
    destruct b as [o|s]; [|done]. cbn [selected] in Hsel.
    unfold Unmarshal_TransferRequest in Hy. injection Hy as <- _.
    cbn [TransferRequest.TokenID].
    apply (selects_member _ _ o) in Hsel. now rewrite Hsel.
  - intros k t Hk <-. apply decoded_In. exists (Marshal_Token t).
    split; [|reflexivity].
    apply GetQueryResult_In. split; [eauto|].
    cbn [selected selects Marshal_Token field String.eqb Ascii.eqb Bool.eqb].
    apply String.eqb_refl.
  - intros k p Hk <-. apply decoded_In. exists (Marshal_Participant p).
    split; [|reflexivity].
    apply GetQueryResult_In. split; [eauto|].
    cbn [selected selects Marshal_Participant field String.eqb Ascii.eqb Bool.eqb].
    apply String.eqb_refl.
Qed.

Lemma GetTokenTransferHistory_lists_witness :
  exists l,
    GetTokenTransferHistory "token_1" ledger_completed = (Ok l, ledger_completed) /\
    In (with_Status (transfer_of 80) "Completed") l /\
    In (TransferRequest.mk "" "token_1" 0 "" "" "" "" "") l.
Proof.
  destruct (GetTokenTransferHistory_lists "token_1" ledger_completed eq_refl)
    as (l & H1 & H2 & _ & H4 & _).
  exists l. split; [exact H1|]. split.
  - apply (H2 "transfer_0001" (with_Status (transfer_of 80) "Completed")
              (default (Text "") (Marshal_TransferRequest
                                    (with_Status (transfer_of 80) "Completed"))));
      by_computation.
  - apply (H4 "token_1" (token_of_alice 180)); by_computation.
Defined.

Lemma GetParticipantTransferHistory_lists_witness :
  exists l,
    GetParticipantTransferHistory alice ledger_completed = (Ok l, ledger_completed) /\
    In (with_Status (transfer_of 80) "Completed") l.
Proof.
  destruct (GetParticipantTransferHistory_lists alice ledger_completed eq_refl)
    as (l & H1 & _ & H3 & _).
  exists l. split; [exact H1|].
  apply (H3 "transfer_0001" (with_Status (transfer_of 80) "Completed")
            (default (Text "") (Marshal_TransferRequest
                                  (with_Status (transfer_of 80) "Completed"))));
    [by_computation|by_computation|right; reflexivity].
Defined.

(** ** The allocation of a token, from the request to the access *)

Lemma ApproveTokenRequest_first ctx networkAddress st r p i t :
  GetMSPID ctx = "Org1MSP" ->
  st !! ("tokenrequest_" +:+ networkAddress) = Some (Marshal_TokenRequest r) ->
  TokenRequest.Status r = "PENDING" ->
  st !! networkAddress = Some (Marshal_Participant p) ->
  1 <= i <= 25 ->
  st !! token_key i = Some (Marshal_Token t) ->
  is_int (Token.Minted t) ->
  Token.Available t = true ->
  (forall j, 1 <= j < i -> unavailable st j) ->
  ApproveTokenRequest ctx networkAddress st =
    (Ok tt,
     <[token_key i := Marshal_Token (owned_Token t networkAddress)]>
       (<[networkAddress := Marshal_Participant (approved_Participant p (token_key i))]>
          (<["tokenrequest_" +:+ networkAddress :=
               Marshal_TokenRequest (approved_TokenRequest r (token_key i))]> st))).
Proof.
  intros Hadmin Hreq Hpending Hp Hi Ht Hint Hav Hbefore. unfold ApproveTokenRequest.
  assert (Hra : "tokenrequest_" +:+ networkAddress <> networkAddress).
  { eapply lookup_distinct; eauto using Marshal_TokenRequest_not_Participant. }
  assert (Hrt : "tokenrequest_" +:+ networkAddress <> token_key i).
  { eapply lookup_distinct; eauto using Marshal_TokenRequest_not_Token. }
  assert (Hat : networkAddress <> token_key i).
  { eapply lookup_distinct; eauto using Marshal_Participant_not_Token. }
  tx_step. rewrite Hadmin. tx_step.
  rewrite Hreq. tx_step. rewrite Unmarshal_Marshal_TokenRequest. tx_step.
  rewrite Hpending. tx_step.
  rewrite bind_run. unfold findAvailableToken.
  rewrite (findAvailableToken_loop_first _ _ _ i t)
    by first [ done | unfold maxTokens; simpl; lia
             | intros j Hj; apply Hbefore; lia ].
  tx_step. rewrite token_key_eqb_empty. tx_step.
  rewrite lookup_insert_ne, Hp by done. tx_step.
  rewrite Unmarshal_Marshal_Participant. tx_step.
  rewrite !lookup_insert_ne, Ht by done. tx_step.
  rewrite Unmarshal_Marshal_Token by done. reflexivity.
Qed.

Lemma unavailable_insert st k b j :
  ~ is_token_key k -> 1 <= j <= maxTokens ->
  unavailable st j -> unavailable (<[k := b]> st) j.
Proof.
  intros Hk Hj Hun. unfold unavailable in *.
  rewrite lookup_insert_ne; [done|]. intros ->. apply Hk. now exists j.
Qed.

(** X12.  The allocation of a token, from the request to the access.  A
    registered participant without a token has no access yet
    ("token not assigned").  Their request, made with the name, password
    hash and country of the registration, is stored [PENDING] and the
    administrator finds it among the pending token requests.  The
    administrator's approval gives the participant the first available
    token; from then on [GetTokenAccess] answers with that token for the
    participant's password hash and fails with "password mismatch" for any
    other, and the pending token requests are those stored under the other
    keys. *)
Theorem token_request_workflow adm name a pw country st p i t :
  GetMSPID adm = "Org1MSP" ->
  st !! a = Some (Marshal_Participant p) ->
  Participant.Name p = name ->
  Participant.PasswordHash p = pw ->
  Participant.Country p = country ->
  Participant.TokenID p = "" ->
  1 <= i <= 25 ->
  st !! token_key i = Some (Marshal_Token t) ->
  is_int (Token.Minted t) ->
  Token.Available t = true ->
  (forall j, 1 <= j < i -> unavailable st j) ->
  let reqKey := "tokenrequest_" +:+ a in
  let request := TokenRequest.mk reqKey a "PENDING" "" in
  let st1 := <[reqKey := Marshal_TokenRequest request]> st in
  let st2 :=
    <[token_key i := Marshal_Token (owned_Token t a)]>
      (<[a := Marshal_Participant (approved_Participant p (token_key i))]>
         (<[reqKey := Marshal_TokenRequest (approved_TokenRequest request (token_key i))]>
            st)) in
  GetTokenAccess a pw st = (Err (Errorf "token not assigned"), st) /\
  RequestTokenRequest name a pw country st = (Ok tt, st1) /\
  (exists pending, GetPendingTokenRequests adm st1 = (Ok pending, st1) /\
                   In request pending) /\
  ApproveTokenRequest adm a st1 = (Ok tt, st2) /\
  GetTokenAccess a pw st2 = (Ok (token_key i), st2) /\
  (forall pw', pw' <> pw ->
      GetTokenAccess a pw' st2 = (Err (Errorf "password mismatch"), st2)) /\
  (exists pending,
      GetPendingTokenRequests adm st2 = (Ok pending, st2) /\
      forall r, In r pending <->
                exists k b, k <> reqKey /\ st !! k = Some b /\
                            String.prefix "tokenrequest_" k = true /\
                            Unmarshal_TokenRequest b = (r, None) /\
                            TokenRequest.Status r = "PENDING").
Proof.
  intros Hadmin Hp Hname Hpw Hcountry Htid Hi Ht Hint Hav Hbefore
    reqKey request st1 st2.
  assert (Hra : reqKey <> a).
  { intros Heq. apply (f_equal String.length) in Heq. unfold reqKey in Heq.
    rewrite length_append in Heq. cbn in Heq. lia. }
  assert (Hrt : reqKey <> token_key i).
  { intros Heq. apply (not_token_key_tokenrequest a). fold reqKey. rewrite Heq.
    now exists i. }
  assert (Hat : a <> token_key i).
  { eapply lookup_distinct; eauto using Marshal_Participant_not_Token. }
  assert (Hp2 : st2 !! a = Some (Marshal_Participant (approved_Participant p (token_key i)))).
  { unfold st2. rewrite lookup_insert_ne by done. apply lookup_insert_eq. }
  conjuncts.
  - unfold GetTokenAccess. tx_step. rewrite Hp. tx_step.
    rewrite Unmarshal_Marshal_Participant. tx_step.
    rewrite Hpw, Htid, String.eqb_refl. reflexivity.
  - now apply RequestTokenRequest_overwrites with (p := p).
  - eexists. split.
    + unfold GetPendingTokenRequests. query_step. rewrite Hadmin. query_step.
      reflexivity.
    + apply listing_In. exists reqKey, (Marshal_TokenRequest request).
      split; [apply lookup_insert_eq|]. split; [apply prefix_append|].
      split; [apply Unmarshal_Marshal_TokenRequest|done].
  - unfold st1, st2.
    rewrite <- (insert_insert_eq st reqKey
                  (Marshal_TokenRequest (approved_TokenRequest request (token_key i)))
                  (Marshal_TokenRequest request)).
    apply ApproveTokenRequest_first; try done.
    + apply lookup_insert_eq.
    + now rewrite lookup_insert_ne.
    + now rewrite lookup_insert_ne.
    + intros j Hj. apply unavailable_insert;
        [apply not_token_key_tokenrequest|unfold maxTokens; lia|auto].
  - unfold GetTokenAccess. tx_step. rewrite Hp2. tx_step.
    rewrite Unmarshal_Marshal_Participant. unfold approved_Participant. tx_step.
    rewrite Hpw, String.eqb_refl, token_key_eqb_empty. reflexivity.
  - intros pw' Hne. unfold GetTokenAccess. tx_step. rewrite Hp2. tx_step.
    rewrite Unmarshal_Marshal_Participant. unfold approved_Participant. tx_step.
    rewrite Hpw. apply not_eq_sym, String.eqb_neq in Hne. rewrite Hne. reflexivity.
  - eexists. split.
    + unfold GetPendingTokenRequests. query_step. rewrite Hadmin. query_step.
      reflexivity.
    + intros r. rewrite listing_In. split.
      * intros (k & b & Hk & Hpre & Hdec & Hstatus%String.eqb_eq).
        unfold st2 in Hk.
        destruct (decide (k = token_key i)) as [->|Hkt].
        { rewrite lookup_insert_eq in Hk. injection Hk as <-.
          injection Hdec as <-. discriminate. }
        rewrite lookup_insert_ne in Hk by done.
        destruct (decide (k = a)) as [->|Hka].
        { rewrite lookup_insert_eq in Hk. injection Hk as <-.
          injection Hdec as <-. discriminate. }
        rewrite lookup_insert_ne in Hk by done.
        destruct (decide (k = reqKey)) as [->|Hkr].
        { rewrite lookup_insert_eq in Hk. injection Hk as <-.
          injection Hdec as <-. discriminate. }
        rewrite lookup_insert_ne in Hk by done.
        exists k, b. done.
      * intros (k & b & Hk & Hb & Hpre & Hdec & Hstatus).
        exists k, b. split; [|split; [done|split; [done|now apply String.eqb_eq]]].
        unfold st2.
        destruct (decide (k = token_key i)) as [->|Hkt].
        { rewrite Ht in Hb. injection Hb as <-. injection Hdec as <-. discriminate. }
        destruct (decide (k = a)) as [->|Hka].
        { rewrite Hp in Hb. injection Hb as <-. injection Hdec as <-. discriminate. }
        now rewrite !lookup_insert_ne.
Qed.

Lemma token_request_workflow_witness :
  let st := ledger_with_request_of_bob in
  let p := Participant.mk "Bob" bob "bob" false "pw2" "FR" "" None in
  let request := TokenRequest.mk ("tokenrequest_" +:+ bob) bob "PENDING" "" in
  let st2 :=
    <[token_key 2 := Marshal_Token (owned_Token (fresh_token "token_2") bob)]>
      (<[bob := Marshal_Participant (approved_Participant p (token_key 2))]>
         (<["tokenrequest_" +:+ bob :=
              Marshal_TokenRequest (approved_TokenRequest request (token_key 2))]> st)) in
  GetTokenAccess bob "pw2" st = (Err (Errorf "token not assigned"), st) /\
  GetTokenAccess bob "pw2" st2 = (Ok (token_key 2), st2).
Proof.
  intros st p request st2.
  assert (Hbefore : forall j, 1 <= j < 2 -> unavailable st j).
  { intros j Hj. assert (j = 1) as -> by lia.
    right. exists (token_of_alice 0). conjuncts; by_computation. }
  pose proof (token_request_workflow admin "Bob" bob "pw2" "FR" st p 2
                (fresh_token "token_2")
                eq_refl ltac:(by_computation) eq_refl eq_refl eq_refl eq_refl
                ltac:(lia) ltac:(by_computation) ltac:(by_computation) eq_refl
                Hbefore) as (H1 & _ & _ & _ & H5 & _).
  exact (conj H1 H5).
Defined.

(** ** The order of a listing *)

Global Instance key_le_trans : Transitive key_le.
Proof. intros x y z. unfold key_le. apply transitivity. Qed.

Global Instance key_le_total : Total key_le.
Proof. intros x y. unfold key_le. apply total, _. Qed.

Lemma listing_filter {A : Type} p (Unmarshal : bytes -> A * option error) keep kvs :
  listing p Unmarshal keep kvs
  = map (fun kv => fst (Unmarshal (snd kv)))
        (filter (fun kv => listed p Unmarshal keep kv = true) kvs).
Proof.
  unfold listing, listed. induction kvs as [|[k b] kvs IH]; [done|].
  cbn [flat_map]. rewrite filter_cons, IH. cbn [fst snd].
  destruct (String.prefix p k); cbn [andb].
  - destruct (Unmarshal b) as [x [e|]] eqn:Hb.
    + rewrite decide_False by done. done.
    + destruct (keep x).
      * rewrite decide_True by done. cbn. now rewrite Hb.
      * rewrite decide_False by done. done.
  - rewrite decide_False by done. done.
Qed.

Lemma StronglySorted_filter {A : Type} (R : relation A) (P : A -> Prop)
  `{!forall x, Decision (P x)} l :
  StronglySorted R l -> StronglySorted R (filter P l).
Proof.
  induction 1 as [|a l Hl IH Ha]; [constructor|].
  rewrite filter_cons. destruct (decide (P a)); [|done].
  constructor; [done|]. rewrite Forall_forall in *.
  intros x [_ Hx]%list_elem_of_filter. auto.
Qed.

(** A listing is the sorted list of the entries it keeps. *)
Lemma listing_sorted {A : Type} p (Unmarshal : bytes -> A * option error) keep
  (st : gmap string bytes) L :
  StronglySorted key_le L -> NoDup L ->
  (forall kv, kv ∈ L <->
              st !! fst kv = Some (snd kv) /\ listed p Unmarshal keep kv = true) ->
  listing p Unmarshal keep (merge_sort key_le (map_to_list st))
  = map (fun kv => fst (Unmarshal (snd kv))) L.
Proof.
  intros Hsorted Hnodup HL. rewrite listing_filter. f_equal.
  apply (StronglySorted_unique_strong key_le).
  - intros [k1 b1] [k2 b2] [_ H1]%list_elem_of_filter H2%HL H12 H21.
    rewrite merge_sort_Permutation in H1. apply elem_of_map_to_list in H1.
    destruct H2 as [H2 _]. cbn [fst snd] in *.
    assert (k1 = k2) as -> by (apply (anti_symm String.le); done).
    congruence.
  - apply StronglySorted_filter, StronglySorted_merge_sort; apply _.
  - done.
  - apply NoDup_Permutation; [|done|].
    + apply NoDup_filter. rewrite merge_sort_Permutation. apply NoDup_map_to_list.
    + intros [k b]. rewrite list_elem_of_filter, merge_sort_Permutation,
        elem_of_map_to_list, HL. cbn [fst snd]. tauto.
Qed.

(** ** [ViewAllTokens] *)

Lemma lexical_order_tokens i : i ∈ lexical_order <-> 1 <= i <= 25.
Proof.
  split.
  - revert i. apply Forall_forall. unfold lexical_order.
    repeat (constructor; [lia|]). constructor.
  - intros Hi.
    assert (Hcases : i = 1 \/ i = 2 \/ i = 3 \/ i = 4 \/ i = 5 \/ i = 6 \/ i = 7
                     \/ i = 8 \/ i = 9 \/ i = 10 \/ i = 11 \/ i = 12 \/ i = 13
                     \/ i = 14 \/ i = 15 \/ i = 16 \/ i = 17 \/ i = 18 \/ i = 19
                     \/ i = 20 \/ i = 21 \/ i = 22 \/ i = 23 \/ i = 24 \/ i = 25)
      by lia.
    apply list_elem_of_In. unfold lexical_order. cbn [In].
    repeat (destruct Hcases as [->|Hcases]; [tauto|]). subst. tauto.
Qed.

(** X13.  On a freshly initialized ledger, one that held no key with the
    prefix ["token_"] outside the pool before [InitLedger] ran (whatever it
    held under its other keys), [ViewAllTokens] answers with the 25 tokens of
    the pool, each without owner, available and with nothing minted, in the
    lexical order of their keys and not in the order of their numbers:
    [token_1], [token_10], ..., [token_19], [token_2], [token_20], ...,
    [token_25], [token_3], ..., [token_9]. *)
Theorem ViewAllTokens_after_InitLedger seed :
  (forall k, is_Some (seed !! k) -> String.prefix "token_" k = true ->
             is_token_key k) ->
  ViewAllTokens (run InitLedger seed)
  = (Ok (map (fun i => fresh_token (token_key i)) lexical_order), run InitLedger seed).
Proof.
  intros Hseed. unfold ViewAllTokens. query_step. f_equal. f_equal.
  set (L := map (fun i => (token_key i, Marshal_Token (fresh_token (token_key i))))
                lexical_order).
  rewrite (listing_sorted _ _ _ _ L).
  - reflexivity.
  - apply (bool_decide_unpack _). vm_compute. reflexivity.
  - apply (NoDup_fmap_1 fst). apply (bool_decide_unpack _). vm_compute. reflexivity.
  - assert (Htoken : forall i, 1 <= i <= 25 ->
              run InitLedger seed !! token_key i
              = Some (Marshal_Token (fresh_token (token_key i)))).
    { intros i Hi. apply InitLedger_loop_token; unfold maxTokens; simpl; lia. }
    assert (Hother : forall k, ~ is_token_key k ->
              run InitLedger seed !! k = seed !! k).
    { intros k Hk. apply InitLedger_loop_other. intros j Hj ->. apply Hk.
      exists j. split; [|done]. unfold maxTokens in *. simpl in Hj. lia. }
    intros [k b]. unfold L. rewrite list_elem_of_fmap. cbn [fst snd]. split.
    + intros (i & [= -> ->] & Hi%lexical_order_tokens). split; [auto|].
      unfold listed. cbn [fst snd]. unfold token_key at 1.
      rewrite prefix_append. reflexivity.
    + intros [Hk Hlisted]. destruct (is_token_key_dec k) as [[i [Hi ->]]|Hkey].
      * exists i. split; [|now apply lexical_order_tokens].
        rewrite Htoken in Hk by done. congruence.
      * rewrite Hother in Hk by done. destruct Hkey. apply Hseed; [eauto|].
        unfold listed in Hlisted. cbn [fst] in Hlisted.
        now apply andb_prop in Hlisted as [Hprefix _].
Qed.

Lemma ViewAllTokens_after_InitLedger_witness :
  ViewAllTokens (run InitLedger seeded)
  = (Ok (map (fun i => fresh_token (token_key i)) lexical_order),
     run InitLedger seeded).
Proof.
  apply (ViewAllTokens_after_InitLedger seeded).
  intros k [b Hk] Hprefix.
  destruct (decide (k = "acct_carol")) as [->|Hne]; [discriminate Hprefix|].
  unfold seeded in Hk. rewrite lookup_singleton_ne in Hk by done. discriminate.
Defined.

(** ** The coins of a customer *)

Lemma ApproveCustomerMint_approves requestID owner st m token cust :
  st !! requestID = Some (Marshal_MintRequest m) ->
  is_int (MintRequest.Amount m) ->
  MintRequest.Approved m = false ->
  st !! MintRequest.TokenID m = Some (Marshal_Token token) ->
  is_int (Token.Minted token) ->
  Token.Owner token = owner ->
  let customerKey :=
    "customer_" +:+ MintRequest.RequestedBy m +:+ "_" +:+ MintRequest.TokenID m in
  st !! customerKey = Some (Marshal_Customer cust) ->
  is_int (Customer.Balance cust) ->
  MintRequest.Amount m <= Token.Minted token ->
  ApproveCustomerMint requestID owner st
  = (Ok tt,
     <[customerKey :=
         Marshal_Customer (with_Balance cust (add_int (Customer.Balance cust)
                                                      (MintRequest.Amount m)))]>
       (<[MintRequest.TokenID m :=
            Marshal_Token (with_Minted token (sub_int (Token.Minted token)
                                                      (MintRequest.Amount m)))]>
          (<[requestID := Marshal_MintRequest (approved_MintRequest m)]> st))).
Proof.
  intros Hreq HintA Hunapproved Htok HintM <- customerKey Hcust HintB Hle.
  assert (Hrt : requestID <> MintRequest.TokenID m).
  { eapply lookup_distinct; eauto; discriminate. }
  assert (Hrc : requestID <> customerKey).
  { eapply lookup_distinct; eauto; discriminate. }
  assert (Htc : MintRequest.TokenID m <> customerKey).
  { eapply lookup_distinct; eauto; discriminate. }
  unfold ApproveCustomerMint. tx_step. rewrite Hreq. tx_step.
  rewrite Unmarshal_Marshal_MintRequest by done. tx_step.
  rewrite Htok. tx_step. rewrite Unmarshal_Marshal_Token by done. tx_step.
  rewrite String.eqb_refl. tx_step. rewrite Hunapproved.
  assert ((Token.Minted token <? MintRequest.Amount m) = false) as ->
    by (apply Z.ltb_ge; lia).
  tx_step. fold customerKey.
  rewrite !lookup_insert_ne, Hcust by done. tx_step.
  rewrite Unmarshal_Marshal_Customer by done. reflexivity.
Qed.

(** X14.  The coins of a customer, from the request to the wallet.  An
    approved customer of a token asks for [amount] coins; the request is
    stored unapproved under ["custmintreq_" + address + "_" + token] and the
    owner of the token finds it among the pending mint requests of the token.
    When the token's mint pool covers the amount, the owner's approval moves
    the coins from the pool to the customer and [ViewCustomerWallet] answers
    with the new balance; its [tokenTransferIDs] are the customer's
    [TransferIDs], as its [participantTransferIDs] are.  For an amount that
    is not negative and a balance that does not overflow, pool and balance
    together hold as many coins as before. *)
Theorem customer_mint_workflow a tokenID pw owner amount st token cust :
  st !! tokenID = Some (Marshal_Token token) ->
  is_int (Token.Minted token) ->
  Token.Owner token = owner ->
  st !! ("customer_" +:+ a +:+ "_" +:+ tokenID) = Some (Marshal_Customer cust) ->
  is_int (Customer.Balance cust) ->
  Customer.NetworkAddress cust = a ->
  Customer.PasswordHash cust = pw ->
  is_int amount ->
  amount <= Token.Minted token ->
  let requestID := "custmintreq_" +:+ a +:+ "_" +:+ tokenID in
  let customerKey := "customer_" +:+ a +:+ "_" +:+ tokenID in
  let request := MintRequest.mk requestID tokenID a amount false in
  let minted := sub_int (Token.Minted token) amount in
  let balance := add_int (Customer.Balance cust) amount in
  let st1 := <[requestID := Marshal_MintRequest request]> st in
  let st2 :=
    <[customerKey := Marshal_Customer (with_Balance cust balance)]>
      (<[tokenID := Marshal_Token (with_Minted token minted)]>
         (<[requestID := Marshal_MintRequest (approved_MintRequest request)]> st)) in
  CustomerRequestMint a tokenID amount st = (Ok tt, st1) /\
  (exists pending,
      ViewPendingCustomerMintRequests tokenID owner st1 = (Ok pending, st1) /\
      In request pending) /\
  ApproveCustomerMint requestID owner st1 = (Ok tt, st2) /\
  ViewCustomerWallet a tokenID pw st2
  = (Ok (CustomerWallet.mk a (Customer.TokenID cust) balance (Customer.Approved cust)
                           (Customer.TransferIDs cust) (Customer.TransferIDs cust)),
     st2) /\
  (0 <= amount -> Customer.Balance cust + amount <= max_int ->
   minted + balance = Token.Minted token + Customer.Balance cust).
Proof.
  intros Htok HintM Howner Hcust HintB <- Hpw HintA Hle
    requestID customerKey request minted balance st1 st2.
  assert (Hrt : requestID <> tokenID) by now apply append_longer_right.
  assert (Htc : tokenID <> customerKey).
  { eapply lookup_distinct; eauto; discriminate. }
  assert (Hrc : requestID <> customerKey).
  { intros Heq. apply (f_equal (String.prefix "custm")) in Heq.
    vm_compute in Heq. discriminate. }
  assert (Htok1 : st1 !! tokenID = Some (Marshal_Token token)).
  { unfold st1. now rewrite lookup_insert_ne. }
  assert (Hcust1 : st1 !! customerKey = Some (Marshal_Customer cust)).
  { unfold st1. now rewrite lookup_insert_ne. }
  conjuncts.
  - now apply CustomerRequestMint_overwrites.
  - eexists. split.
    + unfold ViewPendingCustomerMintRequests. query_step. rewrite Htok1. query_step.
      rewrite Unmarshal_Marshal_Token by done. query_step.
      rewrite Howner, String.eqb_refl. query_step. reflexivity.
    + apply listing_In. exists requestID, (Marshal_MintRequest request).
      split; [apply lookup_insert_eq|]. split; [apply prefix_append|].
      split; [now apply Unmarshal_Marshal_MintRequest|].
      cbn. now rewrite String.eqb_refl.
  - unfold st2.
    rewrite <- (insert_insert_eq st requestID
                  (Marshal_MintRequest (approved_MintRequest request))
                  (Marshal_MintRequest request)).
    apply (ApproveCustomerMint_approves requestID owner st1 request token cust);
      try done. apply lookup_insert_eq.
  - unfold ViewCustomerWallet. tx_step. fold customerKey. unfold st2 at 1.
    rewrite lookup_insert_eq. tx_step.
    rewrite Unmarshal_Marshal_Customer by apply wrap_int_is_int. tx_step.
    unfold with_Balance. tx_step. rewrite Hpw, String.eqb_refl. reflexivity.
  - intros Hpos Hmax. unfold minted, balance, sub_int, add_int.
    unfold is_int, min_int, max_int in *.
    rewrite !wrap_int_id by (unfold is_int, min_int, max_int; lia). lia.
Qed.

Lemma customer_mint_workflow_witness :
  let st := ledger_with_customer_request 30 in
  let request := MintRequest.mk "custmintreq_dave_token_1" "token_1" "dave" 40 false in
  CustomerRequestMint "dave" "token_1" 40 st
  = (Ok tt, <["custmintreq_dave_token_1" := Marshal_MintRequest request]> st) /\
  ApproveCustomerMint "custmintreq_dave_token_1" alice
    (<["custmintreq_dave_token_1" := Marshal_MintRequest request]> st)
  = (Ok tt,
     <["customer_dave_token_1" := Marshal_Customer (customer_dave 40)]>
       (<["token_1" := Marshal_Token (token_of_alice 60)]>
          (<["custmintreq_dave_token_1" :=
               Marshal_MintRequest (approved_MintRequest request)]> st))).
Proof.
  intros st request.
  pose proof (customer_mint_workflow "dave" "token_1" "pwd" alice 40 st
                (token_of_alice 100) (customer_dave 0)
                ltac:(by_computation) ltac:(by_computation) eq_refl
                ltac:(by_computation) ltac:(by_computation) eq_refl eq_refl
                ltac:(by_computation) ltac:(by_computation))
    as (H1 & _ & H3 & _).
  exact (conj H1 H3).
Defined.

(** ** The pending transfers of a participant *)

(** X15.  For an id that stands for itself in the query text
    ([json_plain]), [ViewTransferRequestsForOwner] answers with transfer
    requests that
    name the participant as sender and wait for the owner's approval, and
    with every stored transfer request that does;
    [ViewTransferRequestsForReceiver] does the same for the requests that
    name the participant as receiver and wait for the receiver's approval.
    Neither lists a request that is completed or rejected. *)
Theorem ViewTransferRequests_pending id st :
  json_plain id = true ->
  exists forOwner forReceiver,
    ViewTransferRequestsForOwner id st = (Ok forOwner, st) /\
    ViewTransferRequestsForReceiver id st = (Ok forReceiver, st) /\
    (forall y, In y forOwner ->
        TransferRequest.SenderTransferID y = id /\
        TransferRequest.Status y = "PendingOwnerApproval") /\
    (forall y, In y forReceiver ->
        TransferRequest.ReceiverTransferID y = id /\
        TransferRequest.Status y = "PendingReceiverApproval") /\
    (forall k x b,
        st !! k = Some b -> Marshal_TransferRequest x = Some b ->
        TransferRequest.SenderTransferID x = id ->
        TransferRequest.Status x = "PendingOwnerApproval" -> In x forOwner) /\
    (forall k x b,
        st !! k = Some b -> Marshal_TransferRequest x = Some b ->
        TransferRequest.ReceiverTransferID x = id ->
        TransferRequest.Status x = "PendingReceiverApproval" -> In x forReceiver).
Proof.
  intros _. eexists. eexists. split; [|split; [|conjuncts]].
  - unfold ViewTransferRequestsForOwner. query_step. reflexivity.
  - unfold ViewTransferRequestsForReceiver. query_step. reflexivity.
  - intros y (b & <- & [_ Hsel]%GetQueryResult_In)%in_map_iff.
    destruct b as [o|s]; [|done]. cbn [selected selects] in Hsel.
    apply andb_prop in Hsel as [H1 H2].
    apply (selects_member _ _ o) in H1, H2.
    unfold Unmarshal_TransferRequest. cbn [fst TransferRequest.SenderTransferID
                                            TransferRequest.Status].
    now rewrite H1, H2.
  - intros y (b & <- & [_ Hsel]%GetQueryResult_In)%in_map_iff.
    destruct b as [o|s]; [|done]. cbn [selected selects] in Hsel.
    apply andb_prop in Hsel as [H1 H2].
    apply (selects_member _ _ o) in H1, H2.
    unfold Unmarshal_TransferRequest. cbn [fst TransferRequest.ReceiverTransferID
                                            TransferRequest.Status].
    now rewrite H1, H2.
  - intros k x b Hk Hb <- Hstatus. apply in_map_iff. exists b.
    split; [now rewrite (Unmarshal_Marshal_TransferRequest _ _ Hb)|].
    apply GetQueryResult_In. split; [eauto|].
    unfold Marshal_TransferRequest in Hb.
    destruct (is_finite (TransferRequest.Amount x)); [|done]. injection Hb as <-.
    cbn [selected selects field String.eqb Ascii.eqb Bool.eqb andb].
    now rewrite Hstatus, String.eqb_refl.
  - intros k x b Hk Hb <- Hstatus. apply in_map_iff. exists b.
    split; [now rewrite (Unmarshal_Marshal_TransferRequest _ _ Hb)|].
    apply GetQueryResult_In. split; [eauto|].
    unfold Marshal_TransferRequest in Hb.
    destruct (is_finite (TransferRequest.Amount x)); [|done]. injection Hb as <-.
    cbn [selected selects field String.eqb Ascii.eqb Bool.eqb andb].
    now rewrite Hstatus, String.eqb_refl.
Qed.

Lemma ViewTransferRequests_pending_witness :
  exists forReceiver,
    ViewTransferRequestsForReceiver alice (ledger_with_transfer "80")
    = (Ok forReceiver, ledger_with_transfer "80") /\
    In (transfer_of 80) forReceiver.
Proof.
  destruct (ViewTransferRequests_pending alice (ledger_with_transfer "80") eq_refl)
    as (l1 & l2 & _ & H2 & _ & _ & _ & H6).
  exists l2. split; [exact H2|].
  apply (H6 "transfer_0001" (transfer_of 80)
            (default (Text "") (Marshal_TransferRequest (transfer_of 80))));
    by_computation.
Defined.

(** ** The wallet of a participant on the reachable ledgers *)



(** ** The helper of the tests *)

(** X17.  What the repository's tests of the pincode assert, for every
    name, password, country and client identity that are valid UTF-8 and
    every pincode.  On a stub where the name is not registered,
    [CreateParticipant] returns the address and [GetParticipant] reads the
    participant back as registered: not approved, without token, with the
    client identity of the context.  A token request with the details of the
    registration and a pincode of six bytes, valid UTF-8, succeeds, and
    [GetTokenRequest] reads it back [PENDING] with that pincode; with a
    pincode of any other length it fails with "invalid pincode: must be 6
    digits" and writes nothing. *)
Theorem TestHelper_reads_back ctx name pw country pincode st :
  st !! address_of_name name = None ->
  valid_strings [name; pw; country; GetID ctx] = true ->
  let addr := address_of_name name in
  let st1 := run (TestHelper.CreateParticipant ctx name pw country) st in
  let request := Pincode.RequestTokenRequest name addr pw country pincode in
  returns (TestHelper.CreateParticipant ctx name pw country) st = Ok addr /\
  returns (TestHelper.GetParticipant addr) st1
  = Ok (Pincode.Participant.mk name addr (GetID ctx) false pw country "") /\
  (String.length pincode = 6%nat -> valid_utf8 pincode = true ->
   returns request st1 = Ok tt /\
   returns (TestHelper.GetTokenRequest addr) (run request st1)
   = Ok (Pincode.TokenRequest.mk ("tokenrequest_" +:+ addr) addr "PENDING" "" pincode)) /\
  (String.length pincode <> 6%nat ->
   request st1 = (Err (Errorf "invalid pincode: must be 6 digits"), st1)).
Proof.
  intros Hnone _ addr st1 request.
  set (p := Pincode.Participant.mk name addr (GetID ctx) false pw country "").
  assert (Hst1 : st1 = <[addr := Pincode.Marshal_Participant p]> st).
  { unfold st1, run, TestHelper.CreateParticipant, Pincode.SubmitRegistration,
      ParticipantExists. tx_step. rewrite Hnone. tx_step. reflexivity. }
  assert (Hl : st1 !! addr = Some (Pincode.Marshal_Participant p)).
  { rewrite Hst1. apply lookup_insert_eq. }
  pose proof (RequestTokenRequest_checks_length name addr pw country pincode st1 p
                Hl eq_refl eq_refl eq_refl) as Hreq.
  fold request in Hreq. clearbody st1 request. conjuncts.
  - unfold returns, TestHelper.CreateParticipant, Pincode.SubmitRegistration,
      ParticipantExists. tx_step. rewrite Hnone. tx_step. reflexivity.
  - unfold returns, TestHelper.GetParticipant. tx_step. rewrite Hl. tx_step.
    reflexivity.
  - intros Hlen _. rewrite Hlen in Hreq. cbn [Nat.eqb] in Hreq.
    unfold returns, run. rewrite Hreq. cbn [fst snd]. split; [done|].
    unfold TestHelper.GetTokenRequest. tx_step. rewrite lookup_insert_eq. tx_step.
    reflexivity.
  - intros Hlen%Nat.eqb_neq. now rewrite Hlen in Hreq.
Qed.

Lemma TestHelper_reads_back_witness :
  let st1 := run (TestHelper.CreateParticipant mockClientIdentity "Alice" "pass123" "USA")
                 ∅ in
  returns (TestHelper.GetParticipant alice) st1
  = Ok (Pincode.Participant.mk "Alice" alice "test-client-id" false "pass123" "USA" "") /\
  returns (TestHelper.GetTokenRequest alice)
          (run (Pincode.RequestTokenRequest "Alice" alice "pass123" "USA" "123456") st1)
  = Ok (Pincode.TokenRequest.mk ("tokenrequest_" +:+ alice) alice "PENDING" ""
                                "123456") /\
  Pincode.RequestTokenRequest "Alice" alice "pass123" "USA" "12345" st1
  = (Err (Errorf "invalid pincode: must be 6 digits"), st1).
Proof.
  pose proof (TestHelper_reads_back mockClientIdentity "Alice" "pass123" "USA" "123456"
                ∅ (lookup_empty _) eq_refl) as (_ & H2 & H3 & _).
  pose proof (TestHelper_reads_back mockClientIdentity "Alice" "pass123" "USA" "12345"
                ∅ (lookup_empty _) eq_refl) as (_ & _ & _ & H4).
  exact (conj H2 (conj (proj2 (H3 eq_refl eq_refl)) (H4 ltac:(discriminate)))).
Defined.

(** ** Records and their documents *)

(** X18.  Every record of the contract whose strings are valid UTF-8 reads
    back as it was written, without error: the seven structs have distinct
    member names for their fields, and [json.Unmarshal] restores each field
    from its member.  (An [int] field holds a Go [int]; a transfer request is
    stored only when its amount is finite.) *)
Theorem records_read_back :
  (forall p, valid_Participant p = true ->
             Unmarshal_Participant (Marshal_Participant p) = (p, None)) /\
  (forall t, valid_Token t = true -> is_int (Token.Minted t) ->
             Unmarshal_Token (Marshal_Token t) = (t, None)) /\
  (forall r, valid_TokenRequest r = true ->
             Unmarshal_TokenRequest (Marshal_TokenRequest r) = (r, None)) /\
  (forall m, valid_MintRequest m = true -> is_int (MintRequest.Amount m) ->
             Unmarshal_MintRequest (Marshal_MintRequest m) = (m, None)) /\
  (forall c, valid_Customer c = true -> is_int (Customer.Balance c) ->
             Unmarshal_Customer (Marshal_Customer c) = (c, None)) /\
  (forall q, valid_RegisterCustomerRequest q = true ->
             Unmarshal_RegisterCustomerRequest (Marshal_RegisterCustomerRequest q)
             = (q, None)) /\
  (forall x b, valid_TransferRequest x = true ->
               Marshal_TransferRequest x = Some b ->
               Unmarshal_TransferRequest b = (x, None)) /\
  (forall x, is_finite (TransferRequest.Amount x) = true ->
             exists b, Marshal_TransferRequest x = Some b).
Proof.
  conjuncts.
  - intros p _. apply Unmarshal_Marshal_Participant.
  - intros t _. apply Unmarshal_Marshal_Token.
  - intros r _. apply Unmarshal_Marshal_TokenRequest.
  - intros m _. apply Unmarshal_Marshal_MintRequest.
  - intros c _. apply Unmarshal_Marshal_Customer.
  - intros q _. apply Unmarshal_Marshal_RegisterCustomerRequest.
  - intros x b _. apply Unmarshal_Marshal_TransferRequest.
  - intros x Hfin. unfold Marshal_TransferRequest. rewrite Hfin. eauto.
Qed.

Lemma records_read_back_witness :
  Unmarshal_Token (Marshal_Token (token_of_alice 100)) = (token_of_alice 100, None) /\
  Unmarshal_TransferRequest
    (default (Text "") (Marshal_TransferRequest (transfer_of 80)))
  = (transfer_of 80, None).
Proof.
  destruct records_read_back as (_ & H2 & _ & _ & _ & _ & H7 & _).
  exact (conj (H2 (token_of_alice 100) eq_refl ltac:(by_computation))
              (H7 (transfer_of 80) _ eq_refl ltac:(by_computation))).
Defined.

(** X19.  Nothing in a stored document tells which kind of record it is,
    and [json.Unmarshal] skips the members it does not know and leaves the
    fields it does not find at their zero value.  So every record the
    contract stores decodes without error as a participant, as a token, as a
    token request, as a customer and as a customer's registration request:
    a transaction that decodes the record under a key it is given cannot
    tell a record of another kind from its own. *)
Theorem records_decode_as_other_kinds :
  (forall p, decodes_as_any (Marshal_Participant p)) /\
  (forall t, is_int (Token.Minted t) -> decodes_as_any (Marshal_Token t)) /\
  (forall r, decodes_as_any (Marshal_TokenRequest r)) /\
  (forall m, decodes_as_any (Marshal_MintRequest m)) /\
  (forall c, is_int (Customer.Balance c) -> decodes_as_any (Marshal_Customer c)) /\
  (forall q, decodes_as_any (Marshal_RegisterCustomerRequest q)) /\
  (forall x b, Marshal_TransferRequest x = Some b -> decodes_as_any b).
Proof.
  unfold decodes_as_any. conjuncts.
  - intros [? ? ? ? ? ? ? [ids|]]; conjuncts; reflexivity.
  - intros [? ? ? minted [ids|]]; cbn [Token.Minted]; intros H%is_intb_spec;
      conjuncts; cbn; rewrite ?H; reflexivity.
  - intros []; conjuncts; reflexivity.
  - intros []; conjuncts; reflexivity.
  - intros [? ? ? ? ? balance [ids|] [tids|]]; cbn [Customer.Balance];
      intros H%is_intb_spec; conjuncts; cbn; rewrite ?H; reflexivity.
  - intros []; conjuncts; reflexivity.
  - intros x b. unfold Marshal_TransferRequest.
    destruct (is_finite _); [|done]. intros [= <-]. conjuncts; reflexivity.
Qed.

Lemma records_decode_as_other_kinds_witness :
  decodes_as_any (Marshal_Token (token_of_alice 100)) /\
  decodes_as_any (default (Text "") (Marshal_TransferRequest (transfer_of 80))).
Proof.
  destruct records_decode_as_other_kinds as (_ & H2 & _ & _ & _ & _ & H7).
  exact (conj (H2 (token_of_alice 100) ltac:(by_computation))
              (H7 (transfer_of 80) _ ltac:(by_computation))).
Defined.

(** ** Tokens stay with their owners *)

Lemma pool_step_refl st : allocation_invariant st -> pool_step st st.
Proof.
  intros Hinv. split; [done|]. intros i t Hi Ht Howner. exists t.
  split; [done|]. split; [done|].
  destruct Hinv as (_ & Hpool & _). destruct (Hpool i Hi) as (u & Hu & _ & _ & Hav).
  rewrite Hu in Ht. apply (inj Some), Marshal_Token_inj in Ht. subst u.
  rewrite Hav. now apply String.eqb_neq.
Qed.

(** What a step keeps, once the invariant of its state is known. *)
Lemma pool_step_other st0 st st' :
  pool_step st0 st -> allocation_invariant st' ->
  (forall i, 1 <= i <= maxTokens -> st' !! token_key i = st !! token_key i) ->
  pool_step st0 st'.
Proof.
  intros [_ Hkeep] Hinv Hsame. split; [done|]. intros i t Hi Ht Howner.
  destruct (Hkeep i t Hi Ht Howner) as (t' & Ht' & Hrest). exists t'.
  split; [|done]. now rewrite Hsame.
Qed.

Lemma step_insert st0 st k b :
  pool_step st0 st -> k <> "" -> ~ is_token_key k -> no_participant b ->
  pool_step st0 (<[k := b]> st).
Proof.
  intros Hstep Hk Hnot Hb. apply (pool_step_other st0 st); [done| |].
  - apply invariant_insert; [apply Hstep|done..].
  - intros i Hi. apply lookup_insert_ne. intros ->. apply Hnot. now exists i.
Qed.

Lemma step_delete st0 st k :
  pool_step st0 st -> ~ is_token_key k -> pool_step st0 (delete k st).
Proof.
  intros Hstep Hnot. apply (pool_step_other st0 st); [done| |].
  - apply invariant_delete; [apply Hstep|done].
  - intros i Hi. apply lookup_delete_ne. intros ->. apply Hnot. now exists i.
Qed.

Lemma step_insert_participant st0 st k p :
  pool_step st0 st -> k <> "" -> ~ is_token_key k -> Participant.TokenID p = "" ->
  pool_step st0 (<[k := Marshal_Participant p]> st).
Proof.
  intros Hstep Hk Hnot Hp. apply (pool_step_other st0 st); [done| |].
  - apply invariant_insert_participant; [apply Hstep|done..].
  - intros i Hi. apply lookup_insert_ne. intros ->. apply Hnot. now exists i.
Qed.

Lemma step_token_written st0 st k b minted :
  pool_step st0 st -> st !! k = Some b ->
  snd (Unmarshal_Token b) = None -> is_int minted ->
  pool_step st0 (<[k := Marshal_Token (with_Minted (fst (Unmarshal_Token b)) minted)]> st).
Proof.
  intros [Hinv Hkeep] Hk Hdec Hint. split; [now apply invariant_token_written|].
  intros i t Hi Ht Howner.
  destruct (Hkeep i t Hi Ht Howner) as (t' & Ht' & Ho & Hav).
  destruct (decide (k = token_key i)) as [->|Hne].
  - rewrite Ht' in Hk. injection Hk as <-.
    destruct Hinv as (_ & Hpool & _). destruct (Hpool i Hi) as (u & Hu & Hintu & _).
    rewrite Hu in Ht'. apply (inj Some), Marshal_Token_inj in Ht'. subst u.
    rewrite Unmarshal_Marshal_Token by done. cbn [fst].
    exists (with_Minted t' minted). split; [apply lookup_insert_eq|]. done.
  - exists t'. split; [|done]. now rewrite lookup_insert_ne.
Qed.

Lemma step_allocation st0 st i t a p :
  pool_step st0 st -> 1 <= i <= maxTokens ->
  st !! token_key i = Some (Marshal_Token t) ->
  Token.Available t = true ->
  a <> "" -> ~ is_token_key a ->
  pool_step st0
    (<[token_key i := Marshal_Token (owned_Token t a)]>
       (<[a := Marshal_Participant (approved_Participant p (token_key i))]> st)).
Proof.
  intros [Hinv Hkeep] Hi Ht Hav Ha Hnot. split; [now apply invariant_allocation|].
  intros j u Hj Hu Howner.
  destruct (Hkeep j u Hj Hu Howner) as (u' & Hu' & Ho & Hav').
  destruct (decide (j = i)) as [->|Hne].
  - rewrite Ht in Hu'. apply (inj Some), Marshal_Token_inj in Hu'. subst u'.
    congruence.
  - exists u'. split; [|done]. rewrite !lookup_insert_ne; [done| |].
    + intros ->. apply Hnot. now exists j.
    + intros Heq. apply token_key_inj in Heq; [lia|done..].
Qed.

Ltac step_kept :=
  cbn [fst snd];
  first [ assumption
        | apply step_insert; [assumption | discriminate | prefixed_key | other_record] ].

Lemma SubmitRegistration_step ctx name passwordHash country st0 st :
  pool_step st0 st ->
  pool_step st0 (run (SubmitRegistration ctx name passwordHash country) st).
Proof.
  intros Hstep. pose proof (proj1 Hstep) as Hinv.
  unfold SubmitRegistration, ParticipantExists. tx_crunch; cbn [fst snd].
  - done.
  - apply step_insert_participant; [done| | |done].
    + apply address_of_name_nonempty.
    + eapply absent_not_token_key; [eassumption|].
      now destruct (st !! address_of_name name).
Qed.

Lemma RequestTokenRequest_step name networkAddress passwordHash country st0 st :
  pool_step st0 st ->
  pool_step st0 (run (RequestTokenRequest name networkAddress passwordHash country) st).
Proof. intros Hstep. unfold RequestTokenRequest. tx_crunch; step_kept. Qed.

Lemma RequestMintCoins_step ctx networkAddress passwordHash amount st0 st :
  pool_step st0 st ->
  pool_step st0 (run (RequestMintCoins ctx networkAddress passwordHash amount) st).
Proof. intros Hstep. unfold RequestMintCoins. tx_crunch; step_kept. Qed.

Lemma RegisterCustomer_step networkAddress name passwordHash tokenID st0 st :
  pool_step st0 st ->
  pool_step st0 (run (RegisterCustomer networkAddress name passwordHash tokenID) st).
Proof. intros Hstep. unfold RegisterCustomer. tx_crunch; step_kept. Qed.

Lemma CustomerRequestMint_step networkAddress tokenID amount st0 st :
  pool_step st0 st ->
  pool_step st0 (run (CustomerRequestMint networkAddress tokenID amount) st).
Proof. intros Hstep. unfold CustomerRequestMint. tx_crunch; step_kept. Qed.

Lemma CreateTransferRequest_step ParseFloat sender receiver senderToken
  receiverToken tokenID amountStr NewRandom st0 st :
  pool_step st0 st ->
  pool_step st0
    (run (CreateTransferRequest ParseFloat sender receiver senderToken receiverToken
                                tokenID amountStr NewRandom) st).
Proof. intros Hstep. unfold CreateTransferRequest. tx_crunch; step_kept. Qed.

Lemma ApproveTransferByOwner_step transferRequestID approver st0 st :
  pool_step st0 st ->
  pool_step st0 (run (ApproveTransferByOwner transferRequestID approver) st).
Proof.
  intros Hstep. pose proof (proj1 Hstep) as Hinv.
  unfold ApproveTransferByOwner. tx_crunch; cbn [fst snd]; try done.
  - apply step_insert; [done| | |].
    + eapply invariant_key_nonempty; eassumption.
    + eapply status_not_token_key; [eassumption..|].
      eapply status_eqb_nonempty; [eassumption|discriminate].
    + eapply no_participant_TransferRequest; eassumption.
  - apply step_delete; [done|].
    eapply status_not_token_key; [eassumption..|].
    eapply status_eqb_nonempty; [eassumption|discriminate].
Qed.

Lemma ApproveTransferByReceiver_step ParseFloat transferRequestID approver st0 st :
  pool_step st0 st ->
  pool_step st0
    (run (ApproveTransferByReceiver ParseFloat transferRequestID approver) st).
Proof.
  intros Hstep. pose proof (proj1 Hstep) as Hinv.
  unfold run, ApproveTransferByReceiver. tx_step.
  destruct (st !! transferRequestID) as [b|] eqn:Hid; tx_step; [|done].
  destruct (snd (Unmarshal_TransferRequest b)) eqn:Herr; tx_step; [done|].
  destruct (negb (String.eqb (TransferRequest.Status _) _)) eqn:Hstatus;
    tx_step; [done|].
  assert (Hidkey : ~ is_token_key transferRequestID).
  { eapply status_not_token_key; [eassumption..|].
    eapply status_eqb_nonempty; [eassumption|discriminate]. }
  assert (Hidne : transferRequestID <> "") by eauto using invariant_key_nonempty.
  destruct (st !! TransferRequest.TokenID _) as [b0|] eqn:Htok; tx_step; [|done].
  destruct (snd (Unmarshal_Token b0)) eqn:Hdec; tx_step; [done|].
  destruct (negb (String.eqb (Token.Owner _) approver)); tx_step; [done|].
  destruct (st !! TransferRequest.SenderTransferID (fst (Unmarshal_TransferRequest b)))
    as [b1|] eqn:Hbal; tx_step; [|done].
  destruct (ParseFloat_bytes ParseFloat b1) as [f|] eqn:Hparse; tx_step; [|done].
  destruct (PrimFloat.ltb _ _); tx_step.
  - destruct (Marshal_TransferRequest _) as [rejected|] eqn:Hm; tx_step; cbn [fst snd].
    + apply step_insert; eauto using no_participant_TransferRequest.
    + now apply step_delete.
  - set (st1 := <[TransferRequest.SenderTransferID _ := _]> st).
    assert (Hst1 : pool_step st0 st1).
    { apply step_insert;
        eauto using invariant_key_nonempty, balance_not_token_key, no_participant_Text. }
    assert (Htok1 : st1 !! TransferRequest.TokenID (fst (Unmarshal_TransferRequest b))
                    = Some b0).
    { unfold st1. rewrite lookup_insert_ne; [done|]. intros Heq.
      rewrite Heq, Htok in Hbal. injection Hbal as <-.
      now apply balance_not_decoded in Hparse. }
    pose proof (step_token_written st0 st1 _ b0
                  (add_int (Token.Minted (fst (Unmarshal_Token b0)))
                           (int_of_float64
                              (TransferRequest.Amount (fst (Unmarshal_TransferRequest b)))))
                  Hst1 Htok1 Hdec (wrap_int_is_int _)) as Hst2.
    destruct (Marshal_TransferRequest _) as [completed|] eqn:Hm; tx_step; cbn [fst snd].
    + apply step_insert; eauto using no_participant_TransferRequest.
    + now apply step_delete.
Qed.

Lemma ApproveMintRequest_step ctx requestID st0 st :
  pool_step st0 st -> ~ is_token_key requestID ->
  pool_step st0 (run (ApproveMintRequest ctx requestID) st).
Proof.
  intros Hstep Hsafe. pose proof (proj1 Hstep) as Hinv.
  unfold run, ApproveMintRequest. tx_step.
  destruct (negb _); tx_step; [done|].
  destruct (st !! requestID) as [b|] eqn:Hid; tx_step; [|done].
  destruct (snd (Unmarshal_MintRequest b)) eqn:Herr; tx_step; [done|].
  destruct (MintRequest.Approved _); tx_step; [done|].
  set (st1 := <[requestID := _]> st).
  assert (Hst1 : pool_step st0 st1).
  { apply step_insert;
      eauto using invariant_key_nonempty, no_participant_MintRequest. }
  destruct (st1 !! MintRequest.TokenID (fst (Unmarshal_MintRequest b)))
    as [b0|] eqn:Htok; tx_step; [|done].
  destruct (snd (Unmarshal_Token b0)) eqn:Hdec; tx_step; [done|].
  cbn [fst snd].
  exact (step_token_written st0 st1 _ b0 _ Hst1 Htok Hdec (wrap_int_is_int _)).
Qed.

Lemma ApproveCustomerRegistration_step requestID owner st0 st :
  pool_step st0 st -> ~ is_token_key requestID ->
  pool_step st0 (run (ApproveCustomerRegistration requestID owner) st).
Proof.
  intros Hstep Hsafe. pose proof (proj1 Hstep) as Hinv.
  unfold run, ApproveCustomerRegistration. tx_step.
  destruct (st !! requestID) as [b|] eqn:Hid; tx_step; [|done].
  destruct (snd (Unmarshal_RegisterCustomerRequest b)) eqn:Herr; tx_step; [done|].
  destruct (st !! RegisterCustomerRequest.TokenID _) as [b0|]; tx_step; [|done].
  destruct (snd (Unmarshal_Token b0)); tx_step; [done|].
  destruct (negb _); tx_step; [done|].
  destruct (RegisterCustomerRequest.Approved _); tx_step; [done|].
  cbn [fst snd]. apply step_insert; [|discriminate|prefixed_key|other_record].
  apply step_insert;
    eauto using invariant_key_nonempty, no_participant_RegisterCustomerRequest.
Qed.

Lemma ApproveTokenRequest_step ctx networkAddress st0 st :
  pool_step st0 st -> ~ is_token_key networkAddress ->
  pool_step st0 (run (ApproveTokenRequest ctx networkAddress) st).
Proof.
  intros Hstep Hsafe. pose proof (proj1 Hstep) as Hinv.
  unfold run, ApproveTokenRequest. tx_step.
  destruct (negb _); tx_step; [done|].
  destruct (st !! ("tokenrequest_" +:+ networkAddress)) as [rb|] eqn:Hreq;
    tx_step; [|done].
  destruct (negb _); tx_step; [done|].
  pose proof Hinv as (_ & Hpool & _).
  unfold findAvailableToken.
  destruct (findAvailableToken_loop_pool (Z.to_nat maxTokens) 1 st Hpool)
    as [Hnone|(i & t & Hi & Ht & Hav & Hfirst)];
    [lia|unfold maxTokens; simpl; lia| |].
  { rewrite bind_run, Hnone. now tx_step. }
  rewrite bind_run, Hfirst. tx_step. rewrite token_key_eqb_empty. tx_step.
  set (st1 := <["tokenrequest_" +:+ networkAddress := _]> st).
  assert (Hst1 : pool_step st0 st1).
  { apply step_insert; [done|discriminate|prefixed_key|other_record]. }
  destruct (st1 !! networkAddress) as [pb|] eqn:Hp; tx_step; [|done].
  pose proof Ht as (Hl & Hint & _).
  assert (Hl1 : st1 !! token_key i = Some (Marshal_Token t)).
  { unfold st1. rewrite lookup_insert_ne; [done|].
    intros Heq. apply (not_token_key_tokenrequest networkAddress).
    rewrite Heq. now exists i. }
  assert (Hne : networkAddress <> token_key i).
  { intros ->. apply Hsafe. exists i. split; [exact Hi|reflexivity]. }
  rewrite (lookup_insert_ne st1 networkAddress (token_key i)), Hl1 by exact Hne.
  tx_step. rewrite Unmarshal_Marshal_Token by done. cbn [fst snd].
  apply (step_allocation st0 st1 i t networkAddress (fst (Unmarshal_Participant pb)));
    try done.
  eapply invariant_key_nonempty; [apply Hst1|exact Hp].
Qed.

Lemma ApproveCustomerMint_step requestID owner st0 st :
  pool_step st0 st ->
  pool_step st0 (run (ApproveCustomerMint requestID owner) st).
Proof.
  intros Hstep. pose proof (proj1 Hstep) as Hinv.
  unfold run, ApproveCustomerMint. tx_step.
  destruct (st !! requestID) as [b|] eqn:Hid; tx_step; [|done].
  destruct (snd (Unmarshal_MintRequest b)) eqn:Herr; tx_step; [done|].
  destruct (st !! MintRequest.TokenID (fst (Unmarshal_MintRequest b)))
    as [tb|] eqn:Htok; tx_step; [|done].
  destruct (snd (Unmarshal_Token tb)) eqn:Hdec; tx_step; [done|].
  destruct (negb _); tx_step; [done|].
  destruct (MintRequest.Approved _); tx_step; [done|].
  destruct (Token.Minted _ <? _); tx_step; [done|].
  set (k := MintRequest.TokenID (fst (Unmarshal_MintRequest b))) in *.
  set (token := Marshal_Token _).
  set (request := Marshal_MintRequest _).
  assert (Hst2 : pool_step st0 (<[k := token]> (<[requestID := request]> st))).
  { destruct (decide (k = requestID)) as [Heq|Hne].
    - rewrite Heq, insert_insert_eq. rewrite Heq in Htok.
      exact (step_token_written st0 st requestID tb _ Hstep Htok Hdec
               (wrap_int_is_int _)).
    - assert (Hkey : ~ is_token_key requestID).
      { intros Hkey. destruct Hinv as (_ & Hpool & _).
        destruct (pool_records_key st requestID b Hpool Hid Hkey)
          as (i & t & Hi & -> & -> & (_ & _ & Htid & _)).
        apply Hne. unfold k. now rewrite Token_as_MintRequest. }
      assert (Hst1 : pool_step st0 (<[requestID := request]> st)).
      { apply step_insert;
          eauto using invariant_key_nonempty, no_participant_MintRequest. }
      apply (step_token_written st0 _ k tb _ Hst1); [|done|apply wrap_int_is_int].
      now rewrite lookup_insert_ne. }
  destruct (_ !! ("customer_" +:+ _)) as [cb|]; tx_step; [|done].
  destruct (snd (Unmarshal_Customer cb)); tx_step; [done|].
  cbn [fst snd]. apply step_insert; [done|discriminate|prefixed_key|other_record].
Qed.

Lemma invoke_step ParseFloat ctx c st0 st :
  pool_step st0 st -> pool_safe c ->
  pool_step st0 (run (invoke ParseFloat ctx c) st).
Proof.
  intros Hstep Hsafe. destruct c; cbn [invoke pool_safe] in *;
    rewrite ?run_then_ret;
    eauto using SubmitRegistration_step, RequestTokenRequest_step,
      ApproveTokenRequest_step, RequestMintCoins_step,
      ApproveMintRequest_step, RegisterCustomer_step,
      ApproveCustomerRegistration_step, CustomerRequestMint_step,
      ApproveCustomerMint_step, CreateTransferRequest_step,
      ApproveTransferByOwner_step, ApproveTransferByReceiver_step.
  done.
Qed.

Lemma run_trace_step ParseFloat tr st0 st :
  pool_step st0 st -> pool_safe_trace tr ->
  pool_step st0 (run_trace ParseFloat tr st).
Proof.
  revert st. induction tr as [|[ctx c] tr IH]; intros st Hstep Htr; [done|].
  inversion Htr as [|? ? Hc Htr']; subst. cbn [run_trace].
  apply IH; [|done]. now apply invoke_step.
Qed.

(** X20.  A token stays with its owner.  On a ledger reachable from an
    initialized one by invocations that keep to the pool, a token of the
    pool that has an owner keeps that owner, and stays unavailable, through
    every further sequence of such invocations: no transaction of the
    contract passes a token on or gives it back to the pool. *)
Theorem tokens_stay_with_owners ParseFloat st tr i t :
  reachable_by ParseFloat pool_safe st ->
  pool_safe_trace tr ->
  1 <= i <= 25 ->
  st !! token_key i = Some (Marshal_Token t) ->
  Token.Owner t <> "" ->
  exists t',
    run_trace ParseFloat tr st !! token_key i = Some (Marshal_Token t') /\
    Token.Owner t' = Token.Owner t /\
    Token.Available t' = false.
Proof.
  intros Hst Htr Hi Ht Howner.
  apply (reachable_allocation_invariant ParseFloat), pool_step_refl in Hst.
  destruct (run_trace_step ParseFloat tr st st Hst Htr) as [_ Hkeep].
  now apply (Hkeep i t).
Qed.

Lemma tokens_stay_with_owners_witness :
  exists t',
    ledger_completed !! token_key 1 = Some (Marshal_Token t') /\
    Token.Owner t' = alice /\
    Token.Available t' = false.
Proof.
  assert (H : reachable_by ParseFloat_plain pool_safe ledger_minted).
  { apply (reachable_run_trace ParseFloat_plain pool_safe (tail allocation ++ minting)
             (run InitLedger seeded)).
    - apply reachable_init, seeded_balances_only.
    - repeat constructor; try by_computation; now apply token_index_None. }
  apply (tokens_stay_with_owners ParseFloat_plain ledger_minted
           (transfer "80" ++
            [ (alice_client, Invoke_ApproveTransferByReceiver "transfer_0001" alice) ])
           1 (token_of_alice 100) H).
  - repeat constructor.
  - lia.
  - by_computation.
  - discriminate.
Defined.

(** ** Who approves a transfer as its receiver *)

(** X21.  The receiver's approval is the approval of the token's owner: for
    a request that waits for it, an approver who does not own the token the
    request names fails with "approver is not the token owner (receiver)"
    and writes nothing, be it the receiver the request names. *)
Theorem ApproveTransferByReceiver_owner_only ParseFloat st id approver request b token :
  st !! id = Some b ->
  Marshal_TransferRequest request = Some b ->
  TransferRequest.Status request = "PendingReceiverApproval" ->
  st !! TransferRequest.TokenID request = Some (Marshal_Token token) ->
  is_int (Token.Minted token) ->
  Token.Owner token <> approver ->
  ApproveTransferByReceiver ParseFloat id approver st
  = (Err (Errorf "approver is not the token owner (receiver)"), st).
Proof.
  intros Hid Hb Hstatus Htok Hint Howner%String.eqb_neq.
  unfold ApproveTransferByReceiver. tx_step. rewrite Hid. tx_step.
  rewrite (Unmarshal_Marshal_TransferRequest _ _ Hb). tx_step.
  rewrite Hstatus. tx_step. rewrite Htok. tx_step.
  rewrite Unmarshal_Marshal_Token by done. tx_step. rewrite Howner. reflexivity.
Qed.

Lemma ApproveTransferByReceiver_owner_only_witness :
  ApproveTransferByReceiver ParseFloat_plain "transfer_0001" "acct_carol"
                            (ledger_with_transfer "80")
  = (Err (Errorf "approver is not the token owner (receiver)"),
     ledger_with_transfer "80").
Proof.
  exact (ApproveTransferByReceiver_owner_only ParseFloat_plain
           (ledger_with_transfer "80") "transfer_0001" "acct_carol" (transfer_of 80)
           (default (Text "") (Marshal_TransferRequest (transfer_of 80)))
           (token_of_alice 100)
           ltac:(by_computation) ltac:(by_computation) eq_refl
           ltac:(by_computation) ltac:(by_computation) ltac:(discriminate)).
Defined.
